(** * Bootstrapped ensemble estimator (theodon-tabular/src/models.py)

    A shallow embedding of [BootstrappedEstimator] and of the estimators it
    wraps.  Python objects are records carrying an object identity, tensors
    are nested lists of scalars, exceptions are an error monad layered over
    the mutable state (the ensemble object and the global random generator). *)

From Stdlib Require Import ZArith QArith Qreduction String.
From stdpp Require Import base tactics option list.

Open Scope Z_scope.

(** ** Scalars

    Tensor entries are exact rationals extended with the two infinities and
    not-a-number.  Rounding is not modelled; the special values follow the
    IEEE rules that the code can observe (0/0, inf - inf, 0 * inf are NaN). *)
Module Scalar.

Inductive scalar : Type :=
| Fin (q : Q)
| Inf (negative : bool)
| NaN.

Definition is_zero (q : Q) : bool := Qeq_bool q 0.
Definition is_neg (q : Q) : bool := match Qcompare q 0 with Lt => true | _ => false end.

Definition fin (q : Q) : scalar := Fin (Qred q).
Definition of_Z (n : Z) : scalar := Fin (inject_Z n).
Definition zero : scalar := of_Z 0.

Definition sneg (a : scalar) : scalar :=
  match a with
  | Fin q => fin (- q)
  | Inf s => Inf (negb s)
  | NaN => NaN
  end.

Definition sadd (a b : scalar) : scalar :=
  match a, b with
  | NaN, _ | _, NaN => NaN
  | Fin x, Fin y => fin (x + y)
  | Inf s, Fin _ | Fin _, Inf s => Inf s
  | Inf s, Inf t => if Bool.eqb s t then Inf s else NaN
  end.

Definition ssub (a b : scalar) : scalar := sadd a (sneg b).

Definition smul (a b : scalar) : scalar :=
  match a, b with
  | NaN, _ | _, NaN => NaN
  | Fin x, Fin y => fin (x * y)
  | Inf s, Fin y | Fin y, Inf s =>
      if is_zero y then NaN else Inf (xorb s (is_neg y))
  | Inf s, Inf t => Inf (xorb s t)
  end.

Definition sdiv (a b : scalar) : scalar :=
  match a, b with
  | NaN, _ | _, NaN => NaN
  | Fin x, Fin y =>
      if is_zero y
      then (if is_zero x then NaN else Inf (is_neg x))
      else fin (x / y)
  | Inf s, Fin y => Inf (xorb s (is_neg y))
  | Fin _, Inf _ => zero
  | Inf _, Inf _ => NaN
  end.

(** [torch.relu]: max(0, v); NaN propagates. *)
Definition relu (a : scalar) : scalar :=
  match a with
  | Fin q => if is_neg q then zero else Fin q
  | Inf true => zero
  | Inf false => Inf false
  | NaN => NaN
  end.

Definition ssum (l : list scalar) : scalar := fold_left sadd l zero.

(** Mean of the entries of one reduction slice. *)
Definition smean (l : list scalar) : scalar :=
  sdiv (ssum l) (of_Z (Z.of_nat (length l))).

(** Sum of squared deviations from the mean. *)
Definition ssd (l : list scalar) : scalar :=
  let m := smean l in
  ssum (map (fun v => smul (ssub v m) (ssub v m)) l).

(** [Tensor.var] with its default [unbiased=True]: Bessel's correction. *)
Definition svar (l : list scalar) : scalar :=
  sdiv (ssd l) (of_Z (Z.of_nat (length l) - 1)).

(** The population variance, for comparison only. *)
Definition svar_biased (l : list scalar) : scalar :=
  sdiv (ssd l) (of_Z (Z.of_nat (length l))).

End Scalar.
Export Scalar.

(** ** Exceptions and the state-and-error monad *)

Inductive exn : Type :=
| IndexError
| AttributeError
| AssertionError
| RuntimeError.

Inductive result (A : Type) : Type :=
| Ok (a : A)
| Raise (e : exn).
Arguments Ok {A} a.
Arguments Raise {A} e.

#[global] Instance result_ret : MRet result := @Ok.
#[global] Instance result_bind : MBind result := fun A B f r =>
  match r with
  | Ok a => f a
  | Raise e => Raise e
  end.
#[global] Instance result_fmap : FMap result := fun A B f r =>
  match r with
  | Ok a => Ok (f a)
  | Raise e => Raise e
  end.

(** A computation over a mutable state [S] that may raise: the state reached
    when the exception is raised is kept, as in Python. *)
Definition M (S A : Type) : Type := S -> result A * S.

#[global] Instance M_ret {S} : MRet (M S) := fun A a s => (Ok a, s).
#[global] Instance M_bind {S} : MBind (M S) := fun A B f m s =>
  match m s with
  | (Ok a, s') => f a s'
  | (Raise e, s') => (Raise e, s')
  end.

#[global] Instance M_fmap {S} : FMap (M S) := fun A B f m s =>
  match m s with
  | (Ok a, s') => (Ok (f a), s')
  | (Raise e, s') => (Raise e, s')
  end.

Definition lift {S A} (r : result A) : M S A := fun s => (r, s).
Definition modify {S} (f : S -> S) : M S unit := fun s => (Ok tt, f s).

(** [for a in l: body a], collecting the values of the body. *)
Fixpoint for_each {S A B} (body : A -> M S B) (l : list A) : M S (list B) :=
  match l with
  | [] => mret []
  | a :: l' => b ← body a; bs ← for_each body l'; mret (b :: bs)
  end.

(** The same loop for a body that only raises. *)
Fixpoint for_each_pure {A B} (body : A -> result B) (l : list A) : result (list B) :=
  match l with
  | [] => Ok []
  | a :: l' => b ← body a; bs ← for_each_pure body l'; Ok (b :: bs)
  end.

(** Python sequence indexing [l[i]]: a negative index counts from the end,
    anything outside [-len, len) raises IndexError. *)
Definition norm_index (len : nat) (i : Z) : option nat :=
  let n := Z.of_nat len in
  let j := if i <? 0 then i + n else i in
  if (0 <=? j) && (j <? n) then Some (Z.to_nat j) else None.

Definition getitem {A} (l : list A) (i : Z) : result A :=
  match norm_index (length l) i with
  | Some j => match l !! j with Some a => Ok a | None => Raise IndexError end
  | None => Raise IndexError
  end.

(** ** Tensors

    A float tensor of shape [rows, cols] is a list of rows.  A one-dimensional
    tensor (a bias) is kept as a single row. *)
Abbreviation tensor := (list (list scalar)).

Definition same_shape (a b : tensor) : bool :=
  bool_decide (map length a = map length b).

Definition entry (t : tensor) (r c : nat) : scalar :=
  default NaN (row ← t !! r; row !! c).

(** The place of entry [r, c] in the row-major order of the entries. *)
Definition offset (t : tensor) (r c : nat) : nat :=
  (length (concat (take r t)) + c)%nat.

(** [a + b] on tensors of one shape (broadcasting between different shapes is
    not modelled: unequal shapes raise). *)
Definition tensor_add (a b : tensor) : result tensor :=
  if same_shape a b
  then Ok (zip_with (zip_with sadd) a b)
  else Raise RuntimeError.

(** [torch.stack(ys, 0)]: needs a non-empty list of tensors of one shape. *)
Definition stack (ys : list tensor) : result (list tensor) :=
  match ys with
  | [] => Raise RuntimeError
  | y0 :: _ => if forallb (same_shape y0) ys then Ok ys else Raise RuntimeError
  end.

(** Reduction of a stacked tensor along its leading axis: entry [r, c] of the
    result reduces the entries [r, c] of all the stacked tensors. *)
Definition reduce0 (f : list scalar -> scalar) (ys : list tensor) : tensor :=
  match ys with
  | [] => []
  | y0 :: _ =>
      imap (fun r row => imap (fun c _ => f (map (fun y => entry y r c) ys)) row) y0
  end.

Definition mean0 : list tensor -> tensor := reduce0 smean.
Definition var0 : list tensor -> tensor := reduce0 svar.

Definition full_like (t : tensor) (v : scalar) : tensor := map (map (fun _ => v)) t.

Definition dot (u v : list scalar) : scalar := ssum (zip_with smul u v).

(** [F.linear(x, w, b)]: x is [batch, in], w is [out, in], b is [out]. *)
Definition F_linear (x w : tensor) (b : list scalar) : result tensor :=
  let in_features := match w with [] => 0%nat | wr :: _ => length wr end in
  if forallb (fun r => Nat.eqb (length r) in_features) x
     && forallb (fun wr => Nat.eqb (length wr) in_features) w
     && Nat.eqb (length w) (length b)
  then Ok (map (fun row => zip_with (fun wr bo => sadd (dot row wr) bo) w b) x)
  else Raise RuntimeError.

Definition F_relu (t : tensor) : tensor := map (map relu) t.

(** An input tensor with its element type.  A tensor with at least one axis
    is given by its rows along the first axis, each row holding the remaining
    axes flattened in row-major order (for a two-dimensional tensor, the
    tensor itself); a 0-dimensional tensor is a single number and has no
    axis.  Tensors are values: strides and contiguity are not modelled. *)
Inductive dtype : Type := UInt8 | Float32.

Inductive input : Type :=
| Input (dt : dtype) (rows : tensor)
| Input0 (dt : dtype) (v : scalar).

(** [x.dtype] *)
Definition x_dtype (x : input) : dtype :=
  match x with
  | Input dt _ | Input0 dt _ => dt
  end.

(** The rows of [x] along its first axis; a 0-dimensional tensor has none. *)
Definition x_values (x : input) : tensor :=
  match x with
  | Input _ rows => rows
  | Input0 _ _ => []
  end.

(** [x.shape[0]]: the shape of a 0-dimensional tensor is the empty tuple,
    and indexing it raises. *)
Definition shape0 (x : input) : result nat :=
  match x with
  | Input _ rows => Ok (length rows)
  | Input0 _ _ => Raise IndexError
  end.

(** [x.view(x.shape[0], -1).float()]: one row per element of the first axis.
    The size [-1] stands for is the number of elements divided by
    [x.shape[0]]; it cannot be inferred for a tensor without elements (no
    rows, or rows without features), and [view] raises.  The conversion to
    float keeps the values. *)
Definition view_rows (x : input) : result tensor :=
  _ ← shape0 x;
  match concat (x_values x) with
  | [] => Raise RuntimeError
  | _ => Ok (x_values x)
  end.

(** ** The global random generator

    The generator is an oracle tape: [outcome law i] is what the i-th draw
    returns when it is asked for a value of the given law. *)
Inductive law : Type :=
| StdNormal                      (* N(0, 1) *)
| UniformInit (fan_in : nat).    (* U(-1/sqrt(fan_in), 1/sqrt(fan_in)) *)

Record generator : Type := Generator { outcome : law -> nat -> Q; position : nat }.

Definition draw (d : law) (n : nat) (g : generator) : list scalar * generator :=
  (map (fun i => fin (outcome g d (position g + i))) (seq 0 n),
   {| outcome := outcome g; position := position g + n |}).

(** One draw per entry of [t], row-major. *)
Fixpoint draw_like (d : law) (t : tensor) (g : generator) : tensor * generator :=
  match t with
  | [] => ([], g)
  | row :: rest =>
      let (r, g1) := draw d (length row) g in
      let (rs, g2) := draw_like d rest g1 in
      (r :: rs, g2)
  end.

(** [torch.normal(mean, std)]: mean + std * eps, eps standard normal. *)
Definition torch_normal (mean std : tensor) (g : generator) : tensor * generator :=
  let (eps, g') := draw_like StdNormal mean g in
  (zip_with (zip_with (fun ms e => sadd ms.1 (smul ms.2 e)))
     (zip_with zip mean std) eps, g').

(** [t.normal_(mean, std)] with scalar arguments, on a tensor shaped like [t]. *)
Definition normal_ (t : tensor) (mean std : scalar) (g : generator) : tensor * generator :=
  torch_normal (full_like t mean) (full_like t std) g.

(** ** Parameters and modules

    Every Python object that matters for identity (a parameter, a module)
    carries the identity it got when it was allocated. *)
Record param : Type :=
  { pid : nat; data : tensor; requires_grad : bool }.

Definition set_data (p : param) (d : tensor) : param :=
  {| pid := pid p; data := d; requires_grad := requires_grad p |}.
Definition set_requires_grad (p : param) (b : bool) : param :=
  {| pid := pid p; data := data p; requires_grad := b |}.

(** The state in which objects are built: the global generator and the
    allocator of object identities. *)
Record world : Type := World { rng : generator; next_id : nat }.

Definition fresh : M world nat := fun w =>
  (Ok (next_id w), {| rng := rng w; next_id := S (next_id w) |}).

Definition with_rng {A} (f : generator -> A * generator) : M world A := fun w =>
  let (a, g) := f (rng w) in (Ok a, {| rng := g; next_id := next_id w |}).

Definition copy_param (p : param) : M world param :=
  i ← fresh; mret {| pid := i; data := data p; requires_grad := requires_grad p |}.

(** [torch.nn.Linear(in_features, out_features, bias=True)]. *)
Module Linear.

Record t : Type := { id : nat; weight : param; bias : param }.

Definition in_features (self : t) : nat :=
  match data (weight self) with [] => 0%nat | wr :: _ => length wr end.

Definition forward (self : t) (x : tensor) : result tensor :=
  F_linear x (data (weight self)) (concat (data (bias self))).

(** The library's default initialisation: weight and bias uniform within
    1/sqrt(fan_in). *)
Definition reset_parameters (self : t) : M world t :=
  let d := UniformInit (in_features self) in
  w ← with_rng (draw_like d (data (weight self)));
  b ← with_rng (draw_like d (data (bias self)));
  mret {| id := id self; weight := set_data (weight self) w; bias := set_data (bias self) b |}.

Definition new (in_size out_size : nat) : M world t :=
  i ← fresh; wi ← fresh; bi ← fresh;
  reset_parameters
    {| id := i;
       weight := {| pid := wi; data := replicate out_size (replicate in_size zero);
                    requires_grad := true |};
       bias := {| pid := bi; data := [replicate out_size zero]; requires_grad := true |} |}.

Definition parameters (self : t) : list param := [weight self; bias self].

Definition deepcopy (self : t) : M world t :=
  i ← fresh; w ← copy_param (weight self); b ← copy_param (bias self);
  mret {| id := i; weight := w; bias := b |}.

End Linear.

(** class NonLinearEstimator: a FCN with one hidden layer. *)
Module NonLinearEstimator.

Record t : Type := { id : nat; fc1 : Linear.t; fc2 : Linear.t }.

Definition reset_parameters (self : t) : M world t :=
  l1 ← Linear.reset_parameters (fc1 self);
  l2 ← Linear.reset_parameters (fc2 self);
  mret {| id := id self; fc1 := l1; fc2 := l2 |}.

Definition new (in_size out_size : nat) : M world t :=
  let hid_size := Nat.max 2 (Nat.div (in_size + 1) 2) in
  i ← fresh;
  l1 ← Linear.new in_size hid_size;
  l2 ← Linear.new hid_size out_size;
  reset_parameters {| id := i; fc1 := l1; fc2 := l2 |}.

Definition forward (self : t) (x : input) : result tensor :=
  match x_dtype x with
  | UInt8 =>
      v ← view_rows x;
      h ← Linear.forward (fc1 self) v;
      Linear.forward (fc2 self) (F_relu h)
  | _ => Raise AssertionError
  end.

Definition parameters (self : t) : list param :=
  Linear.parameters (fc1 self) ++ Linear.parameters (fc2 self).

Definition deepcopy (self : t) : M world t :=
  i ← fresh; l1 ← Linear.deepcopy (fc1 self); l2 ← Linear.deepcopy (fc2 self);
  mret {| id := i; fc1 := l1; fc2 := l2 |}.

End NonLinearEstimator.

(** class LinearEstimator: a linear Q-value estimator. *)
Module LinearEstimator.

Record t : Type := { id : nat; linear : Linear.t }.

(** Reset params to N(0, 0.1). *)
Definition reset_parameters (self : t) : M world t :=
  let l := linear self in
  w ← with_rng (normal_ (data (Linear.weight l)) (fin 0) (fin (1 # 10)));
  b ← with_rng (normal_ (data (Linear.bias l)) (fin 0) (fin (1 # 10)));
  mret {| id := id self;
          linear := {| Linear.id := Linear.id l;
                       Linear.weight := set_data (Linear.weight l) w;
                       Linear.bias := set_data (Linear.bias l) b |} |}.

Definition new (in_size out_size : nat) : M world t :=
  i ← fresh;
  l ← Linear.new in_size out_size;
  reset_parameters {| id := i; linear := l |}.

Definition forward (self : t) (x : input) : result tensor :=
  match x_dtype x with
  | UInt8 => v ← view_rows x; Linear.forward (linear self) v
  | _ => Raise AssertionError
  end.

Definition parameters (self : t) : list param := Linear.parameters (linear self).

Definition deepcopy (self : t) : M world t :=
  i ← fresh; l ← Linear.deepcopy (linear self);
  mret {| id := i; linear := l |}.

End LinearEstimator.

(** ** Modules as the ensemble sees them

    [proto_model] is any [torch.nn.Module]: one of the two estimators of this
    file, or a bare [torch.nn.Linear].  The operations below are the dynamic
    dispatch of the method calls and attribute accesses the ensemble makes. *)
Inductive module : Type :=
| OfLinear (m : Linear.t)
| OfLinearEstimator (m : LinearEstimator.t)
| OfNonLinearEstimator (m : NonLinearEstimator.t).

Definition object_id (m : module) : nat :=
  match m with
  | OfLinear l => Linear.id l
  | OfLinearEstimator e => LinearEstimator.id e
  | OfNonLinearEstimator e => NonLinearEstimator.id e
  end.

(** [m(x)].  A bare [nn.Linear] is applied to the tensor as it is, here a
    two-dimensional one: it multiplies by float weights, so it rejects a
    byte tensor, and the product is not defined for a 0-dimensional tensor.
    The two estimators assert a byte tensor. *)
Definition call (m : module) (x : input) : result tensor :=
  match m with
  | OfLinear l =>
      match x with
      | Input Float32 rows => Linear.forward l rows
      | _ => Raise RuntimeError
      end
  | OfLinearEstimator e => LinearEstimator.forward e x
  | OfNonLinearEstimator e => NonLinearEstimator.forward e x
  end.

Definition reset_parameters (m : module) : M world module :=
  match m with
  | OfLinear l => OfLinear <$> Linear.reset_parameters l
  | OfLinearEstimator e => OfLinearEstimator <$> LinearEstimator.reset_parameters e
  | OfNonLinearEstimator e => OfNonLinearEstimator <$> NonLinearEstimator.reset_parameters e
  end.

Definition deepcopy (m : module) : M world module :=
  match m with
  | OfLinear l => OfLinear <$> Linear.deepcopy l
  | OfLinearEstimator e => OfLinearEstimator <$> LinearEstimator.deepcopy e
  | OfNonLinearEstimator e => OfNonLinearEstimator <$> NonLinearEstimator.deepcopy e
  end.

(** [m.parameters()], in registration order. *)
Definition module_parameters (m : module) : list param :=
  match m with
  | OfLinear l => Linear.parameters l
  | OfLinearEstimator e => LinearEstimator.parameters e
  | OfNonLinearEstimator e => NonLinearEstimator.parameters e
  end.

(** Attribute lookup [m.name] among the registered parameters and
    sub-modules of [m] itself (not of its children). *)
Inductive attribute : Type :=
| AttrParam (p : param)
| AttrModule (l : Linear.t).

Definition getattr (m : module) (name : string) : result attribute :=
  match m with
  | OfLinear l =>
      if String.eqb name "weight" then Ok (AttrParam (Linear.weight l))
      else if String.eqb name "bias" then Ok (AttrParam (Linear.bias l))
      else Raise AttributeError
  | OfLinearEstimator e =>
      if String.eqb name "linear" then Ok (AttrModule (LinearEstimator.linear e))
      else Raise AttributeError
  | OfNonLinearEstimator e =>
      if String.eqb name "fc1" then Ok (AttrModule (NonLinearEstimator.fc1 e))
      else if String.eqb name "fc2" then Ok (AttrModule (NonLinearEstimator.fc2 e))
      else Raise AttributeError
  end.

(** [m.weight], read as a parameter. *)
Definition get_weight (m : module) : result param :=
  a ← getattr m "weight";
  match a with
  | AttrParam p => Ok p
  | AttrModule _ => Raise AttributeError
  end.

(** [m.weight.field = v]: the parameter object [m.weight] is updated in place. *)
Definition update_weight (f : param -> param) (m : module) : result module :=
  p ← get_weight m;
  match m with
  | OfLinear l =>
      Ok (OfLinear {| Linear.id := Linear.id l; Linear.weight := f p;
                      Linear.bias := Linear.bias l |})
  | _ => Raise AttributeError
  end.

(** [torch.distributions.Normal(loc, scale)].  The constructor keeps its
    arguments as they are (no validation of [scale]); a sample is drawn with
    [torch.normal] from the global generator. *)
Module Normal.

Record t : Type := { loc : tensor; scale : tensor }.

Definition sample (d : t) (g : generator) : tensor * generator :=
  torch_normal (loc d) (scale d) g.

End Normal.

(** ** class BootstrappedEstimator: an ensemble of models *)
Module BootstrappedEstimator.

Record t : Type :=
  { ensemble : list module;
    bno : Z;
    beta : Q;
    prior_fns : list module;
    priors : list Normal.t }.

(** [range(B)] *)
Definition range (B : Z) : list nat := seq 0 (Z.to_nat B).

(** Truth value of a number: [if beta:] *)
Definition truthy (q : Q) : bool := negb (Qeq_bool q 0).

(** Truth value of a list: [if self.__priors:] *)
Definition nonempty {A} (l : list A) : bool :=
  match l with [] => false | _ => true end.

Definition __init__ (proto_model : module) (B : Z) (beta : Q) : M world t :=
  ensemble ← for_each (fun _ => deepcopy proto_model) (range B);
  ensemble ← for_each reset_parameters ensemble;
  if truthy beta then
    prior_fns ← for_each deepcopy ensemble;
    ps ← for_each (fun '(model, prior_fn) =>
            (* set some priors based on the ensemble initialization *)
            w ← lift (get_weight model);
            let loc := data w in
            let scale := full_like loc (fin ((1 # 10) * beta)) in
            let prior := {| Normal.loc := loc; Normal.scale := scale |} in
            (* we won't be training the prior functions *)
            prior_fn ← lift (update_weight (fun p => set_requires_grad p false) prior_fn);
            mret (prior_fn, prior))
          (zip ensemble prior_fns);
    mret {| ensemble := ensemble; bno := B; beta := beta;
            prior_fns := ps.*1; priors := ps.*2 |}
  else
    mret {| ensemble := ensemble; bno := B; beta := beta;
            prior_fns := []; priors := [] |}.

(** The state a method call runs in: the ensemble object and the global
    generator. *)
Record state : Type := State { self : t; gen : generator }.

Definition get_self : M state t := fun s => (Ok (self s), s).

Definition sample (d : Normal.t) : M state tensor := fun s =>
  let (v, g) := Normal.sample d (gen s) in (Ok v, {| self := self s; gen := g |}).

(** The object at position [i] of [self.__prior_fns] has been mutated into [m]. *)
Definition store_prior_fn (i : nat) (m : module) : M state unit :=
  modify (fun s =>
    {| self := {| ensemble := ensemble (self s); bno := bno (self s);
                  beta := beta (self s);
                  prior_fns := <[i := m]> (prior_fns (self s));
                  priors := priors (self s) |};
       gen := gen s |}).

Definition forward (x : input) (mid : option Z) : M state tensor :=
  match mid with
  | Some mid =>
      this ← get_self;
      model ← lift (getitem (ensemble this) mid);
      y ← lift (call model x);
      if nonempty (priors this) then
        prior ← lift (getitem (priors this) mid);
        w ← sample prior;
        prior_fn ← lift (getitem (prior_fns this) mid);
        prior_fn ← lift (update_weight (fun p => set_data p w) prior_fn);
        store_prior_fn (default 0%nat (norm_index (length (prior_fns this)) mid)) prior_fn;;
        p ← lift (call prior_fn x);
        lift (tensor_add y p)
      else mret y
  | None =>
      this ← get_self;
      ys ←
        (if nonempty (priors this) then
           for_each (fun '(i, (prior, prior_fn)) =>
               w ← sample prior;
               prior_fn ← lift (update_weight (fun p => set_data p w) prior_fn);
               store_prior_fn i prior_fn)
             (imap pair (zip (priors this) (prior_fns this)));;
           this ← get_self;
           lift (for_each_pure (fun '(m, p) =>
                     a ← call m x; b ← call p x; tensor_add a b)
                   (zip (ensemble this) (prior_fns this)))
         else
           lift (for_each_pure (fun model => call model x) (ensemble this)));
      ys ← lift (stack ys);
      mret (mean0 ys)
  end.

(** What [var] returns: the whole variance tensor, or one of its entries. *)
Inductive value : Type :=
| VTensor (v : tensor)
| VScalar (v : scalar).

Definition var (x : input) (action : option Z) : M state value :=
  this ← get_self;
  ys ← lift (for_each_pure (fun model => call model x) (ensemble this));
  match action with
  | None =>
      ys ← lift (stack ys);
      mret (VTensor (var0 ys))
  | Some action =>
      ys ← lift (stack ys);
      row ← lift (getitem (var0 ys) 0);
      v ← lift (getitem row action);
      mret (VScalar v)
  end.

(** One optimizer group: [{"params": model.parameters()}]. *)
Record group : Type := { params : list param }.

Definition parameters (this : t) : list group :=
  map (fun model => {| params := module_parameters model |}) (ensemble this).

Definition __iter__ (this : t) : list module := ensemble this.

Definition __len__ (this : t) : Z := Z.of_nat (length (ensemble this)).

End BootstrappedEstimator.

Import BootstrappedEstimator.

(** ** Specification-side vocabulary *)

(** Whether [m.weight] resolves to a parameter. *)
Definition has_weight (m : module) : bool :=
  match get_weight m with Ok _ => true | Raise _ => false end.

(** [m] after [m.weight.data = w]; a module without a weight is left alone. *)
Definition reweight (m : module) (w : tensor) : module :=
  match m with
  | OfLinear l =>
      OfLinear {| Linear.id := Linear.id l;
                  Linear.weight := set_data (Linear.weight l) w;
                  Linear.bias := Linear.bias l |}
  | _ => m
  end.

Definition with_prior_fns (e : t) (fs : list module) : t :=
  {| ensemble := ensemble e; bno := bno e; beta := beta e;
     prior_fns := fs; priors := priors e |}.

(** The width of the output of a module: the number of rows of the weight
    of its last layer. *)
Definition out_features (m : module) : nat :=
  match m with
  | OfLinear l => length (data (Linear.weight l))
  | OfLinearEstimator e =>
      length (data (Linear.weight (LinearEstimator.linear e)))
  | OfNonLinearEstimator e =>
      length (data (Linear.weight (NonLinearEstimator.fc2 e)))
  end.

(** All modules of a list have one output width. *)
Definition uniform_width (ms : list module) : bool :=
  match ms with
  | [] => true
  | m0 :: _ => forallb (fun m => Nat.eqb (out_features m) (out_features m0)) ms
  end.

(** Priors paired with members: [B] members; no priors when [beta] is zero;
    otherwise one prior function with a weight and one distribution per
    member. *)
Definition paired (e : t) : bool :=
  Nat.eqb (length (ensemble e)) (Z.to_nat (bno e))
  && Nat.eqb (length (prior_fns e)) (length (priors e))
  && (if truthy (beta e)
      then Nat.eqb (length (priors e)) (length (ensemble e))
           && forallb has_weight (prior_fns e)
      else Nat.eqb (length (priors e)) 0).

(** The shape an ensemble object has after construction and keeps under its
    methods and under training: priors paired with members, and members of
    one architecture as far as the width of their output goes. *)
Definition well_formed (e : t) : bool :=
  paired e && uniform_width (ensemble e).

(** Every prior function resampled in turn from its distribution, the
    generator threaded from one draw to the next. *)
Fixpoint resample (ds : list Normal.t) (fs : list module) (g : generator)
  : list module * generator :=
  match ds, fs with
  | d :: ds', f :: fs' =>
      let (w, g1) := Normal.sample d g in
      let (fs'', g2) := resample ds' fs' g1 in
      (reweight f w :: fs'', g2)
  | _, _ => (fs, g)
  end.

(** The first exception of a list of outcomes, or all their values. *)
Definition all_ok {A} (rs : list (result A)) : result (list A) :=
  for_each_pure (fun r => r) rs.

(** Mean, across a new leading axis, of the stacked outcomes. *)
Definition mean_of_stacked (outs : list (result tensor)) : result tensor :=
  ys ← all_ok outs; s ← stack ys; Ok (mean0 s).

(** The operations a caller can apply to an ensemble. *)
Inductive op : Type :=
| Forward (x : input) (mid : option Z)
| Var (x : input) (action : option Z).

Definition step (s : state) (o : op) : state :=
  match o with
  | Forward x mid => (forward x mid s).2
  | Var x action => (var x action s).2
  end.

Definition run (ops : list op) (s : state) : state := fold_left step ops s.

(** [forward(x, mid)] for each [mid] of a list in turn, the caller keeping
    each call's outcome, value or exception. *)
Fixpoint forward_each (x : input) (mids : list Z) (s : state)
  : list (result tensor) * state :=
  match mids with
  | [] => ([], s)
  | mid :: rest =>
      let (r, s1) := forward x (Some mid) s in
      let (rs, s2) := forward_each x rest s1 in
      (r :: rs, s2)
  end.

(** The variance query as a function of the members alone. *)
Definition var_of_members (ms : list module) (x : input) (action : option Z)
  : result value :=
  ys ← all_ok (map (fun m => call m x) ms);
  s ← stack ys;
  match action with
  | None => Ok (VTensor (var0 s))
  | Some a =>
      row ← getitem (var0 s) 0;
      v ← getitem row a;
      Ok (VScalar v)
  end.

(** *** Identities and copies *)

(** The identities allocated for a linear layer and for a module, in the
    order in which [deepcopy] allocates them. *)
Definition linear_identities (l : Linear.t) : list nat :=
  [Linear.id l; pid (Linear.weight l); pid (Linear.bias l)].

Definition identities (m : module) : list nat :=
  match m with
  | OfLinear l => linear_identities l
  | OfLinearEstimator e =>
      LinearEstimator.id e :: linear_identities (LinearEstimator.linear e)
  | OfNonLinearEstimator e =>
      NonLinearEstimator.id e
      :: linear_identities (NonLinearEstimator.fc1 e)
      ++ linear_identities (NonLinearEstimator.fc2 e)
  end.

(** A module with its identities forgotten: what a deep copy preserves. *)
Definition erase_param (p : param) : param :=
  {| pid := 0; data := data p; requires_grad := requires_grad p |}.

Definition erase_linear (l : Linear.t) : Linear.t :=
  {| Linear.id := 0; Linear.weight := erase_param (Linear.weight l);
     Linear.bias := erase_param (Linear.bias l) |}.

Definition erase (m : module) : module :=
  match m with
  | OfLinear l => OfLinear (erase_linear l)
  | OfLinearEstimator e =>
      OfLinearEstimator
        {| LinearEstimator.id := 0;
           LinearEstimator.linear := erase_linear (LinearEstimator.linear e) |}
  | OfNonLinearEstimator e =>
      OfNonLinearEstimator
        {| NonLinearEstimator.id := 0;
           NonLinearEstimator.fc1 := erase_linear (NonLinearEstimator.fc1 e);
           NonLinearEstimator.fc2 := erase_linear (NonLinearEstimator.fc2 e) |}
  end.

(** Modules laid out one after the other from identity [lo]. *)
Fixpoint placed (lo : nat) (ms : list module) : Prop :=
  match ms with
  | [] => True
  | m :: ms' =>
      identities m = seq lo (length (identities m))
      /\ placed (lo + length (identities m)) ms'
  end.

(** [m] after [m.weight.requires_grad = False]. *)
Definition freeze (m : module) : module :=
  match m with
  | OfLinear l =>
      OfLinear {| Linear.id := Linear.id l;
                  Linear.weight := set_requires_grad (Linear.weight l) false;
                  Linear.bias := Linear.bias l |}
  | _ => m
  end.

(** The weight tensor of a module that has one. *)
Definition weight_data (m : module) : tensor :=
  match get_weight m with Ok p => data p | Raise _ => [] end.

(** The distribution [__init__] attaches to a member. *)
Definition prior_of (beta : Q) (m : module) : Normal.t :=
  {| Normal.loc := weight_data m;
     Normal.scale := full_like (weight_data m) (fin ((1 # 10) * beta)) |}.

Definition trainable (m : module) : list param :=
  filter (fun p => requires_grad p = true) (module_parameters m).

(** What a reset keeps of a module: its identities, whether it has a weight,
    the trainability of its parameters and its output width. *)
Definition same_object (m m' : module) : Prop :=
  identities m' = identities m
  /\ has_weight m' = has_weight m
  /\ map requires_grad (module_parameters m')
     = map requires_grad (module_parameters m)
  /\ out_features m' = out_features m.

Definition total_identities (ms : list module) : nat :=
  length (concat (map identities ms)).

(** The members [__init__] builds from [proto_model]: [B] of them, laid out
    from [lo], each with the prototype's attributes and trainability. *)
Definition members_of (proto : module) (B : Z) (lo : nat) (ms : list module) : Prop :=
  length ms = Z.to_nat B
  /\ placed lo ms
  /\ Forall (fun m =>
       has_weight m = has_weight proto
       /\ map requires_grad (module_parameters m)
          = map requires_grad (module_parameters proto)
       /\ length (identities m) = length (identities proto)
       /\ out_features m = out_features proto) ms.

(** The object [__init__] returns when it builds priors. *)
Definition constructed (ms fs : list module) (B : Z) (b : Q) : t :=
  {| ensemble := ms; bno := B; beta := b;
     prior_fns := map freeze fs; priors := map (prior_of b) ms |}.

(** How the prior functions [fs] of an ensemble with distributions [ds] may
    have changed into [fs']: position by position, either not at all, or by
    receiving as weight a sample of the distribution at that position. *)
Definition evolved (ds : list Normal.t) (fs fs' : list module) : Prop :=
  length fs' = length fs
  /\ forall i f',
       fs' !! i = Some f' ->
       exists f,
         fs !! i = Some f
         /\ (f' = f
             \/ exists d g0,
                  ds !! i = Some d /\ f' = reweight f (Normal.sample d g0).1).

(** ** The estimator factory *)

(** The fields of [opt] that [get_estimator] reads; [opt.device] only
    names where the tensors live, which the model does not distinguish. *)
Record options : Type :=
  { estimator_linear : bool;
    opt_N : Z;
    er_hist_len : Z;
    estimator_ensemble : Z }.

(** What the factory returns: the prototype itself or an ensemble of it. *)
Inductive estimator : Type :=
| Single (m : module)
| Ensemble (e : t).

(** [get_estimator(opt)].  A layer cannot be created with a negative number
    of input features: the allocation of its weight raises. *)
Definition get_estimator (opt : options) : M world estimator :=
  let in_size := opt_N opt * er_hist_len opt in
  proto ←
    (if in_size <? 0 then lift (Raise RuntimeError)
     else if estimator_linear opt
          then OfLinearEstimator <$> LinearEstimator.new (Z.to_nat in_size) 2
          else OfNonLinearEstimator <$> NonLinearEstimator.new (Z.to_nat in_size) 2);
  if negb (estimator_ensemble opt =? 0)
  then Ensemble <$> __init__ proto (estimator_ensemble opt) 0
  else mret (Single proto).

(** *** Shapes *)

(** A linear layer from [i] input features to [o] outputs. *)
Definition linear_shaped (l : Linear.t) (i o : nat) : Prop :=
  map length (data (Linear.weight l)) = replicate o i
  /\ map length (data (Linear.bias l)) = [o].

(** A module mapping batches of [i] features to [o] outputs, with the hidden
    width [NonLinearEstimator] gives itself. *)
Definition shaped (m : module) (i o : nat) : Prop :=
  match m with
  | OfLinear l => linear_shaped l i o
  | OfLinearEstimator e => linear_shaped (LinearEstimator.linear e) i o
  | OfNonLinearEstimator e =>
      linear_shaped (NonLinearEstimator.fc1 e) i (Nat.max 2 (Nat.div (i + 1) 2))
      /\ linear_shaped (NonLinearEstimator.fc2 e) (Nat.max 2 (Nat.div (i + 1) 2)) o
  end.

(** A batch of [rows] byte states of [i] features each. *)
Definition byte_batch (x : input) (rows i : nat) : Prop :=
  x_dtype x = UInt8 /\ map length (x_values x) = replicate rows i.

(** The class of a module. *)
Inductive kind : Type := KLinear | KLinearEstimator | KNonLinearEstimator.

Definition kind_of (m : module) : kind :=
  match m with
  | OfLinear _ => KLinear
  | OfLinearEstimator _ => KLinearEstimator
  | OfNonLinearEstimator _ => KNonLinearEstimator
  end.

(** What [get_estimator(opt)] asks of an estimator: the class [opt] selects,
    [opt.N * opt.er.hist_len] input features and two outputs. *)
Definition built_for (opt : options) (m : module) : Prop :=
  shaped m (Z.to_nat (opt_N opt * er_hist_len opt)) 2
  /\ kind_of m = (if estimator_linear opt then KLinearEstimator
                  else KNonLinearEstimator).

(** ** Concrete ensembles

    A generator whose i-th draw is i (normal law) or i/4 (initialisation
    law), and ensembles built by [__init__] from prototypes built in it. *)
Module Demo.

Definition tape : generator :=
  {| outcome := fun d i =>
       match d with
       | StdNormal => inject_Z (Z.of_nat i)
       | UniformInit _ => Z.of_nat i # 4
       end;
     position := 0 |}.

Definition world0 : world := {| rng := tape; next_id := 0 |}.

Definition nothing : t :=
  {| ensemble := []; bno := 0; beta := 0; prior_fns := []; priors := [] |}.

Definition blank : Linear.t :=
  {| Linear.id := 0;
     Linear.weight := {| pid := 0; data := []; requires_grad := true |};
     Linear.bias := {| pid := 0; data := []; requires_grad := true |} |}.

(** A prototype built in the initial world, with the world it leaves. *)
Definition made (proto : M world module) : module * world :=
  match proto world0 with
  | (Ok m, w) => (m, w)
  | (Raise _, w) => (OfLinear blank, w)
  end.

Definition layer : module * world := made (OfLinear <$> Linear.new 2 2).
Definition linear_estimator : module * world :=
  made (OfLinearEstimator <$> LinearEstimator.new 2 2).
Definition nonlinear_estimator : module * world :=
  made (OfNonLinearEstimator <$> NonLinearEstimator.new 2 2).

Definition construct (p : module * world) (B : Z) (beta : Q) : result t * world :=
  __init__ p.1 B beta p.2.

(** The ensemble object and generator left by [__init__], if it returns. *)
Definition built (r : result t * world) : state :=
  match r with
  | (Ok e, w) => State e (rng w)
  | (Raise _, w) => State nothing (rng w)
  end.

(** Three bare linear layers with priors of scale 0.1. *)
Definition with_priors : state := built (construct layer 3 1).

(** Three linear estimators without priors. *)
Definition plain : state := built (construct linear_estimator 3 0).

(** A single linear estimator. *)
Definition single : state := built (construct linear_estimator 1 0).

(** A bare linear layer whose weight the caller has frozen
    ([proto.weight.requires_grad = False]), and two copies of it without
    priors. *)
Definition frozen_layer : module * world := (freeze layer.1, layer.2).
Definition frozen : state := built (construct frozen_layer 2 0).

Definition x_float : input := Input Float32 [[fin 1; fin 2]].
Definition x_byte : input := Input UInt8 [[fin 1; fin 2]].

(** Options asking for an ensemble of three linear estimators over states
    of [1 * 2] features. *)
Definition opt : options :=
  {| estimator_linear := true; opt_N := 1; er_hist_len := 2;
     estimator_ensemble := 3 |}.

End Demo.

(** ** cvf/src/rl_routines.py *)
Module RlRoutines.

(** The one exception the arithmetic of this file can raise. *)
Inductive raised : Type := ZeroDivisionError.

Inductive outcome (A : Type) : Type :=
| Returns (a : A)
| Raises (e : raised).
Arguments Returns {A} a.
Arguments Raises {A} e.

(** Python's [a // b] on integers: floor division, the remainder takes the
    sign of the divisor; a zero divisor raises. *)
Definition floordiv (a b : Z) : outcome Z :=
  if b =? 0 then Raises ZeroDivisionError else Returns (a / b).

(** [range(n)] as the integers it yields. *)
Definition irange (n : Z) : list Z := map Z.of_nat (seq 0 (Z.to_nat n)).

(** [train_rounds(steps, interval)]: the tuples the returned generator
    yields.  The outermost iterable of a generator expression is evaluated
    when the expression is, so the division happens at the call. *)
Definition train_rounds (steps interval : Z) : outcome (list (Z * Z)) :=
  match floordiv steps interval with
  | Raises e => Raises e
  | Returns n =>
      Returns (map (fun i => (i * interval, i * interval + interval)) (irange n))
  end.

(** An environment and a policy are objects shared between the caller and
    the episodes made over them: their states live in a heap, next to the
    log that [rlog.put] appends to. *)
Record Env (Obs Act EnvState : Type) : Type :=
  { env_reset : EnvState -> Obs * EnvState;
    env_step : Act -> EnvState -> (Obs * Q * bool) * EnvState;
    env_close : EnvState -> EnvState }.
Arguments env_reset {Obs Act EnvState} _ _.
Arguments env_step {Obs Act EnvState} _ _ _.
Arguments env_close {Obs Act EnvState} _ _.

Record Policy (Obs Act Pi PolicyState : Type) : Type :=
  { policy_act : Obs -> PolicyState -> Pi * PolicyState;
    pi_action : Pi -> Act }.
Arguments policy_act {Obs Act Pi PolicyState} _ _ _.
Arguments pi_action {Obs Act Pi PolicyState} _ _.

Record log_entry : Type := { reward : Q; done : bool; val_frames : Z }.

Record heap (EnvState PolicyState : Type) : Type :=
  { the_env : EnvState; the_policy : PolicyState; rlog : list log_entry }.
Arguments the_env {EnvState PolicyState} _.
Arguments the_policy {EnvState PolicyState} _.
Arguments rlog {EnvState PolicyState} _.

Section Routines.

Context {Obs Act Pi EnvState PolicyState : Type}.
Variable env : Env Obs Act EnvState.
Variable policy : Policy Obs Act Pi PolicyState.

(** class Episode: the fields of one iterator object. *)
Record Episode : Type :=
  { R : Q; step_cnt : Z; state : Obs; is_done : bool }.

(** An experience tuple [(_state, _pi, reward, state, done)]. *)
Definition transition : Type := (Obs * Pi * Q * Obs * bool)%type.

(** The components of an experience tuple. *)
Definition t_state (t : transition) : Obs := let '(s, _, _, _, _) := t in s.
Definition t_reward (t : transition) : Q := let '(_, _, r, _, _) := t in r.
Definition t_next (t : transition) : Obs := let '(_, _, _, s', _) := t in s'.
Definition t_done (t : transition) : bool := let '(_, _, _, _, d) := t in d.

Definition Episode_init (_state : option Obs) (h : heap EnvState PolicyState)
  : Episode * heap EnvState PolicyState :=
  match _state with
  | None =>
      let (s, e') := env_reset env (the_env h) in
      ({| R := 0; step_cnt := -1; state := s; is_done := false |},
       {| the_env := e'; the_policy := the_policy h; rlog := rlog h |})
  | Some s =>
      ({| R := 0; step_cnt := -1; state := s; is_done := false |}, h)
  end.

(** [__next__]: [None] stands for [raise StopIteration]. *)
Definition next (self : Episode) (h : heap EnvState PolicyState)
  : option transition * Episode * heap EnvState PolicyState :=
  if is_done self then (None, self, h)
  else
    let (_pi, p') := policy_act policy (state self) (the_policy h) in
    let _state := state self in
    let '(s', reward, done, e') := env_step env (pi_action policy _pi) (the_env h) in
    (Some (_state, _pi, reward, s', done),
     {| R := (R self + reward)%Q; step_cnt := step_cnt self + 1;
        state := s'; is_done := done |},
     {| the_env := e'; the_policy := p'; rlog := rlog h |}).

(** The properties [Rt] and [steps]. *)
Definition Rt (self : Episode) : Q := R self.
Definition steps (self : Episode) : Z := step_cnt self.

(** [n] calls of [__next__] in a row: the tuples returned, in order (a call
    that raises StopIteration returns none). *)
Fixpoint next_n (n : nat) (self : Episode) (h : heap EnvState PolicyState)
  : list transition * Episode * heap EnvState PolicyState :=
  match n with
  | O => ([], self, h)
  | S n' =>
      match next self h with
      | (None, self', h') =>
          let '(ts, self'', h'') := next_n n' self' h' in (ts, self'', h'')
      | (Some t, self', h') =>
          let '(ts, self'', h'') := next_n n' self' h' in (t :: ts, self'', h'')
      end
  end.

(** [rlog.put(reward=reward, done=done, val_frames=1)] *)
Definition rlog_put (r : Q) (d : bool) (frames : Z) (h : heap EnvState PolicyState)
  : heap EnvState PolicyState :=
  {| the_env := the_env h; the_policy := the_policy h;
     rlog := rlog h ++ [{| reward := r; done := d; val_frames := frames |}] |}.

(** The [for] loop of [validate] over one episode.  It returns whether it
    left by [break] (then [done_eval] is set), the step count and the heap;
    [None] when the fuel runs out first. *)
Fixpoint validate_for (n_steps : Z) (fuel : nat) (ep : Episode) (cnt : Z)
    (h : heap EnvState PolicyState) : option (bool * Z * heap EnvState PolicyState) :=
  match fuel with
  | O => None
  | S fuel' =>
      match next ep h with
      | (None, _, h') => Some (false, cnt, h')
      | (Some (_, _, reward, _, done), ep', h') =>
          let h'' := rlog_put reward done 1 h' in
          let cnt' := cnt + 1 in
          if cnt' >=? n_steps then Some (true, cnt', h'')
          else validate_for n_steps fuel' ep' cnt' h''
      end
  end.

(** The [while not done_eval] loop: every round makes a new episode. *)
Fixpoint validate_while (n_steps : Z) (fuel inner : nat) (done_eval : bool) (cnt : Z)
    (h : heap EnvState PolicyState) : option (Z * heap EnvState PolicyState) :=
  if done_eval then Some (cnt, h)
  else
    match fuel with
    | O => None
    | S fuel' =>
        let (ep, h1) := Episode_init None h in
        match validate_for n_steps inner ep cnt h1 with
        | None => None
        | Some (d, cnt', h2) => validate_while n_steps fuel' inner d cnt' h2
        end
    end.

(** [validate(policy, env, steps)] *)
Definition validate (n_steps : Z) (fuel : nat) (h : heap EnvState PolicyState)
  : option (heap EnvState PolicyState) :=
  match validate_while n_steps fuel fuel false 0 h with
  | None => None
  | Some (_, h') =>
      Some {| the_env := env_close env (the_env h'); the_policy := the_policy h';
              rlog := rlog h' |}
  end.

End Routines.

(** A small environment to run the routines on: a corridor of three cells
    walked one cell per step, every step paying reward 1, the episode over
    at the third cell.  Its state is the walker's position together with
    the number of resets and whether it was closed; the policy counts its
    calls and proposes the observation it was shown. *)
Record corridor_state : Type :=
  { position : Z; resets : Z; closed : bool }.

Definition corridor : Env Z Z corridor_state :=
  {| env_reset := fun e =>
       (0, {| position := 0; resets := resets e + 1; closed := closed e |});
     env_step := fun _ e =>
       let p := position e + 1 in
       ((p, 1%Q, p >=? 3),
        {| position := p; resets := resets e; closed := closed e |});
     env_close := fun e =>
       {| position := position e; resets := resets e; closed := true |} |}.

Definition walker : Policy Z Z Z Z :=
  {| policy_act := fun obs calls => (obs, calls + 1);
     pi_action := fun a => a |}.

Definition corridor0 : heap corridor_state Z :=
  {| the_env := {| position := 0; resets := 0; closed := false |};
     the_policy := 0; rlog := [] |}.

(** A new episode over the corridor, and the first [n] calls of its
    [__next__]. *)
Definition corridor_start : Episode * heap corridor_state Z :=
  Episode_init corridor None corridor0.

Definition corridor_walk (n : nat)
  : list (transition (Obs:=Z) (Pi:=Z)) * Episode * heap corridor_state Z :=
  next_n corridor walker n corridor_start.1 corridor_start.2.

End RlRoutines.

(** * Properties *)

(** ** Indexing *)

Lemma norm_index_nonneg len i :
  0 <= i < Z.of_nat len -> norm_index len i = Some (Z.to_nat i).
Proof.
  intros [H0 H1]. unfold norm_index.
  destruct (Z.ltb_spec i 0) as [?|_]; [lia|].
  destruct (Z.leb_spec 0 i); [|lia].
  destruct (Z.ltb_spec i (Z.of_nat len)); [reflexivity|lia].
Qed.

Lemma norm_index_negative len i :
  - Z.of_nat len <= i < 0 ->
  norm_index len i = Some (Z.to_nat (Z.of_nat len + i)).
Proof.
  intros [H0 H1]. unfold norm_index.
  destruct (Z.ltb_spec i 0) as [_|?]; [|lia].
  destruct (Z.leb_spec 0 (i + Z.of_nat len)); [|lia].
  destruct (Z.ltb_spec (i + Z.of_nat len) (Z.of_nat len)); [|lia].
  simpl. f_equal. lia.
Qed.

Lemma norm_index_outside len i :
  i < - Z.of_nat len \/ Z.of_nat len <= i -> norm_index len i = None.
Proof.
  intros H. unfold norm_index.
  destruct (Z.ltb_spec i 0).
  - destruct (Z.leb_spec 0 (i + Z.of_nat len)); [|reflexivity].
    destruct (Z.ltb_spec (i + Z.of_nat len) (Z.of_nat len)); [lia|reflexivity].
  - destruct (Z.leb_spec 0 i); [|reflexivity].
    destruct (Z.ltb_spec i (Z.of_nat len)); [lia|reflexivity].
Qed.

Lemma norm_index_lt len i j : norm_index len i = Some j -> (j < len)%nat.
Proof.
  unfold norm_index.
  destruct (Z.ltb_spec i 0);
    match goal with |- context [(0 <=? ?a) && (?a <? ?b)] =>
      destruct (Z.leb_spec 0 a); destruct (Z.ltb_spec a b) end;
    simpl; intros [= <-]; lia.
Qed.

Lemma getitem_Some {A} (l : list A) i j a :
  norm_index (length l) i = Some j -> l !! j = Some a -> getitem l i = Ok a.
Proof. intros Hi Hj. unfold getitem. by rewrite Hi, Hj. Qed.

Lemma getitem_outside {A} (l : list A) i :
  norm_index (length l) i = None -> getitem l i = Raise IndexError.
Proof. intros Hi. unfold getitem. by rewrite Hi. Qed.

(** ** Weights *)

Lemma has_weight_inv m : has_weight m = true -> exists l, m = OfLinear l.
Proof.
  destruct m as [l|e|e]; [eauto| |]; discriminate.
Qed.

Lemma update_weight_data m w :
  has_weight m = true ->
  update_weight (fun p => set_data p w) m = Ok (reweight m w).
Proof. intros [l ->]%has_weight_inv. reflexivity. Qed.

Lemma has_weight_reweight m w : has_weight (reweight m w) = has_weight m.
Proof. by destruct m. Qed.

Lemma get_weight_reweight m w p :
  get_weight m = Ok p -> get_weight (reweight m w) = Ok (set_data p w).
Proof.
  destruct m as [l|e|e]; [|discriminate..].
  unfold get_weight; simpl. by intros [= <-].
Qed.

Lemma parameters_reweight m w :
  map pid (module_parameters (reweight m w)) = map pid (module_parameters m).
Proof. by destruct m. Qed.

(** ** Well-formed ensembles *)

Lemma truthy_false q : truthy q = false <-> (q == 0)%Q.
Proof.
  unfold truthy. rewrite Bool.negb_false_iff. apply Qeq_bool_iff.
Qed.

Lemma truthy_pos q : (0 < q)%Q -> truthy q = true.
Proof.
  intros H. destruct (truthy q) eqn:E; [reflexivity|].
  apply truthy_false in E. rewrite E in H. by apply Qlt_irrefl in H.
Qed.

Lemma well_formed_cases e :
  well_formed e = true ->
  (truthy (beta e) = false /\ priors e = [] /\ prior_fns e = [])
  \/ (truthy (beta e) = true
      /\ length (priors e) = length (ensemble e)
      /\ length (prior_fns e) = length (ensemble e)
      /\ Forall (fun f => has_weight f = true) (prior_fns e)).
Proof.
  unfold well_formed, paired. rewrite !Bool.andb_true_iff.
  intros [[[_ Hl] H] _]. apply Nat.eqb_eq in Hl.
  destruct (truthy (beta e)).
  - right. apply Bool.andb_true_iff in H as [H Hw]. apply Nat.eqb_eq in H.
    repeat split; [done|congruence|].
    apply Forall_forall. intros f Hf. rewrite forallb_forall in Hw.
    apply Hw. by apply list_elem_of_In.
  - left. apply Nat.eqb_eq in H. rewrite H in Hl.
    repeat split; by apply length_zero_iff_nil.
Qed.

Lemma well_formed_no_priors e :
  well_formed e = true -> (beta e == 0)%Q -> priors e = [] /\ prior_fns e = [].
Proof.
  intros Hwf Hb. apply truthy_false in Hb.
  destruct (well_formed_cases e Hwf) as [(_ & ? & ?)|(E & _)]; [done|congruence].
Qed.

Lemma well_formed_priors e :
  well_formed e = true -> (0 < beta e)%Q ->
  length (priors e) = length (ensemble e)
  /\ length (prior_fns e) = length (ensemble e)
  /\ Forall (fun f => has_weight f = true) (prior_fns e).
Proof.
  intros Hwf Hb. apply truthy_pos in Hb.
  destruct (well_formed_cases e Hwf) as [(E & _)|(_ & ?)]; [congruence|done].
Qed.

Lemma well_formed_widths e :
  well_formed e = true ->
  exists n, Forall (fun m => out_features m = n) (ensemble e).
Proof.
  unfold well_formed. intros [_ Hu]%Bool.andb_true_iff.
  destruct (ensemble e) as [|m0 ms]; [by exists 0%nat|].
  exists (out_features m0). apply Forall_forall. intros m Hm%list_elem_of_In.
  unfold uniform_width in Hu. rewrite forallb_forall in Hu.
  by apply Nat.eqb_eq, Hu.
Qed.

Lemma nonempty_lookup {A} (l : list A) i a : l !! i = Some a -> nonempty l = true.
Proof. by destruct l. Qed.

(** ** Training mode: one member *)

(** What [forward(x, mid)] does once [mid] has resolved to position [i]. *)
Lemma forward_at e x mid g i m :
  well_formed e = true ->
  norm_index (length (ensemble e)) mid = Some i ->
  ensemble e !! i = Some m ->
  forward x (Some mid) (State e g) =
    match call m x with
    | Raise err => (Raise err, State e g)
    | Ok y =>
        match priors e !! i, prior_fns e !! i with
        | Some d, Some f =>
            let f' := reweight f (Normal.sample d g).1 in
            (p ← call f' x; tensor_add y p,
             State (with_prior_fns e (<[i := f']> (prior_fns e))) (Normal.sample d g).2)
        | _, _ => (Ok y, State e g)
        end
    end.
Proof.
  intros Hwf Hi Hm.
  unfold forward, mbind, M_bind, get_self, lift; simpl.
  rewrite (getitem_Some _ _ _ _ Hi Hm).
  destruct (call m x) as [y|err]; [|reflexivity].
  destruct (well_formed_cases e Hwf) as [(_ & -> & ->)|(_ & Hp & Hf & Hw)].
  { simpl. reflexivity. }
  pose proof (norm_index_lt _ _ _ Hi) as Hlt.
  destruct (lookup_lt_is_Some_2 (priors e) i) as [d Hd]; [lia|].
  destruct (lookup_lt_is_Some_2 (prior_fns e) i) as [f Hfi]; [lia|].
  rewrite Hd, Hfi, (nonempty_lookup _ _ _ Hd).
  rewrite <- Hp in Hi at 1. rewrite (getitem_Some _ _ _ _ Hi Hd).
  unfold sample; simpl. destruct (Normal.sample d g) as [w g'] eqn:Es; simpl.
  rewrite Hp, <- Hf in Hi. rewrite (getitem_Some _ _ _ _ Hi Hfi).
  rewrite update_weight_data
    by (rewrite Forall_forall in Hw; eapply Hw, list_elem_of_lookup_2; eauto).
  unfold store_prior_fn, modify; simpl. rewrite Hi; simpl.
  by destruct (call (reweight f w) x).
Qed.

Lemma run_bind {S A B} (m : M S A) (k : A -> M S B) s :
  (m ≫= k) s =
    match m s with
    | (Ok a, s1) => k a s1
    | (Raise err, s1) => (Raise err, s1)
    end.
Proof. reflexivity. Qed.

Lemma forward_index_error e x mid g :
  norm_index (length (ensemble e)) mid = None ->
  forward x (Some mid) (State e g) = (Raise IndexError, State e g).
Proof.
  intros Hmid. unfold forward.
  rewrite run_bind. unfold get_self at 1. cbv iota beta.
  rewrite run_bind. unfold lift at 1, self at 1.
  by rewrite (getitem_outside _ _ Hmid).
Qed.

(** ** Inference mode: the resampling loop *)

Lemma with_prior_fns_id e : with_prior_fns e (prior_fns e) = e.
Proof. by destruct e. Qed.

Lemma with_prior_fns_twice e fs fs' :
  with_prior_fns (with_prior_fns e fs) fs' = with_prior_fns e fs'.
Proof. reflexivity. Qed.

Lemma resample_length ds : forall fs g,
  length (resample ds fs g).1 = length fs.
Proof.
  induction ds as [|d ds IH]; intros [|f fs] g; simpl; try reflexivity.
  destruct (Normal.sample d g) as [w g1].
  specialize (IH fs g1). destruct (resample ds fs g1) as [fs' g2].
  simpl in *. by rewrite IH.
Qed.

Lemma for_each_cons {S A B} (body : A -> M S B) a l s :
  for_each body (a :: l) s =
    match body a s with
    | (Ok b, s1) =>
        match for_each body l s1 with
        | (Ok bs, s2) => (Ok (b :: bs), s2)
        | (Raise err, s2) => (Raise err, s2)
        end
    | (Raise err, s1) => (Raise err, s1)
    end.
Proof.
  simpl. unfold mbind, M_bind, mret, M_ret.
  destruct (body a s) as [[b|err] s1]; [|reflexivity].
  by destruct (for_each body l s1) as [[bs|err] s2].
Qed.

(** The loop [for prior, prior_fn in zip(priors, prior_fns)] started at
    position [length pre] of the list of prior functions. *)
Lemma resample_loop ds : forall fs pre e g,
  prior_fns e = pre ++ fs ->
  Forall (fun f => has_weight f = true) fs ->
  exists us,
    for_each (fun '(i, (prior, prior_fn)) =>
        w ← sample prior;
        prior_fn ← lift (update_weight (fun p => set_data p w) prior_fn);
        store_prior_fn i prior_fn)
      (imap (fun j => pair (length pre + j)%nat) (zip ds fs)) (State e g)
    = (Ok us, State (with_prior_fns e (pre ++ (resample ds fs g).1))
                    (resample ds fs g).2).
Proof.
  set (body := fun '(i, (prior, prior_fn)) => _).
  induction ds as [|d ds IH]; intros fs pre e g Hpre Hw.
  { exists []. simpl. rewrite <- Hpre. by rewrite with_prior_fns_id. }
  destruct fs as [|f fs].
  { exists []. simpl. rewrite <- Hpre. by rewrite with_prior_fns_id. }
  apply Forall_cons in Hw as [Hf Hw].
  simpl zip. rewrite imap_cons, for_each_cons.
  set (e1 := with_prior_fns e ((pre ++ [reweight f (Normal.sample d g).1]) ++ fs)).
  assert (Hbody : body ((length pre + 0)%nat, (d, f)) (State e g)
                  = (Ok tt, State e1 (Normal.sample d g).2)).
  { unfold body, mbind, M_bind, sample, lift. simpl.
    destruct (Normal.sample d g) as [w g1]. simpl.
    rewrite (update_weight_data _ _ Hf).
    unfold store_prior_fn, modify, e1, with_prior_fns. simpl.
    do 3 f_equal. rewrite Hpre, Nat.add_0_r.
    rewrite insert_app_r_alt by lia. rewrite Nat.sub_diag. simpl.
    by rewrite <- app_assoc. }
  rewrite Hbody.
  destruct (IH fs (pre ++ [reweight f (Normal.sample d g).1]) e1
              (Normal.sample d g).2) as [us Hus]; [done|done|].
  exists (tt :: us).
  erewrite imap_ext; [rewrite Hus|].
  - simpl resample. destruct (Normal.sample d g) as [w g1]. simpl.
    destruct (resample ds fs g1) as [fs' g2]. simpl.
    unfold e1. rewrite with_prior_fns_twice. by rewrite <- app_assoc.
  - intros j [d' f'] _. simpl. rewrite length_app. simpl. f_equal. lia.
Qed.

Lemma resample_all_loop e g :
  Forall (fun f => has_weight f = true) (prior_fns e) ->
  exists us,
    for_each (fun '(i, (prior, prior_fn)) =>
        w ← sample prior;
        prior_fn ← lift (update_weight (fun p => set_data p w) prior_fn);
        store_prior_fn i prior_fn)
      (imap pair (zip (priors e) (prior_fns e))) (State e g)
    = (Ok us, State (with_prior_fns e (resample (priors e) (prior_fns e) g).1)
                    (resample (priors e) (prior_fns e) g).2).
Proof.
  intros Hw.
  destruct (resample_loop (priors e) (prior_fns e) [] e g) as [us Hus]; [done..|].
  exists us. exact Hus.
Qed.

Lemma resample_lookup ds : forall fs g i f',
  length ds = length fs ->
  (resample ds fs g).1 !! i = Some f' ->
  exists d f gi,
    ds !! i = Some d /\ fs !! i = Some f
    /\ f' = reweight f (Normal.sample d gi).1.
Proof.
  induction ds as [|d ds IH]; intros [|f fs] g i f' Hlen; simpl in *;
    try discriminate.
  destruct (Normal.sample d g) as [w g1] eqn:Es.
  destruct (resample ds fs g1) as [fs' g2] eqn:Er. simpl.
  destruct i as [|i]; simpl.
  - intros [= <-]. exists d, f, g. by rewrite Es.
  - intros Hi. apply (IH fs g1 i f'); [lia|]. by rewrite Er.
Qed.

Lemma for_each_pure_map {A B} (f : A -> result B) l :
  for_each_pure f l = all_ok (map f l).
Proof.
  unfold all_ok. induction l as [|a l IH]; simpl; [reflexivity|].
  destruct (f a); simpl; [|reflexivity]. by rewrite IH.
Qed.

Lemma for_each_pure_zip {A B C} (f : A -> B -> result C) l k :
  for_each_pure (fun '(a, b) => f a b) (zip l k) = all_ok (zip_with f l k).
Proof.
  unfold all_ok. revert k.
  induction l as [|a l IH]; intros [|b k]; simpl; try reflexivity.
  destruct (f a b); simpl; [|reflexivity]. by rewrite IH.
Qed.

(** ** Reductions along the stacking axis *)

Lemma reduce0_shape f y0 ys :
  map length (reduce0 f (y0 :: ys)) = map length y0.
Proof.
  unfold reduce0. apply list_eq. intros r.
  rewrite !list_lookup_fmap, list_lookup_imap.
  destruct (y0 !! r) as [row|]; simpl; [|reflexivity].
  f_equal. apply length_imap.
Qed.

Lemma reduce0_entry f y0 ys r c row :
  y0 !! r = Some row -> (c < length row)%nat ->
  entry (reduce0 f (y0 :: ys)) r c
  = f (map (fun y => entry y r c) (y0 :: ys)).
Proof.
  intros Hr Hc. unfold entry at 1, reduce0.
  rewrite list_lookup_imap, Hr. simpl.
  rewrite list_lookup_imap.
  destruct (lookup_lt_is_Some_2 row c Hc) as [v ->]. reflexivity.
Qed.

(** ** Inference mode *)

Lemma forward_none_no_priors e x g :
  priors e = [] ->
  forward x None (State e g)
  = (mean_of_stacked (map (fun m => call m x) (ensemble e)), State e g).
Proof.
  intros Hp. unfold forward, mean_of_stacked, mbind, M_bind, get_self, lift.
  simpl. rewrite Hp. simpl. rewrite for_each_pure_map.
  destruct (all_ok _) as [ys|err]; simpl; [|reflexivity].
  by destruct (stack ys).
Qed.

Lemma forward_none_priors e x g :
  priors e <> [] ->
  Forall (fun f => has_weight f = true) (prior_fns e) ->
  forward x None (State e g)
  = (mean_of_stacked
       (zip_with (fun m p => a ← call m x; b ← call p x; tensor_add a b)
          (ensemble e) (resample (priors e) (prior_fns e) g).1),
     State (with_prior_fns e (resample (priors e) (prior_fns e) g).1)
           (resample (priors e) (prior_fns e) g).2).
Proof.
  intros Hp Hw. unfold forward.
  unfold mbind at 1, M_bind at 1, get_self at 1. simpl.
  destruct (priors e) as [|d ds] eqn:Ed; [done|]. simpl nonempty. cbv iota.
  rewrite <- Ed.
  destruct (resample_all_loop e g Hw) as [us Hus].
  rewrite !run_bind, Hus.
  rewrite !run_bind. unfold get_self at 1. cbv iota beta.
  unfold lift at 1, self at 1, mean_of_stacked.
  rewrite (for_each_pure_zip
             (fun m p => a ← call m x; b ← call p x; tensor_add a b)).
  simpl ensemble.
  destruct (all_ok _) as [ys|err]; [|reflexivity].
  rewrite run_bind. unfold lift at 1.
  change (Ok ys ≫= ?k) with (k ys). cbv beta.
  by destruct (stack ys).
Qed.

(** ** Variance across members *)

Lemma var_run e x action g :
  var x action (State e g) = (var_of_members (ensemble e) x action, State e g).
Proof.
  unfold var, var_of_members.
  rewrite run_bind. unfold get_self at 1. cbv iota beta.
  rewrite run_bind. unfold lift at 1, self at 1.
  rewrite for_each_pure_map.
  destruct (all_ok _) as [ys|err]; [|reflexivity].
  change (Ok ys ≫= ?k) with (k ys). cbv beta.
  destruct action as [a|].
  - rewrite run_bind. unfold lift at 1.
    destruct (stack ys) as [s|err]; [|reflexivity].
    change (Ok s ≫= ?k) with (k s). cbv beta.
    rewrite run_bind. unfold lift at 1.
    destruct (getitem (var0 s) 0) as [row|err]; [|reflexivity].
    change (Ok row ≫= ?k) with (k row). cbv beta.
    rewrite run_bind. unfold lift at 1.
    by destruct (getitem row a).
  - rewrite run_bind. unfold lift at 1.
    by destruct (stack ys).
Qed.

Lemma all_ok_length {A} (rs : list (result A)) ys :
  all_ok rs = Ok ys -> length ys = length rs.
Proof.
  unfold all_ok. revert ys.
  induction rs as [|[a|err] rs IH]; intros ys; simpl; [by intros [= <-]| |done].
  destruct (for_each_pure _ rs) as [bs|]; simpl; [|done].
  intros [= <-]. simpl. by rewrite (IH bs).
Qed.

Lemma var_of_members_tensor ms x y0 ys :
  all_ok (map (fun m => call m x) ms) = Ok (y0 :: ys) ->
  forallb (same_shape y0) (y0 :: ys) = true ->
  var_of_members ms x None = Ok (VTensor (var0 (y0 :: ys))).
Proof.
  intros Hok Hsh. unfold var_of_members. rewrite Hok.
  change (Ok (y0 :: ys) ≫= ?k) with (k (y0 :: ys)). cbv beta.
  unfold stack. by rewrite Hsh.
Qed.

Lemma var_of_members_scalar ms x y0 ys a row :
  all_ok (map (fun m => call m x) ms) = Ok (y0 :: ys) ->
  forallb (same_shape y0) (y0 :: ys) = true ->
  y0 !! 0%nat = Some row ->
  0 <= a < Z.of_nat (length row) ->
  var_of_members ms x (Some a)
  = Ok (VScalar (svar (map (fun y => entry y 0 (Z.to_nat a)) (y0 :: ys)))).
Proof.
  intros Hok Hsh Hrow Ha. unfold var_of_members. rewrite Hok.
  change (Ok (y0 :: ys) ≫= ?k) with (k (y0 :: ys)). cbv beta.
  unfold stack. rewrite Hsh.
  change (Ok (y0 :: ys) ≫= ?k) with (k (y0 :: ys)). cbv beta.
  pose proof (reduce0_entry svar y0 ys 0 (Z.to_nat a) row Hrow) as He.
  unfold var0. unfold entry at 1 in He.
  destruct (reduce0 svar (y0 :: ys) !! 0%nat) as [vrow|] eqn:Ev.
  2:{ apply (f_equal (fmap length)) in Ev.
      rewrite <- list_lookup_fmap, reduce0_shape, list_lookup_fmap, Hrow in Ev.
      discriminate. }
  assert (Hlen : length vrow = length row).
  { apply (f_equal (fmap length)) in Ev.
    rewrite <- list_lookup_fmap, reduce0_shape, list_lookup_fmap, Hrow in Ev.
    by injection Ev. }
  assert (H0 : norm_index (length (reduce0 svar (y0 :: ys))) 0 = Some 0%nat).
  { apply lookup_lt_Some in Ev. apply (norm_index_nonneg _ 0). lia. }
  rewrite (getitem_Some _ _ _ _ H0 Ev).
  change (Ok vrow ≫= ?k) with (k vrow). cbv beta.
  destruct (lookup_lt_is_Some_2 vrow (Z.to_nat a)) as [v Hv]; [lia|].
  rewrite (getitem_Some vrow a (Z.to_nat a) v); [|apply norm_index_nonneg; lia|done].
  simpl in He. rewrite Hv in He. simpl in He.
  change (Ok v ≫= ?k) with (k v). cbv beta. rewrite He; [done|lia].
Qed.

Lemma Qeq_bool_zero q : (q == 0)%Q -> Qeq_bool q 0 = true.
Proof. apply Qeq_bool_iff. Qed.

(** With a single member the sample variance is 0/0, or involves inf - inf:
    it is NaN whatever the prediction. *)
Lemma svar_singleton v : svar [v] = NaN.
Proof.
  destruct v as [q|s|]; [|by destruct s|reflexivity].
  unfold svar, ssd, smean, ssum, ssub, sneg, zero, of_Z, fin. simpl.
  unfold is_zero. simpl.
  rewrite Qeq_bool_zero; [reflexivity|].
  rewrite !Qred_correct.
  change (inject_Z (Z.of_nat 1)) with 1%Q. change (inject_Z 0) with 0%Q.
  field.
Qed.

Lemma var0_singleton (y : tensor) : var0 [y] = full_like y NaN.
Proof.
  unfold var0, reduce0, full_like. apply list_eq. intros r.
  rewrite list_lookup_imap, list_lookup_fmap.
  destruct (y !! r) as [row|]; simpl; [|reflexivity]. f_equal.
  apply list_eq. intros c. rewrite list_lookup_imap, list_lookup_fmap.
  destruct (row !! c); simpl; [|reflexivity]. by rewrite svar_singleton.
Qed.

(** ** Construction: identities, copies, resets *)

Lemma identities_erase m : length (identities (erase m)) = length (identities m).
Proof. by destruct m. Qed.

Lemma has_weight_erase m : has_weight (erase m) = has_weight m.
Proof. by destruct m. Qed.

Lemma weight_data_erase m : weight_data (erase m) = weight_data m.
Proof. by destruct m. Qed.

Lemma requires_grad_erase m :
  map requires_grad (module_parameters (erase m))
  = map requires_grad (module_parameters m).
Proof. by destruct m. Qed.

Lemma out_features_erase m : out_features (erase m) = out_features m.
Proof. by destruct m. Qed.

Lemma erase_eq_out_features m m' :
  erase m' = erase m -> out_features m' = out_features m.
Proof. intros H. by rewrite <- (out_features_erase m'), H, out_features_erase. Qed.

Lemma erase_eq_length m m' :
  erase m' = erase m -> length (identities m') = length (identities m).
Proof. intros H. by rewrite <- (identities_erase m'), H, identities_erase. Qed.

Lemma erase_eq_has_weight m m' : erase m' = erase m -> has_weight m' = has_weight m.
Proof. intros H. by rewrite <- (has_weight_erase m'), H, has_weight_erase. Qed.

Lemma erase_eq_weight_data m m' : erase m' = erase m -> weight_data m' = weight_data m.
Proof. intros H. by rewrite <- (weight_data_erase m'), H, weight_data_erase. Qed.

Lemma deepcopy_run m w :
  exists m',
    deepcopy m w
    = (Ok m', {| rng := rng w; next_id := length (identities m) + next_id w |})
    /\ erase m' = erase m
    /\ identities m' = seq (next_id w) (length (identities m)).
Proof.
  destruct w as [g n].
  destruct m as [l|e|e]; eexists; (split; [|split]); reflexivity.
Qed.

Lemma with_rng_run {A} (f : generator -> A * generator) w :
  with_rng f w = (Ok (f (rng w)).1, {| rng := (f (rng w)).2; next_id := next_id w |}).
Proof. unfold with_rng. by destruct (f (rng w)). Qed.

Lemma draw_like_length d t : forall g, length (draw_like d t g).1 = length t.
Proof.
  induction t as [|row t IH]; intros g; simpl; [reflexivity|].
  specialize (IH (draw d (length row) g).2).
  destruct (draw_like d t _) as [rs g2]. simpl in *. by rewrite IH.
Qed.

Lemma torch_normal_length mean std g :
  length mean = length std ->
  length (torch_normal mean std g).1 = length mean.
Proof.
  intros Hlen. unfold torch_normal.
  pose proof (draw_like_length StdNormal mean g) as Hd.
  destruct (draw_like StdNormal mean g) as [eps g']. simpl in *.
  rewrite !length_zip_with. lia.
Qed.

Lemma normal_length t mean std g : length (normal_ t mean std g).1 = length t.
Proof.
  unfold normal_, full_like. rewrite torch_normal_length; by rewrite !length_map.
Qed.

Lemma linear_reset_run l w :
  exists l' g',
    Linear.reset_parameters l w = (Ok l', {| rng := g'; next_id := next_id w |})
    /\ linear_identities l' = linear_identities l
    /\ map requires_grad (Linear.parameters l')
       = map requires_grad (Linear.parameters l)
    /\ length (data (Linear.weight l')) = length (data (Linear.weight l)).
Proof.
  unfold Linear.reset_parameters.
  rewrite run_bind, with_rng_run. cbv iota beta.
  rewrite run_bind, with_rng_run. cbv iota beta.
  eexists _, _. split; [reflexivity|]. split; [reflexivity|].
  split; [reflexivity|]. simpl. apply draw_like_length.
Qed.

Lemma reset_parameters_run m w :
  exists m' g',
    reset_parameters m w = (Ok m', {| rng := g'; next_id := next_id w |})
    /\ same_object m m'.
Proof.
  destruct m as [l|e|e]; simpl.
  - destruct (linear_reset_run l w) as (l' & g' & Hr & Hi & Hg & Ho).
    exists (OfLinear l'), g'. unfold fmap, M_fmap. rewrite Hr. by repeat split.
  - unfold LinearEstimator.reset_parameters, fmap, M_fmap.
    rewrite run_bind, with_rng_run. cbv iota beta.
    rewrite run_bind, with_rng_run. cbv iota beta.
    eexists _, _. split; [reflexivity|].
    split; [reflexivity|]. split; [reflexivity|]. split; [reflexivity|].
    simpl. apply normal_length.
  - unfold NonLinearEstimator.reset_parameters, fmap, M_fmap.
    destruct (linear_reset_run (NonLinearEstimator.fc1 e) w)
      as (l1 & g1 & Hr1 & Hi1 & Hg1 & Ho1).
    rewrite run_bind, Hr1.
    destruct (linear_reset_run (NonLinearEstimator.fc2 e)
                {| rng := g1; next_id := next_id w |})
      as (l2 & g2 & Hr2 & Hi2 & Hg2 & Ho2).
    rewrite run_bind, Hr2. simpl.
    eexists _, _. split; [reflexivity|]. unfold same_object. simpl.
    split; [|split; [reflexivity|split; [|exact Ho2]]].
    + f_equal. change (linear_identities l1 ++ linear_identities l2
        = linear_identities (NonLinearEstimator.fc1 e)
          ++ linear_identities (NonLinearEstimator.fc2 e)). by rewrite Hi1, Hi2.
    + simpl in Hg1, Hg2. injection Hg1 as E1 E2. injection Hg2 as E3 E4.
      by rewrite E1, E2, E3, E4.
Qed.

(** ** Construction: the loops of [__init__] *)

Lemma for_each_deepcopy {A} (f : A -> module) (l : list A) : forall w,
  exists ms,
    for_each (fun a => deepcopy (f a)) l w
    = (Ok ms, {| rng := rng w; next_id := total_identities ms + next_id w |})
    /\ Forall2 (fun a m => erase m = erase (f a)) l ms
    /\ placed (next_id w) ms.
Proof.
  induction l as [|a l IH]; intros w.
  { exists []. destruct w. by repeat split. }
  destruct (deepcopy_run (f a) w) as (m & Hm & He & Hi).
  destruct (IH {| rng := rng w; next_id := length (identities (f a)) + next_id w |})
    as (ms & Hms & Hall & Hpl).
  exists (m :: ms). rewrite for_each_cons, Hm, Hms. simpl.
  pose proof (erase_eq_length _ _ He) as Hlen.
  split; [|split].
  - do 2 f_equal. unfold total_identities. simpl. rewrite length_app.
    fold (total_identities ms). lia.
  - by constructor.
  - split; [by rewrite Hlen|]. rewrite Hlen, Nat.add_comm. exact Hpl.
Qed.

Lemma for_each_reset (ms : list module) : forall w,
  exists ms' g',
    for_each reset_parameters ms w = (Ok ms', {| rng := g'; next_id := next_id w |})
    /\ Forall2 same_object ms ms'.
Proof.
  induction ms as [|m ms IH]; intros w.
  { exists [], (rng w). destruct w. by split. }
  destruct (reset_parameters_run m w) as (m' & g1 & Hm & Hs).
  destruct (IH {| rng := g1; next_id := next_id w |}) as (ms' & g2 & Hms & Hall).
  exists (m' :: ms'), g2. rewrite for_each_cons, Hm, Hms. simpl.
  split; [reflexivity|]. by constructor.
Qed.

Lemma get_weight_has_weight m :
  has_weight m = true -> exists p, get_weight m = Ok p /\ data p = weight_data m.
Proof.
  intros [l ->]%has_weight_inv. by exists (Linear.weight l).
Qed.

Lemma get_weight_no_weight m :
  has_weight m = false -> get_weight m = Raise AttributeError.
Proof. by destruct m. Qed.

Lemma update_weight_freeze m :
  has_weight m = true ->
  update_weight (fun p => set_requires_grad p false) m = Ok (freeze m).
Proof. intros [l ->]%has_weight_inv. reflexivity. Qed.

(** The loop of [__init__] over [zip(ensemble, prior_fns)]. *)
Lemma priors_loop (b : Q) (ms : list module) : forall fs (w : world),
  Forall (fun m => has_weight m = true) ms ->
  Forall2 (fun m f => erase f = erase m) ms fs ->
  for_each (fun '(model, prior_fn) =>
      w ← lift (get_weight model);
      let loc := data w in
      let scale := full_like loc (fin ((1 # 10) * b)) in
      let prior := {| Normal.loc := loc; Normal.scale := scale |} in
      prior_fn ← lift (update_weight (fun p => set_requires_grad p false) prior_fn);
      mret (prior_fn, prior))
    (zip ms fs) w
  = (Ok (zip (map freeze fs) (map (prior_of b) ms)), w).
Proof.
  set (body := fun '(model, prior_fn) => _).
  induction ms as [|m ms IH]; intros fs w Hw Hall.
  { by inversion Hall. }
  inversion Hall as [|m0 f ms0 fs' He Hall' E1 E2]; subst.
  apply Forall_cons in Hw as [Hm Hw].
  simpl zip. rewrite for_each_cons.
  destruct (get_weight_has_weight m Hm) as (p & Hp & Hd).
  assert (Hbody : body (m, f) w = (Ok (freeze f, prior_of b m), w)).
  { unfold body. rewrite run_bind. unfold lift at 1. rewrite Hp.
    cbv iota beta zeta. rewrite run_bind. unfold lift at 1.
    rewrite update_weight_freeze by (by rewrite (erase_eq_has_weight _ _ He)).
    cbv iota beta. unfold prior_of. by rewrite Hd. }
  by rewrite Hbody, (IH fs' w Hw Hall').
Qed.

Lemma priors_loop_fails (b : Q) m ms f fs (w : world) :
  has_weight m = false ->
  for_each (fun '(model, prior_fn) =>
      w ← lift (get_weight model);
      let loc := data w in
      let scale := full_like loc (fin ((1 # 10) * b)) in
      let prior := {| Normal.loc := loc; Normal.scale := scale |} in
      prior_fn ← lift (update_weight (fun p => set_requires_grad p false) prior_fn);
      mret (prior_fn, prior))
    (zip (m :: ms) (f :: fs)) w
  = (Raise AttributeError, w).
Proof.
  intros Hm. simpl zip. rewrite for_each_cons, run_bind. unfold lift at 1.
  by rewrite (get_weight_no_weight m Hm).
Qed.

Lemma init_members {A} proto B (k : list module -> M world A) (w : world) :
  exists ms g1,
    (ensemble ← for_each (fun _ => deepcopy proto) (range B);
     ensemble ← for_each reset_parameters ensemble;
     k ensemble) w
    = k ms {| rng := g1; next_id := total_identities ms + next_id w |}
    /\ members_of proto B (next_id w) ms.
Proof.
  destruct (for_each_deepcopy (fun _ : nat => proto) (range B) w)
    as (cs & Hcs & Hall & Hpl).
  destruct (for_each_reset cs
              {| rng := rng w; next_id := total_identities cs + next_id w |})
    as (ms & g1 & Hms & Hsame).
  assert (Hids : map identities ms = map identities cs).
  { clear -Hsame. induction Hsame as [|c m cs ms [Hi _] _ IH]; simpl; congruence. }
  assert (Htot : total_identities ms = total_identities cs)
    by (unfold total_identities; by rewrite Hids).
  exists ms, g1. rewrite run_bind, Hcs. cbv iota beta.
  rewrite run_bind, Hms. simpl next_id. rewrite Htot.
  split; [reflexivity|]. split; [|split].
  - rewrite <- (Forall2_length _ _ _ Hsame), <- (Forall2_length _ _ _ Hall).
    unfold range. by rewrite length_seq.
  - clear -Hpl Hids. revert ms Hids Hpl. generalize (next_id w).
    induction cs as [|c cs IH]; intros lo [|m ms] Hids Hpl; try done.
    simpl in *. injection Hids as Hi Hids. destruct Hpl as [H1 H2].
    rewrite Hi. split; [done|]. by apply IH.
  - clear -Hall Hsame. revert ms Hsame. generalize dependent (range B).
    induction cs as [|c cs IH]; intros l Hall ms Hsame.
    + inversion Hsame. constructor.
    + inversion Hsame as [|? m ? ms' (Hi & Hh & Hg & Ho) Hs']; subst.
      inversion Hall as [|a ? l' ? He Hall']; subst.
      constructor; [|by eapply IH].
      rewrite Hh, Hg, Hi, Ho, (erase_eq_has_weight _ _ He), (erase_eq_length _ _ He).
      split; [done|].
      split; [by rewrite <- (requires_grad_erase c), He, requires_grad_erase|].
      split; [done|]. by rewrite <- (out_features_erase c), He, out_features_erase.
Qed.

Lemma init_without_priors proto B b w :
  truthy b = false ->
  exists ms g1,
    __init__ proto B b w
    = (Ok {| ensemble := ms; bno := B; beta := b; prior_fns := []; priors := [] |},
       {| rng := g1; next_id := total_identities ms + next_id w |})
    /\ members_of proto B (next_id w) ms.
Proof.
  intros Hb. unfold __init__.
  edestruct (init_members (A:=t) proto B) as (ms & g1 & Hrun & Hms).
  rewrite Hrun, Hb. exists ms, g1. by split.
Qed.

Lemma init_with_priors proto B b w :
  truthy b = true ->
  has_weight proto = true \/ B <= 0 ->
  exists ms fs g1,
    __init__ proto B b w
    = (Ok (constructed ms fs B b),
       {| rng := g1;
          next_id := total_identities fs + (total_identities ms + next_id w) |})
    /\ members_of proto B (next_id w) ms
    /\ Forall2 (fun m f => erase f = erase m) ms fs
    /\ placed (total_identities ms + next_id w) fs.
Proof.
  intros Hb Hp. unfold __init__.
  edestruct (init_members (A:=t) proto B) as (ms & g1 & Hrun & Hms).
  rewrite Hrun, Hb. clear Hrun.
  destruct (for_each_deepcopy (fun m : module => m) ms
              {| rng := g1; next_id := total_identities ms + next_id w |})
    as (fs & Hfs & Hall & Hpl).
  exists ms, fs, g1. rewrite run_bind.
  change (for_each deepcopy ms) with (for_each (fun m : module => deepcopy m) ms).
  rewrite Hfs. cbv iota beta. simpl rng. simpl next_id.
  assert (Hw : Forall (fun m => has_weight m = true) ms).
  { destruct Hms as (Hlen & _ & H). destruct Hp as [Hp|HB].
    - eapply Forall_impl; [exact H|]. intros m [Hm _]. simpl in Hm. congruence.
    - destruct ms; [constructor|simpl in Hlen; lia]. }
  rewrite run_bind, (priors_loop b ms fs _ Hw Hall). cbv iota beta.
  unfold mret, M_ret, constructed.
  rewrite fst_zip by (rewrite !length_map; by rewrite (Forall2_length _ _ _ Hall)).
  rewrite snd_zip by (rewrite !length_map; by rewrite (Forall2_length _ _ _ Hall)).
  split; [reflexivity|]. split; [exact Hms|]. split; [exact Hall|exact Hpl].
Qed.

Lemma init_without_weight proto B b w :
  truthy b = true ->
  has_weight proto = false ->
  1 <= B ->
  exists w', __init__ proto B b w = (Raise AttributeError, w').
Proof.
  intros Hb Hp HB. unfold __init__.
  edestruct (init_members (A:=t) proto B) as (ms & g1 & Hrun & Hms).
  rewrite Hrun, Hb. clear Hrun.
  destruct (for_each_deepcopy (fun m : module => m) ms
              {| rng := g1; next_id := total_identities ms + next_id w |})
    as (fs & Hfs & Hall & Hpl).
  rewrite run_bind.
  change (for_each deepcopy ms) with (for_each (fun m : module => deepcopy m) ms).
  rewrite Hfs. cbv iota beta.
  destruct Hms as (Hlen & _ & Hk).
  destruct ms as [|m ms]; [simpl in Hlen; lia|].
  inversion Hall as [|? f ? fs' _ _]; subst.
  apply Forall_cons in Hk as [[Hm _] _].
  eexists. rewrite run_bind, priors_loop_fails by congruence. reflexivity.
Qed.

(** ** Layout of the identities *)

Lemma placed_concat ms : forall lo,
  placed lo ms -> concat (map identities ms) = seq lo (total_identities ms).
Proof.
  unfold total_identities.
  induction ms as [|m ms IH]; intros lo Hpl; [reflexivity|].
  destruct Hpl as [Hm Hpl]. simpl. rewrite length_app, seq_app.
  rewrite <- Hm, <- (IH _ Hpl). reflexivity.
Qed.

Lemma identities_head m : exists tl, identities m = object_id m :: tl.
Proof. destruct m; simpl; eauto. Qed.

(** With modules of one size, the i-th one sits at [lo + i * size]. *)
Lemma placed_object_id size ms : forall lo i m,
  placed lo ms ->
  Forall (fun m => length (identities m) = size) ms ->
  ms !! i = Some m ->
  object_id m = (lo + i * size)%nat.
Proof.
  induction ms as [|m0 ms IH]; intros lo i m Hpl Hsz Hi; [done|].
  destruct Hpl as [Hm Hpl]. apply Forall_cons in Hsz as [Hs Hsz].
  destruct i as [|i]; simpl in Hi.
  - injection Hi as <-. destruct (identities_head m0) as [tl Htl].
    rewrite Htl in Hm. simpl in Hm. injection Hm as Hm _. lia.
  - rewrite (IH _ i m Hpl Hsz Hi), Hs. lia.
Qed.

Lemma identities_bounds lo ms m i :
  placed lo ms -> m ∈ ms -> i ∈ identities m ->
  (lo <= i < lo + total_identities ms)%nat.
Proof.
  intros Hpl Hm Hi.
  assert (Hin : i ∈ concat (map identities ms)).
  { apply list_elem_of_In, in_concat. exists (identities m).
    split; [apply in_map|]; by apply list_elem_of_In. }
  rewrite (placed_concat _ _ Hpl) in Hin.
  apply list_elem_of_In, in_seq in Hin. lia.
Qed.

Lemma object_id_in_identities m : object_id m ∈ identities m.
Proof. destruct (identities_head m) as [tl ->]. by left. Qed.

Lemma identities_freeze f : identities (freeze f) = identities f.
Proof. by destruct f. Qed.

Lemma parameters_in_identities m p :
  p ∈ module_parameters m -> pid p ∈ identities m.
Proof.
  destruct m as [l|e|e]; simpl;
    unfold LinearEstimator.parameters, NonLinearEstimator.parameters,
      Linear.parameters, linear_identities; simpl;
    rewrite !elem_of_cons, !elem_of_nil; intuition (subst; auto 10).
Qed.

Lemma parameters_sublist m :
  map pid (module_parameters m) `sublist_of` identities m.
Proof.
  destruct m as [l|e|e]; simpl;
    unfold LinearEstimator.parameters, NonLinearEstimator.parameters,
      Linear.parameters, linear_identities; simpl.
  - by apply sublist_cons.
  - by do 2 apply sublist_cons.
  - apply sublist_cons, sublist_cons, sublist_skip, sublist_skip,
      sublist_cons. reflexivity.
Qed.

Lemma concat_sublist {A} (ls ks : list (list A)) :
  Forall2 sublist ls ks -> concat ls `sublist_of` concat ks.
Proof.
  induction 1 as [|l k ls ks H _ IH]; simpl; [constructor|].
  by apply sublist_app.
Qed.

Lemma parameters_NoDup lo ms :
  placed lo ms ->
  NoDup (concat (map (fun m => map pid (module_parameters m)) ms)).
Proof.
  intros Hpl.
  assert (Hsub : concat (map (fun m => map pid (module_parameters m)) ms)
                 `sublist_of` concat (map identities ms)).
  { apply concat_sublist. clear Hpl.
    induction ms as [|m ms IH]; simpl; constructor; [apply parameters_sublist|done]. }
  eapply sublist_NoDup; [|exact Hsub].
  rewrite (placed_concat _ _ Hpl). apply NoDup_seq.
Qed.

(** What a successful [__init__] has built. *)
Lemma init_ok proto B b w e w' :
  __init__ proto B b w = (Ok e, w') ->
  bno e = B /\ beta e = b
  /\ members_of proto B (next_id w) (ensemble e)
  /\ ((truthy b = false /\ prior_fns e = [] /\ priors e = [])
      \/ (truthy b = true
          /\ Forall (fun m => has_weight m = true) (ensemble e)
          /\ exists fs,
               prior_fns e = map freeze fs
               /\ priors e = map (prior_of b) (ensemble e)
               /\ Forall2 (fun m f => erase f = erase m) (ensemble e) fs
               /\ placed (total_identities (ensemble e) + next_id w) fs)).
Proof.
  intros Hinit. destruct (truthy b) eqn:Hb.
  - destruct (has_weight proto) eqn:Hp; [|destruct (Z_le_gt_dec B 0) as [HB|HB]].
    + destruct (init_with_priors proto B b w Hb (or_introl Hp))
        as (ms & fs & g1 & Hrun & Hms & Hall & Hpl).
      rewrite Hrun in Hinit. injection Hinit as <- <-. simpl.
      split; [done|]. split; [done|]. split; [done|]. right.
      split; [done|]. split; [|by exists fs].
      destruct Hms as (_ & _ & H). eapply Forall_impl; [exact H|].
      intros m [Hm _]. simpl in Hm. congruence.
    + destruct (init_with_priors proto B b w Hb (or_intror HB))
        as (ms & fs & g1 & Hrun & Hms & Hall & Hpl).
      rewrite Hrun in Hinit. injection Hinit as <- <-. simpl.
      split; [done|]. split; [done|]. split; [done|]. right.
      split; [done|]. split; [|by exists fs].
      destruct Hms as (Hlen & _). destruct ms; [constructor|simpl in Hlen; lia].
    + destruct (init_without_weight proto B b w Hb Hp) as [w1 Hrun]; [lia|].
      rewrite Hrun in Hinit. discriminate.
  - destruct (init_without_priors proto B b w Hb) as (ms & g1 & Hrun & Hms).
    rewrite Hrun in Hinit. injection Hinit as <- <-. simpl.
    split; [done|]. split; [done|]. split; [done|]. by left.
Qed.

Lemma init_well_formed proto B b w e w' :
  __init__ proto B b w = (Ok e, w') -> well_formed e = true.
Proof.
  intros Hinit.
  destruct (init_ok _ _ _ _ _ _ Hinit) as (HB & Hb & Hms & Hcases).
  unfold well_formed. apply Bool.andb_true_iff. split.
  2:{ destruct Hms as (_ & _ & Hk). destruct (ensemble e) as [|m0 ms]; [done|].
      unfold uniform_width. apply forallb_forall. intros m Hm%list_elem_of_In.
      rewrite Forall_forall in Hk. apply Nat.eqb_eq.
      destruct (Hk m Hm) as (_ & _ & _ & ->).
      destruct (Hk m0) as (_ & _ & _ & ->); [by left|done]. }
  destruct Hms as (Hlen & _).
  unfold paired. rewrite HB, Hb, Hlen, Nat.eqb_refl. simpl.
  destruct Hcases as [(Ht & -> & ->)|(Ht & Hw & fs & -> & -> & Hall & _)];
    rewrite Ht; [reflexivity|].
  rewrite !length_map, (Forall2_length _ _ _ Hall), !Nat.eqb_refl. simpl.
  rewrite <- (Forall2_length _ _ _ Hall), Hlen, Nat.eqb_refl. simpl.
  apply forallb_forall. intros f' Hf'. apply in_map_iff in Hf' as (f & <- & Hf).
  apply list_elem_of_In, list_elem_of_lookup in Hf as [i Hi].
  destruct (Forall2_lookup_r _ _ _ _ _ Hall Hi) as (m & Hm & He).
  assert (has_weight f = true) as [l ->]%has_weight_inv.
  { rewrite (erase_eq_has_weight _ _ He).
    rewrite Forall_forall in Hw. eapply Hw, list_elem_of_lookup_2; eauto. }
  reflexivity.
Qed.

Lemma getattr_weight_has_weight m :
  has_weight m = true <-> exists p, getattr m "weight" = Ok (AttrParam p).
Proof.
  split.
  - intros [l ->]%has_weight_inv. by eexists.
  - intros [p Hp]. unfold has_weight, get_weight. by rewrite Hp.
Qed.

Lemma getattr_weight_missing m :
  getattr m "weight" = Raise AttributeError -> has_weight m = false.
Proof. intros H. unfold has_weight, get_weight. by rewrite H. Qed.

Lemma object_ids_sublist ms :
  map object_id ms `sublist_of` concat (map identities ms).
Proof.
  induction ms as [|m ms IH]; simpl; [constructor|].
  destruct (identities_head m) as [tl ->]. simpl.
  apply sublist_skip. by apply sublist_inserts_l.
Qed.

(** Nothing a member owns is owned by a prior function. *)
Lemma members_apart_from_priors lo ms fs m f i j :
  placed lo ms -> placed (total_identities ms + lo) fs ->
  m ∈ ms -> f ∈ map freeze fs ->
  i ∈ identities m -> j ∈ identities f -> i <> j.
Proof.
  intros Hms Hfs Hm Hf Hi Hj.
  apply list_elem_of_fmap in Hf as (f0 & -> & Hf0).
  rewrite identities_freeze in Hj.
  pose proof (identities_bounds _ _ _ _ Hms Hm Hi).
  pose proof (identities_bounds _ _ _ _ Hfs Hf0 Hj). lia.
Qed.

(** ** What the methods preserve *)

Lemma reweight_reweight f w1 w2 : reweight (reweight f w1) w2 = reweight f w2.
Proof. by destruct f. Qed.

Lemma evolved_refl ds fs : evolved ds fs fs.
Proof. split; [done|]. intros i f Hf. exists f. by split; [|left]. Qed.

Lemma evolved_trans ds fs1 fs2 fs3 :
  evolved ds fs1 fs2 -> evolved ds fs2 fs3 -> evolved ds fs1 fs3.
Proof.
  intros [Hl1 H1] [Hl2 H2]. split; [congruence|]. intros i f3 Hf3.
  destruct (H2 i f3 Hf3) as (f2 & Hf2 & Hc2).
  destruct (H1 i f2 Hf2) as (f1 & Hf1 & Hc1).
  exists f1. split; [done|].
  destruct Hc2 as [->|(d & g0 & Hd & ->)]; [done|].
  right. exists d, g0. split; [done|].
  destruct Hc1 as [->|(d' & g' & _ & ->)]; [done|]. apply reweight_reweight.
Qed.

Lemma well_formed_with_prior_fns e fs :
  well_formed e = true ->
  length fs = length (prior_fns e) ->
  Forall (fun f => has_weight f = true) fs ->
  well_formed (with_prior_fns e fs) = true.
Proof.
  unfold well_formed, paired. simpl. intros Hwf Hlen Hw. rewrite Hlen.
  rewrite !Bool.andb_true_iff in *. destruct Hwf as [[[H1 H2] H3] H4].
  split; [|done].
  split; [done|]. destruct (truthy (beta e)); [|done].
  rewrite Bool.andb_true_iff in *. split; [tauto|].
  apply forallb_forall. intros f Hf. rewrite Forall_forall in Hw.
  by apply Hw, list_elem_of_In.
Qed.

Lemma forward_preserves e x mid g :
  well_formed e = true ->
  let s' := (forward x mid (State e g)).2 in
  well_formed (self s') = true
  /\ ensemble (self s') = ensemble e /\ priors (self s') = priors e
  /\ bno (self s') = bno e /\ beta (self s') = beta e
  /\ evolved (priors e) (prior_fns e) (prior_fns (self s')).
Proof.
  intros Hwf.
  assert (Hsame : let s' := State e g in
    well_formed (self s') = true
    /\ ensemble (self s') = ensemble e /\ priors (self s') = priors e
    /\ bno (self s') = bno e /\ beta (self s') = beta e
    /\ evolved (priors e) (prior_fns e) (prior_fns (self s'))).
  { simpl. repeat split; try done. intros i f Hf. exists f. by split; [|left]. }
  destruct mid as [mid|].
  - destruct (norm_index (length (ensemble e)) mid) as [i|] eqn:Hi.
    2:{ by rewrite (forward_index_error _ _ _ _ Hi). }
    destruct (lookup_lt_is_Some_2 (ensemble e) i) as [m Hm];
      [by eapply norm_index_lt|].
    rewrite (forward_at e x mid g i m Hwf Hi Hm).
    destruct (call m x) as [y|err]; [|done].
    destruct (priors e !! i) as [d|] eqn:Hd; [|done].
    destruct (prior_fns e !! i) as [f|] eqn:Hf; [|done].
    cbv zeta. simpl snd. simpl self.
    destruct (well_formed_cases e Hwf) as [(_ & Hp & _)|(_ & _ & _ & Hw)];
      [by rewrite Hp in Hd|].
    split; [|do 4 (split; [done|]); split].
    + apply well_formed_with_prior_fns; [done|by rewrite length_insert|].
      apply Forall_insert; [done|]. rewrite has_weight_reweight.
      rewrite Forall_forall in Hw. eapply Hw, list_elem_of_lookup_2; eauto.
    + simpl. by rewrite length_insert.
    + simpl. intros j f' Hj. destruct (decide (i = j)) as [<-|Hne].
      * rewrite list_lookup_insert_eq in Hj by (by eapply lookup_lt_Some).
        injection Hj as <-. exists f. split; [done|]. right. by exists d, g.
      * rewrite list_lookup_insert_ne in Hj by done.
        exists f'. by split; [|left].
  - destruct (well_formed_cases e Hwf) as [(_ & Hp & _)|(_ & Hp & Hf & Hw)].
    { by rewrite (forward_none_no_priors _ _ _ Hp). }
    destruct (priors e) as [|d ds] eqn:Ed.
    { by rewrite (forward_none_no_priors _ _ _ Ed). }
    rewrite <- Ed in *.
    rewrite forward_none_priors; [|by rewrite Ed|done].
    simpl snd. simpl self.
    split; [|do 4 (split; [done|]); split].
    + apply well_formed_with_prior_fns; [done|by rewrite resample_length|].
      apply Forall_forall. intros f' [i Hi]%list_elem_of_lookup.
      destruct (resample_lookup _ _ _ _ _ (eq_trans Hp (eq_sym Hf)) Hi)
        as (d' & f & gi & Hd & Hfi & ->).
      rewrite has_weight_reweight.
      rewrite Forall_forall in Hw. eapply Hw, list_elem_of_lookup_2; eauto.
    + simpl. by rewrite resample_length.
    + simpl. intros i f' Hi.
      destruct (resample_lookup _ _ _ _ _ (eq_trans Hp (eq_sym Hf)) Hi)
        as (d' & f & gi & Hd & Hfi & ->).
      exists f. split; [done|]. right. by exists d', gi.
Qed.

Lemma step_preserves s o :
  well_formed (self s) = true ->
  well_formed (self (step s o)) = true
  /\ ensemble (self (step s o)) = ensemble (self s)
  /\ priors (self (step s o)) = priors (self s)
  /\ bno (self (step s o)) = bno (self s)
  /\ beta (self (step s o)) = beta (self s)
  /\ evolved (priors (self s)) (prior_fns (self s)) (prior_fns (self (step s o))).
Proof.
  destruct s as [e g]. intros Hwf. destruct o as [x mid|x action]; simpl step.
  - apply (forward_preserves e x mid g Hwf).
  - rewrite var_run. simpl. do 5 (split; [done|]). apply evolved_refl.
Qed.

Lemma run_preserves ops : forall s,
  well_formed (self s) = true ->
  well_formed (self (run ops s)) = true
  /\ ensemble (self (run ops s)) = ensemble (self s)
  /\ priors (self (run ops s)) = priors (self s)
  /\ bno (self (run ops s)) = bno (self s)
  /\ beta (self (run ops s)) = beta (self s)
  /\ evolved (priors (self s)) (prior_fns (self s)) (prior_fns (self (run ops s))).
Proof.
  induction ops as [|o ops IH]; intros s Hwf.
  { simpl. do 5 (split; [done|]). apply evolved_refl. }
  destruct (step_preserves s o Hwf) as (Hwf1 & He1 & Hp1 & Hb1 & Hbeta1 & Hev1).
  destruct (IH (step s o) Hwf1) as (Hwf2 & He2 & Hp2 & Hb2 & Hbeta2 & Hev2).
  change (run (o :: ops) s) with (run ops (step s o)).
  split; [done|]. split; [congruence|]. split; [congruence|].
  split; [congruence|]. split; [congruence|].
  rewrite Hp1 in Hev2. by eapply evolved_trans.
Qed.

(** Every ensemble built by [__init__] is well formed, and stays so under
    any sequence of [forward] and [var] calls. *)
Lemma constructed_well_formed proto B b w w' e ops g :
  __init__ proto B b w = (Ok e, w') ->
  well_formed (self (run ops (State e g))) = true.
Proof.
  intros Hinit.
  by destruct (run_preserves ops (State e g) (init_well_formed _ _ _ _ _ _ Hinit)).
Qed.

Lemma reweight_same f p : get_weight f = Ok p -> reweight f (data p) = f.
Proof.
  destruct f as [l|e|e]; [|discriminate..].
  unfold get_weight. simpl. intros [= <-].
  destruct l as [i [pw dw rw] bb]. reflexivity.
Qed.

Lemma get_weight_freeze f :
  has_weight f = true ->
  exists p,
    get_weight (freeze f) = Ok p
    /\ requires_grad p = false /\ data p = weight_data f
    /\ pid p ∈ identities f.
Proof.
  intros [l ->]%has_weight_inv. eexists. split; [reflexivity|].
  split; [reflexivity|]. split; [reflexivity|].
  simpl. unfold linear_identities. right. left.
Qed.

(** The parameters of the members are never those of a prior function, at
    construction or after any method calls. *)
Lemma member_parameters_apart lo ms fs ds fs' m f' p q :
  placed lo ms -> placed (total_identities ms + lo) fs ->
  evolved ds (map freeze fs) fs' ->
  m ∈ ms -> p ∈ module_parameters m ->
  f' ∈ fs' -> q ∈ module_parameters f' ->
  pid p <> pid q.
Proof.
  intros Hms Hfs [_ Hev] Hm Hp [i Hi]%list_elem_of_lookup Hq.
  destruct (Hev i f' Hi) as (f0 & Hf0 & Hc).
  assert (Hq0 : pid q ∈ identities f0).
  { destruct Hc as [->|(d & g0 & _ & ->)].
    - by apply parameters_in_identities.
    - apply (list_elem_of_fmap_2 pid) in Hq. rewrite parameters_reweight in Hq.
      apply list_elem_of_fmap in Hq as (q0 & -> & Hq0).
      by apply parameters_in_identities. }
  apply (members_apart_from_priors lo ms fs m f0); try done.
  - by eapply list_elem_of_lookup_2.
  - by apply parameters_in_identities.
Qed.

Lemma trainable_all m :
  Forall (fun b => b = true) (map requires_grad (module_parameters m)) ->
  trainable m = module_parameters m.
Proof.
  unfold trainable. induction (module_parameters m) as [|p ps IH]; [done|].
  simpl. intros [Hp Hps]%Forall_cons.
  rewrite filter_cons_True by done. by rewrite IH.
Qed.

(** ** Shapes of the outputs *)

Lemma F_linear_shape x w b y :
  F_linear x w b = Ok y -> map length y = replicate (length x) (length w).
Proof.
  unfold F_linear.
  destruct (forallb _ x && forallb _ w) eqn:E1; simpl; [|discriminate].
  destruct (Nat.eqb_spec (length w) (length b)) as [Hlen|]; [|discriminate].
  intros [= <-]. rewrite map_map. clear E1.
  induction x as [|row x IH]; simpl; [reflexivity|].
  rewrite IH, length_zip_with. f_equal. lia.
Qed.

Lemma view_rows_Ok x v : view_rows x = Ok v -> v = x_values x.
Proof.
  unfold view_rows. destruct (shape0 x); [|discriminate].
  change (Ok ?a ≫= ?k) with (k a). cbv beta.
  destruct (concat (x_values x)); [discriminate|]. by intros [= <-].
Qed.

Lemma view_rows_batch x rows i :
  (1 <= rows)%nat -> (1 <= i)%nat ->
  map length (x_values x) = replicate rows i ->
  view_rows x = Ok (x_values x).
Proof.
  intros Hrows Hi Hx. unfold view_rows.
  destruct x as [dt v|dt v]; simpl in *; [|destruct rows; [lia|done]].
  destruct rows as [|rows]; [lia|]. destruct v as [|[|a r] v]; try done.
  simpl in Hx. injection Hx as Hr _. lia.
Qed.

Lemma view_rows_no_features x rows :
  (1 <= rows)%nat ->
  map length (x_values x) = replicate rows 0%nat ->
  view_rows x = Raise RuntimeError.
Proof.
  intros Hrows Hx. unfold view_rows.
  destruct x as [dt v|dt v]; simpl in *; [|destruct rows; [lia|done]].
  assert (Hc : concat v = []).
  { clear Hrows. revert rows Hx. induction v as [|r v IH]; intros [|rows] Hx;
      try done. simpl in Hx. injection Hx as Hr Hx.
    apply length_zero_iff_nil in Hr as ->. simpl. by apply (IH rows). }
  by rewrite Hc.
Qed.

Lemma call_shape m x y :
  call m x = Ok y ->
  map length y = replicate (length (x_values x)) (out_features m).
Proof.
  destruct m as [l|e|e]; simpl;
    unfold LinearEstimator.forward, NonLinearEstimator.forward, Linear.forward.
  - destruct x as [[|] rows|dt v]; try discriminate. apply F_linear_shape.
  - destruct (x_dtype x); [|discriminate].
    destruct (view_rows x) as [v|] eqn:Ev; [|discriminate].
    apply view_rows_Ok in Ev as ->. apply F_linear_shape.
  - destruct (x_dtype x); [|discriminate].
    destruct (view_rows x) as [v|] eqn:Ev; [|discriminate].
    apply view_rows_Ok in Ev as ->.
    change (Ok (x_values x) ≫= ?k) with (k (x_values x)). cbv beta.
    destruct (F_linear (x_values x) _ _) as [h|] eqn:Eh; [|discriminate].
    change (Ok h ≫= ?k) with (k h). cbv beta.
    intros Hy%F_linear_shape. rewrite Hy. f_equal.
    unfold F_relu. rewrite length_map.
    apply F_linear_shape in Eh. apply (f_equal length) in Eh.
    by rewrite length_map, length_replicate in Eh.
Qed.

Lemma tensor_add_shape a b y :
  tensor_add a b = Ok y -> map length y = map length a.
Proof.
  unfold tensor_add. destruct (same_shape a b) eqn:Hs; [|discriminate].
  intros [= <-]. apply bool_decide_eq_true in Hs.
  revert b Hs. induction a as [|ra a IH]; intros [|rb b] Hs; try done.
  simpl in *. injection Hs as Hr Hs. rewrite length_zip_with, (IH b Hs).
  f_equal. lia.
Qed.

Lemma out_features_freeze f : out_features (freeze f) = out_features f.
Proof. by destruct f. Qed.

Lemma out_features_reweight f w :
  has_weight f = true -> out_features (reweight f w) = length w.
Proof. by intros [l ->]%has_weight_inv. Qed.

Lemma out_features_weight_data m :
  has_weight m = true -> length (weight_data m) = out_features m.
Proof. by intros [l ->]%has_weight_inv. Qed.

Lemma sample_prior_length b m g0 :
  length (Normal.sample (prior_of b m) g0).1 = length (weight_data m).
Proof.
  unfold Normal.sample, prior_of. simpl.
  apply torch_normal_length. unfold full_like. by rewrite length_map.
Qed.

(** In an ensemble built by [__init__], whatever calls followed, every
    member and every prior function has the output width of the prototype. *)
Lemma constructed_widths proto B b w w' e ops g :
  __init__ proto B b w = (Ok e, w') ->
  let e' := self (run ops (State e g)) in
  Forall (fun m => out_features m = out_features proto) (ensemble e')
  /\ Forall (fun f => out_features f = out_features proto) (prior_fns e').
Proof.
  intros Hinit e'.
  destruct (init_ok _ _ _ _ _ _ Hinit) as (_ & _ & (Hlen & Hpl & Hk) & Hcases).
  destruct (run_preserves ops (State e g) (init_well_formed _ _ _ _ _ _ Hinit))
    as (_ & He & _ & _ & _ & Hev).
  fold e' in He, Hev. simpl in He, Hev.
  assert (Hm : Forall (fun m => out_features m = out_features proto) (ensemble e)).
  { eapply Forall_impl; [exact Hk|]. by intros m (_ & _ & _ & H). }
  split; [by rewrite He|].
  apply Forall_forall. intros f' [i Hi]%list_elem_of_lookup.
  destruct Hev as [_ Hev]. destruct (Hev i f' Hi) as (f0 & Hf0 & Hc).
  destruct Hcases as [(_ & Hnil & _)|(_ & Hw & fs & Hfs & Hds & Hall & _)].
  { by rewrite Hnil in Hf0. }
  rewrite Hfs, list_lookup_fmap in Hf0.
  destruct (fs !! i) as [f|] eqn:Hf; [|done]. injection Hf0 as <-.
  destruct (Forall2_lookup_r _ _ _ _ _ Hall Hf) as (m & Hmi & Hfm).
  assert (Hmw : has_weight m = true).
  { rewrite Forall_forall in Hw. eapply Hw, list_elem_of_lookup_2; eauto. }
  assert (Hmo : out_features m = out_features proto).
  { rewrite Forall_forall in Hm. eapply Hm, list_elem_of_lookup_2; eauto. }
  destruct Hc as [->|(d & g0 & Hd & ->)].
  - by rewrite out_features_freeze, (erase_eq_out_features _ _ Hfm).
  - rewrite Hds, list_lookup_fmap, Hmi in Hd. injection Hd as <-.
    rewrite out_features_reweight.
    + by rewrite sample_prior_length, out_features_weight_data.
    + assert (has_weight f = true) as [l ->]%has_weight_inv
        by (by rewrite (erase_eq_has_weight _ _ Hfm)).
      reflexivity.
Qed.

Lemma all_ok_lookup {A} (rs : list (result A)) ys i y :
  all_ok rs = Ok ys -> ys !! i = Some y -> rs !! i = Some (Ok y).
Proof.
  unfold all_ok. revert ys i.
  induction rs as [|[a|err] rs IH]; intros ys i; simpl; [by intros [= <-]| |done].
  destruct (for_each_pure _ rs) as [bs|] eqn:E; simpl; [|done].
  intros [= <-]. destruct i as [|i]; simpl; [by intros [= ->]|].
  by apply IH.
Qed.

(** Outcomes that all have the shape [batch, width] can be stacked. *)
Lemma stack_uniform rows width (ys : list tensor) y0 :
  Forall (fun y => map length y = replicate rows width) (y0 :: ys) ->
  forallb (same_shape y0) (y0 :: ys) = true.
Proof.
  intros Hall. apply forallb_forall. intros y Hy%list_elem_of_In.
  rewrite Forall_forall in Hall.
  unfold same_shape. apply bool_decide_eq_true.
  rewrite (Hall y Hy). apply Hall. by left.
Qed.

(** In a well-formed ensemble the outputs of the members on one input have
    one shape, with or without the output of a prior function added. *)
Lemma member_outputs_uniform e x ys :
  well_formed e = true ->
  all_ok (map (fun m => call m x) (ensemble e)) = Ok ys ->
  exists n, Forall (fun y => map length y = replicate (length (x_values x)) n) ys.
Proof.
  intros [n Hn]%well_formed_widths Hok. exists n.
  apply Forall_forall. intros y [i Hi]%list_elem_of_lookup.
  pose proof (all_ok_lookup _ _ _ _ Hok Hi) as Hr.
  rewrite list_lookup_fmap in Hr.
  destruct (ensemble e !! i) as [m|] eqn:Hm; [|done]. injection Hr as Hr.
  rewrite (call_shape _ _ _ Hr). f_equal.
  rewrite Forall_forall in Hn. eapply Hn, list_elem_of_lookup_2; eauto.
Qed.

Lemma prior_outputs_uniform e x fs ys :
  well_formed e = true ->
  all_ok (zip_with (fun m p => a ← call m x; b ← call p x; tensor_add a b)
            (ensemble e) fs) = Ok ys ->
  exists n, Forall (fun y => map length y = replicate (length (x_values x)) n) ys.
Proof.
  intros [n Hn]%well_formed_widths Hok. exists n.
  apply Forall_forall. intros y [i Hi]%list_elem_of_lookup.
  pose proof (all_ok_lookup _ _ _ _ Hok Hi) as Hr.
  apply lookup_zip_with_Some in Hr as (m & p & Hy & Hm & Hp).
  destruct (call m x) as [a|] eqn:Ha; [|discriminate].
  change (Ok a ≫= ?k) with (k a) in Hy. cbv beta in Hy.
  destruct (call p x) as [b|] eqn:Hb; [|discriminate].
  change (Ok b ≫= ?k) with (k b) in Hy. cbv beta in Hy.
  symmetry in Hy. rewrite (tensor_add_shape _ _ _ Hy), (call_shape _ _ _ Ha).
  f_equal. rewrite Forall_forall in Hn. eapply Hn, list_elem_of_lookup_2; eauto.
Qed.

Lemma mean_of_stacked_uniform rows width outs ys :
  all_ok outs = Ok ys -> ys <> [] ->
  Forall (fun y => map length y = replicate rows width) ys ->
  mean_of_stacked outs = Ok (mean0 ys).
Proof.
  intros Hok Hne Hall. unfold mean_of_stacked. rewrite Hok.
  change (Ok ys ≫= ?k) with (k ys). cbv beta.
  destruct ys as [|y0 ys]; [done|].
  unfold stack. by rewrite (stack_uniform rows width ys y0 Hall).
Qed.

(** ** Samples and sums, entry by entry *)

Lemma draw_lookup d n g c :
  (c < n)%nat ->
  (draw d n g).1 !! c = Some (fin (outcome g d (position g + c))).
Proof.
  intros Hc. unfold draw. simpl.
  rewrite list_lookup_fmap, lookup_seq_lt by done. reflexivity.
Qed.

Lemma draw_like_generator d t : forall g,
  position (draw_like d t g).2 = (position g + length (concat t))%nat
  /\ outcome (draw_like d t g).2 = outcome g.
Proof.
  induction t as [|row t IH]; intros g; simpl.
  - split; [lia|reflexivity].
  - destruct (IH {| outcome := outcome g; position := position g + length row |})
      as [Hp Ho].
    destruct (draw_like d t _) as [rs g2]. simpl in *.
    rewrite Hp, Ho, length_app. split; [lia|reflexivity].
Qed.

Lemma draw_like_lookup d t : forall g r row,
  t !! r = Some row ->
  exists drawn,
    (draw_like d t g).1 !! r = Some drawn
    /\ length drawn = length row
    /\ forall c, (c < length row)%nat ->
         drawn !! c = Some (fin (outcome g d (position g + offset t r c))).
Proof.
  induction t as [|row0 t IH]; intros g r row Hr; [done|].
  cbn [draw_like].
  destruct (draw d (length row0) g) as [r0 g1] eqn:Hd.
  destruct (draw_like d t g1) as [rs g2] eqn:Hrest.
  destruct r as [|r]; simpl in Hr.
  - injection Hr as <-. exists r0. simpl. split; [done|].
    assert (r0 = (draw d (length row0) g).1) as -> by (by rewrite Hd).
    split; [unfold draw; simpl; by rewrite length_map, length_seq|].
    intros c Hc. rewrite draw_lookup by done. reflexivity.
  - destruct (IH g1 r row Hr) as (drawn & Hl & Hlen & Hent).
    rewrite Hrest in Hl. exists drawn. simpl. split; [done|]. split; [done|].
    intros c Hc. rewrite (Hent c Hc).
    assert (g1 = (draw d (length row0) g).2) as -> by (by rewrite Hd).
    unfold draw, offset. simpl. rewrite length_app. do 3 f_equal. lia.
Qed.

Lemma torch_normal_generator mean std g :
  position (torch_normal mean std g).2 = (position g + length (concat mean))%nat
  /\ outcome (torch_normal mean std g).2 = outcome g.
Proof.
  unfold torch_normal.
  pose proof (draw_like_generator StdNormal mean g) as H.
  by destruct (draw_like StdNormal mean g).
Qed.

Lemma torch_normal_entry mean std g r c l s :
  mean !! r = Some l -> std !! r = Some s ->
  (c < length l)%nat -> (c < length s)%nat ->
  entry (torch_normal mean std g).1 r c
  = sadd (entry mean r c)
      (smul (entry std r c)
         (fin (outcome g StdNormal (position g + offset mean r c)))).
Proof.
  intros Hl Hs Hcl Hcs. unfold torch_normal.
  destruct (draw_like_lookup StdNormal mean g r l Hl) as (drawn & Hd & Hlen & Hent).
  destruct (draw_like StdNormal mean g) as [eps g']. simpl in *.
  destruct (lookup_lt_is_Some_2 l c Hcl) as [lv Hlv].
  destruct (lookup_lt_is_Some_2 s c Hcs) as [sv Hsv].
  unfold entry. rewrite Hl, Hs. simpl. rewrite Hlv, Hsv. simpl.
  rewrite lookup_zip_with, lookup_zip_with, Hl, Hs, Hd. simpl.
  rewrite lookup_zip_with, lookup_zip_with, Hlv, Hsv, (Hent c Hcl). reflexivity.
Qed.

Lemma tensor_add_entry a b y :
  tensor_add a b = Ok y ->
  map length y = map length a
  /\ forall r c row, a !! r = Some row -> (c < length row)%nat ->
       entry y r c = sadd (entry a r c) (entry b r c).
Proof.
  intros Hadd. split; [by eapply tensor_add_shape|].
  unfold tensor_add in Hadd. destruct (same_shape a b) eqn:Hs; [|done].
  injection Hadd as <-. unfold same_shape in Hs. apply bool_decide_eq_true in Hs.
  intros r c row Hr Hc.
  assert (Hb : exists rb, b !! r = Some rb /\ length rb = length row).
  { apply (f_equal (fun l => l !! r)) in Hs. rewrite !list_lookup_fmap, Hr in Hs.
    destruct (b !! r) as [rb|]; [|done]. simpl in Hs. injection Hs as Hs.
    by exists rb. }
  destruct Hb as (rb & Hb & Hlen).
  destruct (lookup_lt_is_Some_2 row c Hc) as [va Hva].
  destruct (lookup_lt_is_Some_2 rb c ltac:(lia)) as [vb Hvb].
  unfold entry. rewrite lookup_zip_with, Hr, Hb. simpl.
  by rewrite lookup_zip_with, Hva, Hvb.
Qed.

Lemma forward_member_facts e x mid g i m :
  well_formed e = true ->
  norm_index (length (ensemble e)) mid = Some i ->
  ensemble e !! i = Some m ->
  getitem (ensemble e) mid = Ok m
  /\ ((beta e == 0)%Q ->
      forward x (Some mid) (State e g) = (call m x, State e g))
  /\ ((0 < beta e)%Q ->
      exists d f,
        priors e !! i = Some d /\ prior_fns e !! i = Some f
        /\ getitem (priors e) mid = Ok d /\ getitem (prior_fns e) mid = Ok f
        /\ let w := (Normal.sample d g).1 in
           let g' := (Normal.sample d g).2 in
           let f' := reweight f w in
           position g' = (position g + length (concat (Normal.loc d)))%nat
           /\ outcome g' = outcome g
           /\ (forall r c l s,
                 Normal.loc d !! r = Some l -> Normal.scale d !! r = Some s ->
                 (c < length l)%nat -> (c < length s)%nat ->
                 entry w r c
                 = sadd (entry (Normal.loc d) r c)
                     (smul (entry (Normal.scale d) r c)
                        (fin (outcome g StdNormal
                                (position g + offset (Normal.loc d) r c)))))
           /\ data <$> get_weight f' = Ok w
           /\ forward x (Some mid) (State e g) =
                match call m x with
                | Raise err => (Raise err, State e g)
                | Ok y =>
                    (p ← call f' x; tensor_add y p,
                     State (with_prior_fns e (<[i := f']> (prior_fns e))) g')
                end
           /\ (forall y p,
                 call m x = Ok y -> call f' x = Ok p ->
                 map length p = map length y ->
                 exists s,
                   forward x (Some mid) (State e g)
                   = (Ok s, State (with_prior_fns e (<[i := f']> (prior_fns e))) g')
                   /\ map length s = map length y
                   /\ forall r c row,
                        y !! r = Some row -> (c < length row)%nat ->
                        entry s r c = sadd (entry y r c) (entry p r c))).
Proof.
  intros Hwf Hi Hm.
  pose proof (forward_at e x mid g i m Hwf Hi Hm) as Hfw.
  pose proof (norm_index_lt _ _ _ Hi) as Hlt.
  split; [by apply (getitem_Some _ _ i)|]. split.
  - intros Hb. rewrite Hfw.
    destruct (well_formed_no_priors e Hwf Hb) as [-> ->].
    by destruct (call m x).
  - intros Hb. destruct (well_formed_priors e Hwf Hb) as (Hp & Hf & Hw).
    destruct (lookup_lt_is_Some_2 (priors e) i) as [d Hd]; [lia|].
    destruct (lookup_lt_is_Some_2 (prior_fns e) i) as [f Hfi]; [lia|].
    exists d, f. split; [done|]. split; [done|].
    split; [apply (getitem_Some _ _ i); [by rewrite Hp|done]|].
    split; [apply (getitem_Some _ _ i); [by rewrite Hf|done]|].
    cbv zeta.
    destruct (torch_normal_generator (Normal.loc d) (Normal.scale d) g) as [Hpos Hout].
    split; [exact Hpos|]. split; [exact Hout|]. split.
    { intros r c l s Hl Hs Hcl Hcs. by apply (torch_normal_entry _ _ _ _ _ l s). }
    split.
    { rewrite Forall_forall in Hw.
      destruct (has_weight_inv f) as [l ->];
        [eapply Hw, list_elem_of_lookup_2; eauto|].
      reflexivity. }
    assert (Hrun : forward x (Some mid) (State e g) =
                match call m x with
                | Raise err => (Raise err, State e g)
                | Ok y =>
                    (p ← call (reweight f (Normal.sample d g).1) x; tensor_add y p,
                     State (with_prior_fns e
                              (<[i := reweight f (Normal.sample d g).1]> (prior_fns e)))
                           (Normal.sample d g).2)
                end)
      by (by rewrite Hfw, Hd, Hfi).
    split; [exact Hrun|].
    intros y p Hy Hpc Hshape. rewrite Hrun, Hy, Hpc.
    change (Ok p ≫= ?k) with (k p). cbv beta.
    destruct (tensor_add y p) as [s|err] eqn:Hadd.
    + exists s. split; [reflexivity|]. by apply tensor_add_entry.
    + unfold tensor_add, same_shape in Hadd.
      rewrite bool_decide_eq_true_2 in Hadd by done. discriminate.
Qed.

(** * The claims *)

(** C1.  For every input batch [x], [forward(x)] with [mid] omitted returns
    the element-wise mean, across a new leading axis, of the stacked
    per-member outputs.  When beta is zero the outputs are [member[i](x)].
    When beta is positive every prior function is first given a weight
    sampled from its own distribution, in order and from the running
    generator, and the outputs are [member[i](x) + prior_function[i](x)].
    Whenever all [B >= 1] outputs are produced the call returns their mean:
    a tensor shaped like one output, each entry being the sum of that entry
    over the stacked outputs divided by their number. *)
Theorem forward_ensemble_mean (e : t) (x : input) (g : generator) :
  well_formed e = true ->
  ((beta e == 0)%Q ->
   forward x None (State e g)
   = (mean_of_stacked (map (fun m => call m x) (ensemble e)), State e g)
   /\ forall ys,
        all_ok (map (fun m => call m x) (ensemble e)) = Ok ys -> ys <> [] ->
        (forward x None (State e g)).1 = Ok (mean0 ys)
        /\ Z.of_nat (length ys) = __len__ e)
  /\ ((0 < beta e)%Q ->
      let fs := (resample (priors e) (prior_fns e) g).1 in
      forward x None (State e g)
      = (mean_of_stacked
           (zip_with (fun m p => a ← call m x; b ← call p x; tensor_add a b)
              (ensemble e) fs),
         State (with_prior_fns e fs) (resample (priors e) (prior_fns e) g).2)
      /\ (forall ys,
            all_ok (zip_with (fun m p => a ← call m x; b ← call p x; tensor_add a b)
                      (ensemble e) fs) = Ok ys ->
            ys <> [] ->
            (forward x None (State e g)).1 = Ok (mean0 ys)
            /\ Z.of_nat (length ys) = __len__ e)
      /\ length fs = length (ensemble e)
      /\ forall i f',
           fs !! i = Some f' ->
           exists d f gi,
             priors e !! i = Some d /\ prior_fns e !! i = Some f
             /\ f' = reweight f (Normal.sample d gi).1
             /\ data <$> get_weight f' = Ok (Normal.sample d gi).1)
  /\ (forall y0 ys,
        map length (mean0 (y0 :: ys)) = map length y0
        /\ forall r c row,
             y0 !! r = Some row -> (c < length row)%nat ->
             entry (mean0 (y0 :: ys)) r c
             = sdiv (ssum (map (fun y => entry y r c) (y0 :: ys)))
                    (of_Z (Z.of_nat (length (y0 :: ys))))).
Proof.
  intros Hwf. split; [|split].
  - intros Hb. destruct (well_formed_no_priors e Hwf Hb) as [Hp _].
    rewrite (forward_none_no_priors _ _ _ Hp). split; [done|].
    intros ys Hok Hne. simpl fst.
    destruct (member_outputs_uniform e x ys Hwf Hok) as [n Hn].
    split; [by apply (mean_of_stacked_uniform (length (x_values x)) n)|].
    unfold __len__. by rewrite (all_ok_length _ _ Hok), length_map.
  - intros Hb fs. destruct (well_formed_priors e Hwf Hb) as (Hp & Hf & Hw).
    assert (Hrun : forward x None (State e g)
      = (mean_of_stacked
           (zip_with (fun m p => a ← call m x; b ← call p x; tensor_add a b)
              (ensemble e) fs),
         State (with_prior_fns e fs) (resample (priors e) (prior_fns e) g).2)).
    { destruct (priors e) as [|d ds] eqn:Ed.
      * rewrite forward_none_no_priors by done.
        destruct (ensemble e); [|discriminate].
        destruct (prior_fns e) eqn:Ef; [|discriminate].
        unfold fs. simpl. rewrite <- Ef. by rewrite with_prior_fns_id.
      * unfold fs. rewrite <- Ed. apply forward_none_priors; [|done].
        by rewrite Ed. }
    assert (Hlen : length fs = length (ensemble e))
      by (unfold fs; by rewrite resample_length).
    split; [done|]. split; [|split; [done|]].
    + intros ys Hok Hne. rewrite Hrun. simpl fst.
      destruct (prior_outputs_uniform e x fs ys Hwf Hok) as [n Hn].
      split; [by apply (mean_of_stacked_uniform (length (x_values x)) n)|].
      unfold __len__. rewrite (all_ok_length _ _ Hok), length_zip_with. lia.
    + intros i f' Hi.
      destruct (resample_lookup _ _ _ _ _ (eq_trans Hp (eq_sym Hf)) Hi)
        as (d & f & gi & Hd & Hfi & ->).
      exists d, f, gi. repeat split; try done.
      rewrite Forall_forall in Hw.
      destruct (has_weight_inv f) as [l ->];
        [eapply Hw, list_elem_of_lookup_2; eauto|].
      reflexivity.
  - intros y0 ys. split; [apply reduce0_shape|].
    intros r c row Hr Hc. unfold mean0.
    rewrite (reduce0_entry smean y0 ys r c row Hr Hc).
    unfold smean. by rewrite length_map.
Qed.

Lemma forward_ensemble_mean_witness :
  well_formed (self Demo.with_priors) = true
  /\ (0 < beta (self Demo.with_priors))%Q
  /\ all_ok (zip_with (fun m p => a ← call m Demo.x_float; b ← call p Demo.x_float;
                                 tensor_add a b)
               (ensemble (self Demo.with_priors))
               (resample (priors (self Demo.with_priors))
                  (prior_fns (self Demo.with_priors)) (gen Demo.with_priors)).1)
     = Ok [[[Fin (112 # 5); Fin (53 # 2)]];
           [[Fin (178 # 5); Fin (397 # 10)]];
           [[Fin (244 # 5); Fin (529 # 10)]]]
  /\ (forward Demo.x_float None
        (State (self Demo.with_priors) (gen Demo.with_priors))).1
     = Ok (mean0 [[[Fin (112 # 5); Fin (53 # 2)]];
                  [[Fin (178 # 5); Fin (397 # 10)]];
                  [[Fin (244 # 5); Fin (529 # 10)]]])
  /\ mean0 [[[Fin (112 # 5); Fin (53 # 2)]];
            [[Fin (178 # 5); Fin (397 # 10)]];
            [[Fin (244 # 5); Fin (529 # 10)]]]
     = [[Fin (178 # 5); Fin (397 # 10)]].
Proof.
  split; [reflexivity|]. split; [reflexivity|].
  split; [vm_compute; reflexivity|]. split; [|vm_compute; reflexivity].
  destruct (forward_ensemble_mean (self Demo.with_priors) Demo.x_float
              (gen Demo.with_priors)) as (_ & H & _); [reflexivity|].
  destruct H as (_ & H & _); [reflexivity|].
  apply H; [vm_compute; reflexivity|discriminate].
Defined.

(** C2.  For every input [x] and every member index [mid] with
    [0 <= mid < B], [forward(x, mid)] returns [member[mid](x)] when beta is
    zero and leaves the state alone.  When beta is positive the weight of
    [prior_function[mid]] is first overwritten by a fresh sample of
    [prior_distribution[mid]]: entry by entry [loc + scale * eps], the [eps]
    being the next standard normal draws of the generator, one per entry of
    [loc] in row-major order, after which the generator stands that many
    draws further.  The call then returns
    [member[mid](x) + prior_function[mid](x)], the entry-wise sum of the two
    outputs.  An exception of the member's own forward pass is passed on
    before anything is sampled. *)
Theorem forward_member_in_range (e : t) (x : input) (mid : Z) (g : generator) :
  well_formed e = true ->
  0 <= mid < __len__ e ->
  exists m,
    ensemble e !! Z.to_nat mid = Some m
    /\ ((beta e == 0)%Q ->
        forward x (Some mid) (State e g) = (call m x, State e g))
    /\ ((0 < beta e)%Q ->
        exists d f,
          priors e !! Z.to_nat mid = Some d
          /\ prior_fns e !! Z.to_nat mid = Some f
          /\ let w := (Normal.sample d g).1 in
             let g' := (Normal.sample d g).2 in
             let f' := reweight f w in
             position g' = (position g + length (concat (Normal.loc d)))%nat
             /\ outcome g' = outcome g
             /\ (forall r c l s,
                   Normal.loc d !! r = Some l -> Normal.scale d !! r = Some s ->
                   (c < length l)%nat -> (c < length s)%nat ->
                   entry w r c
                   = sadd (entry (Normal.loc d) r c)
                       (smul (entry (Normal.scale d) r c)
                          (fin (outcome g StdNormal
                                  (position g + offset (Normal.loc d) r c)))))
             /\ data <$> get_weight f' = Ok w
             /\ forward x (Some mid) (State e g) =
                  match call m x with
                  | Raise err => (Raise err, State e g)
                  | Ok y =>
                      (p ← call f' x; tensor_add y p,
                       State (with_prior_fns e (<[Z.to_nat mid := f']> (prior_fns e)))
                             g')
                  end
             /\ (forall y p,
                   call m x = Ok y -> call f' x = Ok p ->
                   map length p = map length y ->
                   exists s,
                     forward x (Some mid) (State e g)
                     = (Ok s,
                        State (with_prior_fns e (<[Z.to_nat mid := f']> (prior_fns e)))
                              g')
                     /\ map length s = map length y
                     /\ forall r c row,
                          y !! r = Some row -> (c < length row)%nat ->
                          entry s r c = sadd (entry y r c) (entry p r c))).
Proof.
  intros Hwf Hmid. unfold __len__ in Hmid.
  pose proof (norm_index_nonneg _ _ Hmid) as Hi.
  destruct (lookup_lt_is_Some_2 (ensemble e) (Z.to_nat mid)) as [m Hm]; [lia|].
  destruct (forward_member_facts e x mid g _ m Hwf Hi Hm) as (_ & H0 & H1).
  exists m. split; [done|]. split; [exact H0|].
  intros Hb. destruct (H1 Hb) as (d & f & Hd & Hf & _ & _ & Hrest).
  exists d, f. split; [done|]. split; [done|]. exact Hrest.
Qed.

Lemma forward_member_in_range_witness :
  well_formed (self Demo.with_priors) = true
  /\ 0 <= 1 < __len__ (self Demo.with_priors)
  /\ (0 < beta (self Demo.with_priors))%Q
  /\ position (gen Demo.with_priors) = 24%nat
  /\ exists m d f,
       ensemble (self Demo.with_priors) !! 1%nat = Some m
       /\ priors (self Demo.with_priors) !! 1%nat = Some d
       /\ prior_fns (self Demo.with_priors) !! 1%nat = Some f
       /\ call m Demo.x_float = Ok [[Fin (27 # 2); Fin (61 # 4)]]
       /\ Normal.loc d = [[Fin (3 # 1); Fin (13 # 4)]; [Fin (7 # 2); Fin (15 # 4)]]
       /\ Normal.scale d = [[Fin (1 # 10); Fin (1 # 10)]; [Fin (1 # 10); Fin (1 # 10)]]
       /\ (Normal.sample d (gen Demo.with_priors)).1
          = [[Fin (27 # 5); Fin (23 # 4)]; [Fin (61 # 10); Fin (129 # 20)]]
       /\ position (Normal.sample d (gen Demo.with_priors)).2 = 28%nat
       /\ call (reweight f (Normal.sample d (gen Demo.with_priors)).1) Demo.x_float
          = Ok [[Fin (209 # 10); Fin (93 # 4)]]
       /\ (forward Demo.x_float (Some 1)
             (State (self Demo.with_priors) (gen Demo.with_priors))).1
          = Ok [[Fin (172 # 5); Fin (77 # 2)]]
       /\ weight_data <$>
            prior_fns (self (forward Demo.x_float (Some 1)
                               (State (self Demo.with_priors)
                                  (gen Demo.with_priors))).2) !! 1%nat
          = Some [[Fin (27 # 5); Fin (23 # 4)]; [Fin (61 # 10); Fin (129 # 20)]].
Proof.
  split; [vm_compute; reflexivity|].
  split; [vm_compute; split; [discriminate|reflexivity]|].
  split; [reflexivity|]. split; [vm_compute; reflexivity|].
  destruct (forward_member_in_range (self Demo.with_priors) Demo.x_float 1
              (gen Demo.with_priors)) as (m & Hm & _ & H);
    [vm_compute; reflexivity|vm_compute; split; [discriminate|reflexivity]|].
  destruct H as (d & f & Hd & Hf & _); [reflexivity|].
  exists m, d, f.
  vm_compute in Hm, Hd, Hf.
  injection Hm as <-. injection Hd as <-. injection Hf as <-.
  repeat split; vm_compute; reflexivity.
Defined.

(** C3.  For every input [x], [var(x, action)] is computed from the raw
    member predictions [member[i](x)] only: it is a function of the members,
    changes neither the object nor the generator, and is the same whatever
    prior functions and distributions the object holds, also when beta > 0.
    Without [action] the result is the array, shaped like a member output, of
    the variances across the stacked outputs; with [action] it is the
    variance at output [action] of the first batch element. *)
Theorem var_uses_members_only (e : t) (x : input) (action : option Z) (g : generator) :
  well_formed e = true ->
  var x action (State e g) = (var_of_members (ensemble e) x action, State e g)
  /\ (forall e' g',
        ensemble e' = ensemble e ->
        (var x action (State e' g')).1 = (var x action (State e g)).1)
  /\ (forall y0 ys,
        all_ok (map (fun m => call m x) (ensemble e)) = Ok (y0 :: ys) ->
        (var x None (State e g)).1 = Ok (VTensor (var0 (y0 :: ys)))
        /\ forall a row,
             y0 !! 0%nat = Some row ->
             0 <= a < Z.of_nat (length row) ->
             (var x (Some a) (State e g)).1
             = Ok (VScalar (entry (var0 (y0 :: ys)) 0 (Z.to_nat a))))
  /\ (forall y0 ys,
        map length (var0 (y0 :: ys)) = map length y0
        /\ forall r c row,
             y0 !! r = Some row -> (c < length row)%nat ->
             entry (var0 (y0 :: ys)) r c
             = svar (map (fun y => entry y r c) (y0 :: ys))).
Proof.
  intros Hwf. split; [apply var_run|]. split; [|split].
  - intros e' g' He. rewrite !var_run. simpl. by rewrite He.
  - intros y0 ys Hok.
    destruct (member_outputs_uniform e x _ Hwf Hok) as [n Hn].
    pose proof (stack_uniform _ _ _ _ Hn) as Hsh.
    split.
    + rewrite var_run. simpl fst. by apply var_of_members_tensor.
    + intros a row Hrow Ha. rewrite var_run. simpl fst.
      rewrite (var_of_members_scalar _ _ _ _ _ _ Hok Hsh Hrow Ha).
      unfold var0. rewrite (reduce0_entry svar y0 ys 0 (Z.to_nat a) row Hrow); [done|lia].
  - intros y0 ys. split; [apply reduce0_shape|].
    intros r c row Hr Hc. by apply reduce0_entry with row.
Qed.

Lemma var_uses_members_only_witness :
  well_formed (self Demo.with_priors) = true
  /\ (0 < beta (self Demo.with_priors))%Q
  /\ var Demo.x_float None (State (self Demo.with_priors) (gen Demo.with_priors))
     = (var_of_members (ensemble (self Demo.with_priors)) Demo.x_float None,
        State (self Demo.with_priors) (gen Demo.with_priors))
  /\ var_of_members (ensemble (self Demo.with_priors)) Demo.x_float None
     = Ok (VTensor [[Fin (36 # 1); Fin (36 # 1)]])
  /\ (var Demo.x_float (Some 1) Demo.with_priors).1 = Ok (VScalar (Fin (36 # 1))).
Proof.
  split; [reflexivity|]. split; [reflexivity|].
  split; [|split; vm_compute; reflexivity].
  apply (var_uses_members_only (self Demo.with_priors) Demo.x_float None
           (gen Demo.with_priors)).
  reflexivity.
Defined.

(** A check of C3 on three linear estimators: the full array, one action. *)
Example var_plain_values :
  (var Demo.x_byte None Demo.plain).1
  = Ok (VTensor [[Fin (144 # 25); Fin (144 # 25)]])
  /\ (var Demo.x_byte (Some 1) Demo.plain).1 = Ok (VScalar (Fin (144 # 25)))
  /\ (var Demo.x_byte None Demo.plain).2 = Demo.plain.
Proof. repeat split; vm_compute; reflexivity. Qed.

(** C4, as the spec states it, fails: on an ensemble of three members the
    index -1 lies outside [0, 3), yet the call raises nothing and returns the
    last member's output. *)
Lemma forward_negative_mid_returns :
  __len__ (self Demo.plain) = 3
  /\ ~ (0 <= -1 < 3)
  /\ (forward Demo.x_byte (Some (-1)) Demo.plain).1
     = Ok [[Fin (51 # 5); Fin (109 # 10)]]
  /\ ensemble (self Demo.plain) !! 2%nat ≫= (fun m => Some (call m Demo.x_byte))
     = Some (Ok [[Fin (51 # 5); Fin (109 # 10)]]).
Proof.
  split; [reflexivity|]. split; [lia|]. split; vm_compute; reflexivity.
Qed.

(** C4, amended.  For every ensemble of size [B] and every integer [mid]
    with [mid >= B] or [mid < -B], [forward(x, mid)] raises the out-of-range
    error of list indexing and changes nothing; so does [mid = 5] on a
    three-member ensemble. *)
Theorem forward_mid_out_of_range (e : t) (x : input) (mid : Z) (g : generator) :
  mid < - __len__ e \/ __len__ e <= mid ->
  forward x (Some mid) (State e g) = (Raise IndexError, State e g).
Proof.
  intros Hmid. apply forward_index_error. by apply norm_index_outside.
Qed.

Lemma forward_mid_out_of_range_witness :
  (5 < - __len__ (self Demo.with_priors) \/ __len__ (self Demo.with_priors) <= 5)
  /\ __len__ (self Demo.with_priors) = 3
  /\ forward Demo.x_float (Some 5) (State (self Demo.with_priors) (gen Demo.with_priors))
     = (Raise IndexError, State (self Demo.with_priors) (gen Demo.with_priors)).
Proof.
  split; [right; vm_compute; discriminate|]. split; [reflexivity|].
  apply (forward_mid_out_of_range (self Demo.with_priors) Demo.x_float 5
           (gen Demo.with_priors)).
  right; vm_compute; discriminate.
Defined.

(** C5.  For every ensemble constructed with beta > 0 and every sequence of
    [forward] and [var] calls: the distributions are the ones built at
    construction, each with [loc] the weight its member had then and [scale]
    filled with [0.1 * beta]; and the weight of each prior function stays
    non-trainable, is the same parameter object, and holds either the value
    copied at construction or a sample drawn from the distribution of its
    position, nothing else of the prior function having changed.  No
    parameter of a prior function is in a group given to the optimizer. *)
Theorem priors_fixed_prior_fns_resampled (proto : module) (B : Z) (b : Q)
    (w w' : world) (e : t) (ops : list op) (g : generator) :
  __init__ proto B b w = (Ok e, w') ->
  (0 < b)%Q ->
  let e' := self (run ops (State e g)) in
  priors e' = priors e
  /\ Forall2 (fun d m =>
        Normal.loc d = weight_data m
        /\ Normal.scale d = full_like (weight_data m) (fin ((1 # 10) * b)))
       (priors e) (ensemble e)
  /\ length (prior_fns e') = length (priors e)
  /\ (forall i f',
        prior_fns e' !! i = Some f' ->
        exists f0 d p0 p',
          prior_fns e !! i = Some f0 /\ priors e !! i = Some d
          /\ get_weight f0 = Ok p0 /\ get_weight f' = Ok p'
          /\ data p0 = Normal.loc d
          /\ requires_grad p' = false /\ pid p' = pid p0
          /\ f' = reweight f0 (data p')
          /\ (data p' = data p0
              \/ exists g0, data p' = (Normal.sample d g0).1))
  /\ (forall grp p f q,
        grp ∈ parameters e' -> p ∈ params grp ->
        f ∈ prior_fns e' -> q ∈ module_parameters f ->
        pid p <> pid q).
Proof.
  intros Hinit Hb e'.
  destruct (init_ok _ _ _ _ _ _ Hinit) as (_ & _ & (Hlen & Hpl & Hk) & Hcases).
  destruct (run_preserves ops (State e g) (init_well_formed _ _ _ _ _ _ Hinit))
    as (_ & He & Hp & _ & _ & Hev).
  fold e' in He, Hp, Hev. simpl in He, Hp, Hev.
  rewrite (truthy_pos _ Hb) in Hcases.
  destruct Hcases as [(? & _)|(_ & Hw & fs & Hfs & Hds & Hall & Hplf)]; [done|].
  split; [done|]. split; [|split; [|split]].
  - rewrite Hds. apply Forall2_fmap_l, Forall_Forall2_diag, Forall_forall.
    by intros m _.
  - destruct Hev as [Hl _]. rewrite Hl, Hfs, Hds, !length_map.
    symmetry. by eapply Forall2_length.
  - intros i f' Hi. destruct Hev as [_ Hev].
    destruct (Hev i f' Hi) as (f0 & Hf0 & Hc).
    rewrite Hfs, list_lookup_fmap in Hf0.
    destruct (fs !! i) as [f|] eqn:Hf; [|done]. injection Hf0 as <-.
    destruct (Forall2_lookup_r _ _ _ _ _ Hall Hf) as (m & Hm & Hfm).
    assert (Hmw : has_weight m = true).
    { rewrite Forall_forall in Hw. eapply Hw, list_elem_of_lookup_2; eauto. }
    assert (Hfw : has_weight f = true) by (by rewrite (erase_eq_has_weight _ _ Hfm)).
    destruct (get_weight_freeze f Hfw) as (p0 & Hp0 & Hrg & Hd0 & _).
    assert (Hd : priors e !! i = Some (prior_of b m))
      by (by rewrite Hds, list_lookup_fmap, Hm).
    assert (Hloc : data p0 = Normal.loc (prior_of b m)).
    { simpl. by rewrite Hd0, (erase_eq_weight_data _ _ Hfm). }
    destruct Hc as [->|(d & g0 & Hd' & ->)].
    + exists (freeze f), (prior_of b m), p0, p0.
      split; [by rewrite Hfs, list_lookup_fmap, Hf|].
      do 6 (split; [done|]). split; [|by left].
      symmetry. by apply reweight_same.
    + rewrite Hd in Hd'. injection Hd' as <-.
      exists (freeze f), (prior_of b m), p0, (set_data p0 (Normal.sample (prior_of b m) g0).1).
      split; [by rewrite Hfs, list_lookup_fmap, Hf|]. split; [done|].
      split; [done|]. split; [by apply get_weight_reweight|].
      split; [done|]. split; [done|]. split; [done|]. split; [done|].
      right. by exists g0.
  - intros grp p f q Hgrp Hpp Hf Hq. unfold parameters in Hgrp. rewrite He in Hgrp.
    apply list_elem_of_fmap in Hgrp as (m & -> & Hm). simpl in Hpp.
    rewrite Hfs in Hev.
    by apply (member_parameters_apart (next_id w) (ensemble e) fs (priors e)
                (prior_fns e') m f p q).
Qed.

Lemma priors_fixed_prior_fns_resampled_witness :
  __init__ Demo.layer.1 3 1 Demo.layer.2
  = (Ok (self Demo.with_priors), (Demo.construct Demo.layer 3 1).2)
  /\ (0 < 1)%Q
  /\ priors (self (run [Forward Demo.x_float None; Forward Demo.x_float (Some 1);
                       Var Demo.x_float None]
                   (State (self Demo.with_priors) (gen Demo.with_priors))))
     = priors (self Demo.with_priors)
  /\ map Normal.scale (priors (self Demo.with_priors))
     = replicate 3 [[Fin (1 # 10); Fin (1 # 10)]; [Fin (1 # 10); Fin (1 # 10)]]
  /\ map weight_data
       (prior_fns (self (run [Forward Demo.x_float None; Forward Demo.x_float (Some 1);
                              Var Demo.x_float None]
                          (State (self Demo.with_priors) (gen Demo.with_priors)))))
     <> map weight_data (prior_fns (self Demo.with_priors)).
Proof.
  split; [vm_compute; reflexivity|]. split; [reflexivity|].
  split; [|split; [vm_compute; reflexivity|vm_compute; discriminate]].
  apply (priors_fixed_prior_fns_resampled Demo.layer.1 3 1 Demo.layer.2
           (Demo.construct Demo.layer 3 1).2 (self Demo.with_priors)
           [Forward Demo.x_float None; Forward Demo.x_float (Some 1);
            Var Demo.x_float None]
           (gen Demo.with_priors)).
  - vm_compute; reflexivity.
  - reflexivity.
Defined.

(** C6, as the spec states it, fails for a prototype with a frozen
    parameter: [model.parameters()] lists every parameter whatever its
    [requires_grad], and the copies keep the flags of the prototype.  Each
    group of an ensemble of two layers with a frozen weight holds that weight
    (identities 4 and 7) next to the trainable bias, so the groups are not
    the members' trainable parameters. *)
Lemma parameter_groups_include_frozen :
  __init__ Demo.frozen_layer.1 2 0 Demo.frozen_layer.2
  = (Ok (self Demo.frozen), (Demo.construct Demo.frozen_layer 2 0).2)
  /\ map (fun grp => map (fun p => (pid p, requires_grad p)) (params grp))
       (parameters (self Demo.frozen))
     = [[(4%nat, false); (5%nat, true)]; [(7%nat, false); (8%nat, true)]]
  /\ map (fun m => map pid (trainable m)) (ensemble (self Demo.frozen))
     = [[5%nat]; [8%nat]].
Proof. repeat split; vm_compute; reflexivity. Qed.

(** C6, amended.  For every ensemble of size [B], [parameters()] returns
    exactly [B] groups, one per member in construction order, each group
    being that member's own [parameters()], all of them, trainable or not;
    no parameter occurs twice, within a group or across groups; and no
    parameter of a prior function is in any group.  When every parameter of
    the prototype is trainable, as for a newly built estimator, each group is
    exactly its member's trainable parameters and the groups together are
    all the members' trainable parameters; when the prototype has a frozen
    parameter, every group contains one.  This holds at construction and
    after any calls of [forward] and [var]. *)
Theorem parameter_groups (proto : module) (B : Z) (b : Q) (w w' : world) (e : t)
    (ops : list op) (g : generator) :
  __init__ proto B b w = (Ok e, w') ->
  0 <= B ->
  let e' := self (run ops (State e g)) in
  Z.of_nat (length (parameters e')) = B
  /\ map params (parameters e') = map module_parameters (__iter__ e')
  /\ __iter__ e' = __iter__ e
  /\ NoDup (concat (map (fun grp => map pid (params grp)) (parameters e')))
  /\ (forall grp p f q,
        grp ∈ parameters e' -> p ∈ params grp ->
        f ∈ prior_fns e' -> q ∈ module_parameters f ->
        pid p <> pid q)
  /\ (Forall (fun p => requires_grad p = true) (module_parameters proto) ->
      Forall2 (fun grp m => params grp = trainable m) (parameters e') (__iter__ e')
      /\ concat (map params (parameters e')) = concat (map trainable (ensemble e'))
      /\ Forall (fun grp => Forall (fun p => requires_grad p = true) (params grp))
           (parameters e'))
  /\ (Exists (fun p => requires_grad p = false) (module_parameters proto) ->
      Forall (fun grp => Exists (fun p => requires_grad p = false) (params grp))
        (parameters e')).
Proof.
  intros Hinit HB e'.
  destruct (init_ok _ _ _ _ _ _ Hinit) as (_ & _ & (Hlen & Hpl & Hk) & Hcases).
  destruct (run_preserves ops (State e g) (init_well_formed _ _ _ _ _ _ Hinit))
    as (_ & He & _ & _ & _ & Hev).
  fold e' in He, Hev. simpl in He, Hev.
  unfold parameters, __iter__. rewrite He.
  split; [rewrite length_map, Hlen; lia|].
  split; [by rewrite map_map|]. split; [done|].
  split; [|split; [|split]].
  - rewrite map_map. simpl. by eapply parameters_NoDup.
  - intros grp p f q Hgrp Hp Hf Hq.
    apply list_elem_of_fmap in Hgrp as (m & -> & Hm). simpl in Hp.
    destruct Hcases as [(_ & Hnil & _)|(_ & _ & fs & Hfs & _ & _ & Hplf)].
    + destruct Hev as [Hl _]. rewrite Hnil in Hl.
      destruct (prior_fns e'); [by apply elem_of_nil in Hf|discriminate].
    + rewrite Hfs in Hev.
      by apply (member_parameters_apart (next_id w) (ensemble e) fs (priors e)
                  (prior_fns e') m f p q).
  - intros Hproto.
    assert (Hg : Forall (fun m => Forall (fun p => requires_grad p = true)
                                    (module_parameters m)) (ensemble e)).
    { eapply Forall_impl; [exact Hk|]. intros m (_ & Hg & _).
      assert (H : Forall (fun b => b = true)
                    (map requires_grad (module_parameters m)))
        by (rewrite Hg; by apply Forall_fmap).
      by apply Forall_fmap in H. }
    assert (Htr : Forall (fun m => trainable m = module_parameters m) (ensemble e)).
    { eapply Forall_impl; [exact Hg|]. intros m Hm.
      apply trainable_all. by apply Forall_fmap. }
    split; [|split].
    + apply Forall2_fmap_l. apply Forall_Forall2_diag.
      eapply Forall_impl; [exact Htr|]. intros m Hm. simpl. by rewrite Hm.
    + rewrite map_map. simpl. f_equal. apply map_ext_Forall.
      eapply Forall_impl; [exact Htr|]. intros m Hm. simpl. by rewrite Hm.
    + apply Forall_fmap. eapply Forall_impl; [exact Hg|]. by intros m Hm.
  - intros Hproto. apply Forall_fmap.
    eapply Forall_impl; [exact Hk|]. intros m (_ & Hg & _). simpl.
    apply Exists_exists in Hproto as (p & Hp & Hfalse).
    assert (Hin : false ∈ map requires_grad (module_parameters m)).
    { rewrite Hg, <- Hfalse. by apply list_elem_of_fmap_2. }
    apply list_elem_of_fmap in Hin as (q & Hq & Hqm).
    apply Exists_exists. by exists q.
Qed.

Lemma parameter_groups_witness :
  __init__ Demo.layer.1 3 1 Demo.layer.2
  = (Ok (self Demo.with_priors), (Demo.construct Demo.layer 3 1).2)
  /\ 0 <= 3
  /\ Forall (fun p => requires_grad p = true) (module_parameters Demo.layer.1)
  /\ map (fun grp => map pid (params grp))
       (parameters (self (run [Forward Demo.x_float None; Var Demo.x_float None]
                            (State (self Demo.with_priors) (gen Demo.with_priors)))))
     = [[4; 5]; [7; 8]; [10; 11]]%nat
  /\ concat (map (fun f => map pid (module_parameters f))
       (prior_fns (self (run [Forward Demo.x_float None; Var Demo.x_float None]
                            (State (self Demo.with_priors) (gen Demo.with_priors))))))
     = [13; 14; 16; 17; 19; 20]%nat
  /\ NoDup (concat (map (fun grp => map pid (params grp))
       (parameters (self (run [Forward Demo.x_float None; Var Demo.x_float None]
                            (State (self Demo.with_priors) (gen Demo.with_priors)))))))
  /\ concat (map params
       (parameters (self (run [Forward Demo.x_float None; Var Demo.x_float None]
                            (State (self Demo.with_priors) (gen Demo.with_priors))))))
     = concat (map trainable
       (ensemble (self (run [Forward Demo.x_float None; Var Demo.x_float None]
                          (State (self Demo.with_priors) (gen Demo.with_priors)))))).
Proof.
  split; [vm_compute; reflexivity|]. split; [discriminate|].
  split; [vm_compute; repeat constructor|].
  split; [vm_compute; reflexivity|]. split; [vm_compute; reflexivity|].
  destruct (parameter_groups Demo.layer.1 3 1 Demo.layer.2
           (Demo.construct Demo.layer 3 1).2 (self Demo.with_priors)
           [Forward Demo.x_float None; Var Demo.x_float None]
           (gen Demo.with_priors)) as (_ & _ & _ & H1 & _ & H2 & _).
  - vm_compute; reflexivity.
  - discriminate.
  - split; [exact H1|]. apply H2. vm_compute; repeat constructor.
Defined.

(** C7.  For every ensemble constructed with size [B], [len(ensemble)] is
    [B], and iterating over it yields exactly the [B] members, pairwise
    distinct objects, in construction order (the i-th one is the i-th copy of
    the prototype that was allocated); no prior function is among them, and
    distributions are not modules at all. *)
Theorem len_and_iteration (proto : module) (B : Z) (b : Q) (w w' : world) (e : t) :
  __init__ proto B b w = (Ok e, w') ->
  0 <= B ->
  __len__ e = B
  /\ length (__iter__ e) = Z.to_nat B
  /\ __iter__ e = ensemble e
  /\ (forall i m,
        __iter__ e !! i = Some m ->
        object_id m = (next_id w + i * length (identities proto))%nat)
  /\ NoDup (map object_id (__iter__ e))
  /\ (forall m f,
        m ∈ __iter__ e -> f ∈ prior_fns e -> object_id m <> object_id f).
Proof.
  intros Hinit HB.
  destruct (init_ok _ _ _ _ _ _ Hinit) as (_ & _ & (Hlen & Hpl & Hk) & Hcases).
  unfold __len__, __iter__.
  split; [rewrite Hlen; lia|]. split; [done|]. split; [done|]. split; [|split].
  - intros i m Hi. apply (placed_object_id _ (ensemble e)); [done| |done].
    eapply Forall_impl; [exact Hk|]. by intros m' (_ & _ & H & _).
  - eapply sublist_NoDup; [|apply object_ids_sublist].
    rewrite (placed_concat _ _ Hpl). apply NoDup_seq.
  - intros m f Hm Hf.
    destruct Hcases as [(_ & Hnil & _)|(_ & _ & fs & Hfs & _ & _ & Hplf)].
    + rewrite Hnil in Hf. by apply elem_of_nil in Hf.
    + rewrite Hfs in Hf.
      apply (members_apart_from_priors (next_id w) (ensemble e) fs m f
               (object_id m) (object_id f) Hpl Hplf Hm Hf);
        apply object_id_in_identities.
Qed.

Lemma len_and_iteration_witness :
  __init__ Demo.layer.1 3 1 Demo.layer.2
  = (Ok (self Demo.with_priors), (Demo.construct Demo.layer 3 1).2)
  /\ 0 <= 3
  /\ __len__ (self Demo.with_priors) = 3
  /\ map object_id (__iter__ (self Demo.with_priors)) = [3; 6; 9]%nat
  /\ NoDup (map object_id (__iter__ (self Demo.with_priors))).
Proof.
  split; [vm_compute; reflexivity|]. split; [discriminate|].
  destruct (len_and_iteration Demo.layer.1 3 1 Demo.layer.2
              (Demo.construct Demo.layer 3 1).2 (self Demo.with_priors))
    as (H1 & _ & _ & _ & H2 & _); [vm_compute; reflexivity|discriminate|].
  split; [exact H1|]. split; [vm_compute; reflexivity|exact H2].
Defined.

(** C8, as the spec states it, fails on an input the selected member
    rejects: with three linear estimators and the index -1, a float batch
    trips the member's assertion on the element type, and a 0-dimensional
    byte tensor even raises an IndexError, from [x.shape[0]] inside the
    member, not from the lookup of the member. *)
Lemma forward_negative_mid_member_raises :
  well_formed (self Demo.plain) = true
  /\ - __len__ (self Demo.plain) <= -1 < 0
  /\ (forward Demo.x_float (Some (-1))
        (State (self Demo.plain) (gen Demo.plain))).1
     = Raise AssertionError
  /\ (forward (Input0 UInt8 (Fin (1 # 1))) (Some (-1))
        (State (self Demo.plain) (gen Demo.plain))).1
     = Raise IndexError.
Proof.
  split; [vm_compute; reflexivity|].
  split; [vm_compute; split; [discriminate|reflexivity]|].
  split; vm_compute; reflexivity.
Qed.

(** C8, amended.  For every ensemble of size [B] and every [mid] with
    [-B <= mid < 0], the lookups of the member, of the prior distribution
    and of the prior function succeed and give the ones at [B + mid]:
    [forward(x, mid)] is the call [forward(x, B + mid)].  On an input that
    [member[B + mid]] accepts it raises no error and returns the member's
    output when beta is zero; when beta is positive and the prior function
    accepts the input too, with an output of the same shape, it returns the
    entry-wise sum of the member's output and that of
    [prior_function[B + mid]], whose weight was first overwritten by a fresh
    sample of [prior_distribution[B + mid]] ([loc + scale * eps] on the next
    draws of the generator).  An exception of the member's own forward pass
    is passed on. *)
Theorem forward_negative_mid_wraps (e : t) (x : input) (mid : Z) (g : generator) :
  well_formed e = true ->
  - __len__ e <= mid < 0 ->
  let i := Z.to_nat (__len__ e + mid) in
  exists m,
    ensemble e !! i = Some m
    /\ getitem (ensemble e) mid = Ok m
    /\ forward x (Some mid) (State e g)
       = forward x (Some (__len__ e + mid)) (State e g)
    /\ (forall err,
          call m x = Raise err ->
          forward x (Some mid) (State e g) = (Raise err, State e g))
    /\ ((beta e == 0)%Q ->
        forall y,
          call m x = Ok y ->
          forward x (Some mid) (State e g) = (Ok y, State e g))
    /\ ((0 < beta e)%Q ->
        exists d f,
          priors e !! i = Some d /\ prior_fns e !! i = Some f
          /\ getitem (priors e) mid = Ok d /\ getitem (prior_fns e) mid = Ok f
          /\ let w := (Normal.sample d g).1 in
             let g' := (Normal.sample d g).2 in
             let f' := reweight f w in
             position g' = (position g + length (concat (Normal.loc d)))%nat
             /\ outcome g' = outcome g
             /\ (forall r c l s,
                   Normal.loc d !! r = Some l -> Normal.scale d !! r = Some s ->
                   (c < length l)%nat -> (c < length s)%nat ->
                   entry w r c
                   = sadd (entry (Normal.loc d) r c)
                       (smul (entry (Normal.scale d) r c)
                          (fin (outcome g StdNormal
                                  (position g + offset (Normal.loc d) r c)))))
             /\ data <$> get_weight f' = Ok w
             /\ forward x (Some mid) (State e g) =
                  match call m x with
                  | Raise err => (Raise err, State e g)
                  | Ok y =>
                      (p ← call f' x; tensor_add y p,
                       State (with_prior_fns e (<[i := f']> (prior_fns e))) g')
                  end
             /\ (forall y p,
                   call m x = Ok y -> call f' x = Ok p ->
                   map length p = map length y ->
                   exists s,
                     forward x (Some mid) (State e g)
                     = (Ok s, State (with_prior_fns e (<[i := f']> (prior_fns e))) g')
                     /\ map length s = map length y
                     /\ forall r c row,
                          y !! r = Some row -> (c < length row)%nat ->
                          entry s r c = sadd (entry y r c) (entry p r c))).
Proof.
  intros Hwf Hmid i. unfold __len__ in *.
  pose proof (norm_index_negative _ _ Hmid) as Hi. fold i in Hi.
  assert (Hi' : norm_index (length (ensemble e))
                  (Z.of_nat (length (ensemble e)) + mid) = Some i)
    by (apply norm_index_nonneg; lia).
  destruct (lookup_lt_is_Some_2 (ensemble e) i) as [m Hm]; [unfold i; lia|].
  pose proof (forward_at e x mid g i m Hwf Hi Hm) as Hfw.
  destruct (forward_member_facts e x mid g i m Hwf Hi Hm) as (Hget & H0 & H1).
  exists m. split; [done|]. split; [done|].
  split; [by rewrite Hfw, (forward_at e x _ g i m Hwf Hi' Hm)|].
  split; [intros err Herr; by rewrite Hfw, Herr|].
  split; [intros Hb y Hy; by rewrite (H0 Hb), Hy|].
  exact H1.
Qed.

Lemma forward_negative_mid_wraps_witness :
  well_formed (self Demo.with_priors) = true
  /\ - __len__ (self Demo.with_priors) <= -1 < 0
  /\ (0 < beta (self Demo.with_priors))%Q
  /\ forward Demo.x_float (Some (-1))
       (State (self Demo.with_priors) (gen Demo.with_priors))
     = forward Demo.x_float (Some (__len__ (self Demo.with_priors) + -1))
         (State (self Demo.with_priors) (gen Demo.with_priors))
  /\ exists m d f,
       ensemble (self Demo.with_priors) !! 2%nat = Some m
       /\ priors (self Demo.with_priors) !! 2%nat = Some d
       /\ prior_fns (self Demo.with_priors) !! 2%nat = Some f
       /\ call m Demo.x_float = Ok [[Fin (39 # 2); Fin (85 # 4)]]
       /\ Normal.loc d = [[Fin (9 # 2); Fin (19 # 4)]; [Fin (5 # 1); Fin (21 # 4)]]
       /\ (Normal.sample d (gen Demo.with_priors)).1
          = [[Fin (69 # 10); Fin (29 # 4)]; [Fin (38 # 5); Fin (159 # 20)]]
       /\ call (reweight f (Normal.sample d (gen Demo.with_priors)).1) Demo.x_float
          = Ok [[Fin (269 # 10); Fin (117 # 4)]]
       /\ (forward Demo.x_float (Some (-1))
             (State (self Demo.with_priors) (gen Demo.with_priors))).1
          = Ok [[Fin (232 # 5); Fin (101 # 2)]].
Proof.
  split; [vm_compute; reflexivity|].
  split; [vm_compute; split; [discriminate|reflexivity]|].
  split; [reflexivity|].
  destruct (forward_negative_mid_wraps (self Demo.with_priors) Demo.x_float (-1)
              (gen Demo.with_priors)) as (m & Hm & _ & Heq & _ & _ & H);
    [vm_compute; reflexivity|vm_compute; split; [discriminate|reflexivity]|].
  split; [exact Heq|].
  destruct H as (d & f & Hd & Hf & _); [reflexivity|].
  exists m, d, f.
  vm_compute in Hm, Hd, Hf.
  injection Hm as <-. injection Hd as <-. injection Hf as <-.
  repeat split; vm_compute; reflexivity.
Defined.

(** C9, as stated, fails on its example of a constructible prototype: a
    [LinearEstimator] keeps its only weight inside the sub-module [linear]
    and has no attribute [weight] of its own, so building an ensemble with
    priors over it raises the attribute error too. *)
Lemma linear_estimator_priors_fail :
  (exists l, Demo.linear_estimator.1 = OfLinearEstimator l)
  /\ getattr Demo.linear_estimator.1 "weight" = Raise AttributeError
  /\ (__init__ Demo.linear_estimator.1 3 1 Demo.linear_estimator.2).1
     = Raise AttributeError.
Proof.
  split; [eexists; vm_compute; reflexivity|].
  split; vm_compute; reflexivity.
Qed.

(** C9, amended.  For every prototype that has no attribute named [weight]
    of its own -- the two-layer [NonLinearEstimator], whose parameters live in
    [fc1] and [fc2], and equally [LinearEstimator], whose weight lives in
    [linear] -- constructing an ensemble of at least one member with beta > 0
    fails with an attribute error during the setup of the priors.  Priors are
    constructible exactly over prototypes that expose [weight] themselves,
    such as a bare linear layer. *)
Theorem priors_need_weight_attribute (proto : module) (B : Z) (b : Q) (w : world) :
  (0 < b)%Q -> 1 <= B ->
  (getattr proto "weight" = Raise AttributeError ->
   (__init__ proto B b w).1 = Raise AttributeError)
  /\ (forall e, getattr (OfNonLinearEstimator e) "weight" = Raise AttributeError)
  /\ (forall e, getattr (OfLinearEstimator e) "weight" = Raise AttributeError)
  /\ (forall l, getattr (OfLinear l) "weight" = Ok (AttrParam (Linear.weight l)))
  /\ ((exists p, getattr proto "weight" = Ok (AttrParam p)) <->
      (exists e, (__init__ proto B b w).1 = Ok e)).
Proof.
  intros Hb HB. apply truthy_pos in Hb.
  split; [|split; [done|split; [done|split; [done|split]]]].
  - intros Hw%getattr_weight_missing.
    destruct (init_without_weight proto B b w Hb Hw HB) as [w' Hrun].
    by rewrite Hrun.
  - intros Hw%getattr_weight_has_weight.
    destruct (init_with_priors proto B b w Hb (or_introl Hw))
      as (ms & fs & g1 & Hrun & _).
    eexists. by rewrite Hrun.
  - intros [e He]. apply getattr_weight_has_weight.
    destruct (has_weight proto) eqn:Hw; [done|].
    destruct (init_without_weight proto B b w Hb Hw HB) as [w' Hrun].
    rewrite Hrun in He. discriminate.
Qed.

Lemma priors_need_weight_attribute_witness :
  (0 < 1)%Q /\ 1 <= 3
  /\ (exists e, Demo.nonlinear_estimator.1 = OfNonLinearEstimator e)
  /\ getattr Demo.nonlinear_estimator.1 "weight" = Raise AttributeError
  /\ (__init__ Demo.nonlinear_estimator.1 3 1 Demo.nonlinear_estimator.2).1
     = Raise AttributeError.
Proof.
  split; [reflexivity|]. split; [discriminate|].
  split; [eexists; vm_compute; reflexivity|].
  split; [vm_compute; reflexivity|].
  apply (priors_need_weight_attribute Demo.nonlinear_estimator.1 3 1
           Demo.nonlinear_estimator.2); [reflexivity|discriminate|].
  vm_compute; reflexivity.
Defined.

(** C10.  [var] is the unbiased sample variance across members: every entry
    is the sum of squared deviations from the mean divided by [B - 1], not by
    [B].  With a single member the divisor is zero and every entry of the
    result is NaN, whatever the member predicts, instead of zero. *)
Theorem var_divides_by_B_minus_1 (e : t) (x : input) (g : generator)
    (y0 : tensor) (ys : list tensor) :
  well_formed e = true ->
  all_ok (map (fun m => call m x) (ensemble e)) = Ok (y0 :: ys) ->
  (exists t,
     (var x None (State e g)).1 = Ok (VTensor t)
     /\ map length t = map length y0
     /\ forall r c row,
          y0 !! r = Some row -> (c < length row)%nat ->
          entry t r c
          = sdiv (ssd (map (fun y => entry y r c) (y0 :: ys)))
                 (of_Z (__len__ e - 1)))
  /\ (__len__ e = 1 ->
      (var x None (State e g)).1 = Ok (VTensor (full_like y0 NaN))
      /\ forall a row,
           y0 !! 0%nat = Some row -> 0 <= a < Z.of_nat (length row) ->
           (var x (Some a) (State e g)).1 = Ok (VScalar NaN))
  /\ (svar [of_Z 1; of_Z 3] = of_Z 2 /\ svar_biased [of_Z 1; of_Z 3] = of_Z 1).
Proof.
  intros Hwf Hok.
  destruct (member_outputs_uniform e x _ Hwf Hok) as [n Hn].
  pose proof (stack_uniform _ _ _ _ Hn) as Hsh.
  assert (Hlen : __len__ e = Z.of_nat (length (y0 :: ys))).
  { unfold __len__. by rewrite (all_ok_length _ _ Hok), length_map. }
  split; [|split; [|split; reflexivity]].
  - exists (var0 (y0 :: ys)). rewrite var_run. simpl fst.
    split; [by apply var_of_members_tensor|].
    split; [apply reduce0_shape|].
    intros r c row Hr Hc. unfold var0.
    rewrite (reduce0_entry svar y0 ys r c row Hr Hc).
    unfold svar. by rewrite length_map, Hlen.
  - intros H1. rewrite H1 in Hlen.
    destruct ys as [|y1 ys]; [|simpl in Hlen; lia].
    split.
    + rewrite var_run. simpl fst.
      rewrite (var_of_members_tensor _ _ _ _ Hok Hsh). by rewrite var0_singleton.
    + intros a row Hrow Ha. rewrite var_run. simpl fst.
      rewrite (var_of_members_scalar _ _ _ _ _ _ Hok Hsh Hrow Ha).
      simpl map. by rewrite svar_singleton.
Qed.

Lemma var_divides_by_B_minus_1_witness :
  well_formed (self Demo.single) = true
  /\ all_ok (map (fun m => call m Demo.x_byte) (ensemble (self Demo.single)))
     = Ok [[[Fin (27 # 5); Fin (61 # 10)]]]
  /\ __len__ (self Demo.single) = 1
  /\ (var Demo.x_byte None (State (self Demo.single) (gen Demo.single))).1
     = Ok (VTensor [[NaN; NaN]])
  /\ (var Demo.x_byte (Some 1) (State (self Demo.single) (gen Demo.single))).1
     = Ok (VScalar NaN).
Proof.
  split; [reflexivity|]. split; [vm_compute; reflexivity|]. split; [reflexivity|].
  destruct (var_divides_by_B_minus_1 (self Demo.single) Demo.x_byte
              (gen Demo.single) [[Fin (27 # 5); Fin (61 # 10)]] [])
    as (_ & H & _).
  - reflexivity.
  - vm_compute; reflexivity.
  - destruct (H eq_refl) as [H1 H2]. split; [exact H1|].
    apply (H2 1 [Fin (27 # 5); Fin (61 # 10)]); [reflexivity|].
    vm_compute; split; [discriminate|reflexivity].
Defined.

(** The same on three members: the divisor is 2, not 3. *)
Example var_plain_divisor :
  (var Demo.x_byte None Demo.plain).1
  = Ok (VTensor [[sdiv (Fin (288 # 25)) (of_Z 2); sdiv (Fin (288 # 25)) (of_Z 2)]])
  /\ ssd [Fin (27 # 5); Fin (39 # 5); Fin (51 # 5)] = Fin (288 # 25).
Proof. split; vm_compute; reflexivity. Qed.

(** * Beyond the claims *)

(** ** Training rounds (rl_routines.py) *)

Lemma irange_lookup n k :
  (k < Z.to_nat n)%nat -> RlRoutines.irange n !! k = Some (Z.of_nat k).
Proof.
  intros Hk. unfold RlRoutines.irange.
  rewrite list_lookup_fmap, lookup_seq_lt by done. reflexivity.
Qed.

Lemma irange_length n : length (RlRoutines.irange n) = Z.to_nat n.
Proof. unfold RlRoutines.irange. by rewrite length_map, length_seq. Qed.

Lemma train_rounds_returns steps interval :
  interval <> 0 ->
  RlRoutines.train_rounds steps interval
  = RlRoutines.Returns
      (map (fun i => (i * interval, i * interval + interval))
         (RlRoutines.irange (steps / interval))).
Proof.
  intros Hi. unfold RlRoutines.train_rounds, RlRoutines.floordiv.
  destruct (Z.eqb_spec interval 0); [done|reflexivity].
Qed.

Lemma train_rounds_lookup steps interval rounds k a b :
  interval <> 0 ->
  RlRoutines.train_rounds steps interval = RlRoutines.Returns rounds ->
  rounds !! k = Some (a, b) ->
  (k < Z.to_nat (steps / interval))%nat
  /\ a = Z.of_nat k * interval /\ b = a + interval.
Proof.
  intros Hi Hr Hk. rewrite (train_rounds_returns _ _ Hi) in Hr.
  injection Hr as <-. rewrite list_lookup_fmap in Hk.
  destruct (RlRoutines.irange _ !! k) as [i|] eqn:Ei; [|done].
  pose proof (lookup_lt_Some _ _ _ Ei) as Hlt. rewrite irange_length in Hlt.
  rewrite irange_lookup in Ei by done. injection Ei as <-.
  simpl in Hk. injection Hk as <- <-. done.
Qed.

(** X1.  [train_rounds] raises ZeroDivisionError exactly when [interval] is
    zero, and does so at the call.  Otherwise it yields
    [max(0, steps // interval)] rounds: none at all when, with a positive
    interval, [steps] is smaller than one interval. *)
Theorem train_rounds_count (steps interval : Z) :
  (interval = 0 <->
   RlRoutines.train_rounds steps interval = RlRoutines.Raises RlRoutines.ZeroDivisionError)
  /\ (interval <> 0 ->
      exists rounds,
        RlRoutines.train_rounds steps interval = RlRoutines.Returns rounds
        /\ Z.of_nat (length rounds) = Z.max 0 (steps / interval)
        /\ (0 < interval -> (rounds = [] <-> steps < interval))).
Proof.
  split.
  - unfold RlRoutines.train_rounds, RlRoutines.floordiv.
    destruct (Z.eqb_spec interval 0); split; done.
  - intros Hi. eexists. split; [by apply train_rounds_returns|].
    rewrite length_map, irange_length. split; [lia|].
    intros Hpos. rewrite <- length_zero_iff_nil, length_map, irange_length.
    split.
    + intros H0. destruct (Z.lt_ge_cases steps interval) as [|Hge]; [done|].
      assert (1 <= steps / interval)
        by (apply Z.div_le_lower_bound; lia).
      lia.
    + intros Hlt. destruct (Z.lt_ge_cases steps 0).
      * assert (steps / interval < 0) by (apply Z.div_lt_upper_bound; lia). lia.
      * rewrite Z.div_small by lia. reflexivity.
Qed.

(** X2.  The rounds are laid end to end from zero: round [k] is
    [(k * interval, k * interval + interval)], so every round spans exactly
    one interval and starts where the previous one ended. *)
Theorem train_rounds_contiguous (steps interval : Z) (rounds : list (Z * Z))
    (k : nat) (a b : Z) :
  interval <> 0 ->
  RlRoutines.train_rounds steps interval = RlRoutines.Returns rounds ->
  rounds !! k = Some (a, b) ->
  a = Z.of_nat k * interval
  /\ b - a = interval
  /\ (k = 0%nat -> a = 0)
  /\ (forall a' b', rounds !! S k = Some (a', b') -> a' = b).
Proof.
  intros Hi Hr Hk.
  destruct (train_rounds_lookup _ _ _ _ _ _ Hi Hr Hk) as (_ & Ha & Hb).
  split; [done|]. split; [lia|]. split; [intros ->; lia|].
  intros a' b' Hk'.
  destruct (train_rounds_lookup _ _ _ _ _ _ Hi Hr Hk') as (_ & Ha' & _). lia.
Qed.

Lemma train_rounds_contiguous_witness :
  5 <> 0
  /\ RlRoutines.train_rounds 12 5 = RlRoutines.Returns [(0, 5); (5, 10)]
  /\ [(0, 5); (5, 10)] !! 1%nat = Some (5, 10)
  /\ 5 = Z.of_nat 1 * 5 /\ 10 - 5 = 5.
Proof.
  split; [discriminate|]. split; [reflexivity|]. split; [reflexivity|].
  destruct (train_rounds_contiguous 12 5 [(0, 5); (5, 10)] 1 5 10)
    as (H1 & H2 & _); [discriminate|reflexivity|reflexivity|].
  split; [exact H1|exact H2].
Defined.

(** X3.  With a positive interval and non-negative [steps], a step [t] lies
    in a round (as [start <= t < end]) exactly when
    [0 <= t < steps - steps % interval], and then in the round of index
    [t // interval] only.  The last [steps % interval] steps, fewer than one
    interval, belong to no round. *)
Theorem train_rounds_cover (steps interval : Z) (rounds : list (Z * Z)) (t : Z) :
  0 < interval -> 0 <= steps ->
  RlRoutines.train_rounds steps interval = RlRoutines.Returns rounds ->
  ((exists k a b, rounds !! k = Some (a, b) /\ a <= t < b)
   <-> 0 <= t < steps - steps mod interval)
  /\ (forall k a b,
        rounds !! k = Some (a, b) -> a <= t < b -> Z.of_nat k = t / interval)
  /\ 0 <= steps mod interval < interval.
Proof.
  intros Hi Hs Hr.
  assert (Hne : interval <> 0) by lia.
  pose proof (Z.div_mod steps interval Hne) as Hdm.
  pose proof (Z.mod_pos_bound steps interval Hi) as Hm.
  assert (Hq : 0 <= steps / interval) by (apply Z.div_pos; lia).
  split; [split|split; [|done]].
  - intros (k & a & b & Hk & Ht).
    destruct (train_rounds_lookup _ _ _ _ _ _ Hne Hr Hk) as (Hlt & -> & ->).
    nia.
  - intros Ht.
    assert (Hk : 0 <= t / interval < steps / interval).
    { split; [apply Z.div_pos; lia|]. apply Z.div_lt_upper_bound; [lia|]. nia. }
    exists (Z.to_nat (t / interval)), (t / interval * interval),
      (t / interval * interval + interval).
    pose proof (Z.div_mod t interval Hne) as Htd.
    pose proof (Z.mod_pos_bound t interval Hi) as Htm.
    split; [|nia].
    rewrite (train_rounds_returns _ _ Hne) in Hr. injection Hr as <-.
    rewrite list_lookup_fmap, irange_lookup by lia. simpl.
    by rewrite Z2Nat.id by lia.
  - intros k a b Hk Ht.
    destruct (train_rounds_lookup _ _ _ _ _ _ Hne Hr Hk) as (_ & -> & ->).
    apply Z.div_unique with (t - Z.of_nat k * interval); lia.
Qed.

Lemma train_rounds_cover_witness :
  0 < 5 /\ 0 <= 12
  /\ RlRoutines.train_rounds 12 5 = RlRoutines.Returns [(0, 5); (5, 10)]
  /\ ~ (exists k a b, [(0, 5); (5, 10)] !! k = Some (a, b) /\ a <= 11 < b)
  /\ 12 mod 5 = 2.
Proof.
  split; [reflexivity|]. split; [discriminate|]. split; [reflexivity|].
  split; [|reflexivity].
  destruct (train_rounds_cover 12 5 [(0, 5); (5, 10)] 11) as (H & _);
    [reflexivity|discriminate|reflexivity|].
  intros Hex. apply H in Hex. vm_compute in Hex. destruct Hex as [_ Hlt].
  discriminate.
Defined.

(** ** Episodes (rl_routines.py) *)

Lemma last_cons_default {A} (l : list A) (x d : A) :
  List.last (x :: l) d = List.last l x.
Proof.
  revert x d. induction l as [|y l IH]; intros x d; [reflexivity|].
  change (List.last (x :: y :: l) d) with (List.last (y :: l) d).
  by rewrite !IH.
Qed.

Section EpisodeFacts.

Import RlRoutines.
Context {Obs Act Pi EnvState PolicyState : Type}.
Variable env : Env Obs Act EnvState.
Variable policy : Policy Obs Act Pi PolicyState.

Lemma next_done (self : Episode) (h : heap EnvState PolicyState) :
  is_done self = true -> next env policy self h = (None, self, h).
Proof. intros Hd. unfold next. by rewrite Hd. Qed.

Lemma next_live (self : Episode) (h : heap EnvState PolicyState) :
  is_done self = false ->
  exists t self' h',
    next env policy self h = (Some t, self', h')
    /\ t_state t = state self /\ t_next t = state self'
    /\ t_done t = is_done self'
    /\ R self' = (R self + t_reward t)%Q
    /\ step_cnt self' = step_cnt self + 1
    /\ rlog h' = rlog h.
Proof.
  intros Hd. unfold next. rewrite Hd.
  destruct (policy_act policy (state self) (the_policy h)) as [_pi p'].
  destruct (env_step env (pi_action policy _pi) (the_env h))
    as [[[s' r] d] e'].
  eexists _, _, _. split; [reflexivity|]. simpl. tauto.
Qed.

Lemma next_n_done n (self : Episode) (h : heap EnvState PolicyState) :
  is_done self = true -> next_n env policy n self h = ([], self, h).
Proof.
  intros Hd. induction n as [|n IH]; [reflexivity|].
  simpl. rewrite (next_done _ _ Hd), IH. reflexivity.
Qed.

Lemma next_n_cons n (self : Episode) (h : heap EnvState PolicyState) t self' h' :
  next env policy self h = (Some t, self', h') ->
  next_n env policy (S n) self h
  = let '(ts, self'', h'') := next_n env policy n self' h' in
    (t :: ts, self'', h'').
Proof. intros Hn. simpl. by rewrite Hn. Qed.

Lemma next_n_trace n : forall (self : Episode) (h : heap EnvState PolicyState) ts self' h',
  next_n env policy n self h = (ts, self', h') ->
  step_cnt self' = step_cnt self + Z.of_nat (length ts)
  /\ R self' = fold_left Qplus (map t_reward ts) (R self)
  /\ (length ts <= n)%nat
  /\ ((length ts < n)%nat -> is_done self' = true)
  /\ (is_done self = false -> (1 <= n)%nat -> ts <> [])
  /\ map t_state ts = take (length ts) (state self :: map t_next ts)
  /\ state self' = List.last (map t_next ts) (state self)
  /\ is_done self' = List.last (map t_done ts) (is_done self)
  /\ (forall k, (S k < length ts)%nat -> map t_done ts !! k = Some false)
  /\ rlog h' = rlog h.
Proof.
  induction n as [|n IH]; intros self h ts self' h' Hrun.
  - simpl in Hrun. injection Hrun as <- <- <-. simpl.
    repeat split; try done; try lia.
  - destruct (is_done self) eqn:Hd.
    + rewrite (next_n_done _ _ _ Hd) in Hrun. injection Hrun as <- <- <-.
      simpl. repeat split; try done; try lia.
    + destruct (next_live self h Hd)
        as (t & s1 & h1 & Hn & Hs & Hnx & Hdn & HR & Hc & Hl).
      rewrite (next_n_cons _ _ _ _ _ _ Hn) in Hrun.
      destruct (next_n env policy n s1 h1) as [[ts1 s2] h2] eqn:Hrest.
      injection Hrun as <- <- <-.
      destruct (IH _ _ _ _ _ Hrest)
        as (Ic & IR & Ile & Idone & _ & Ist & Ilast & Idl & Ifalse & Ilog).
      assert (Hlive : forall x, ts1 = x :: tl ts1 -> is_done s1 = false).
      { intros x Hx. destruct (is_done s1) eqn:Hd1; [|done].
        rewrite (next_n_done _ _ _ Hd1) in Hrest.
        injection Hrest as <- _ _. done. }
      split; [simpl length; lia|].
      split; [simpl; by rewrite IR, HR|].
      split; [simpl; lia|].
      split; [simpl; intros; apply Idone; lia|].
      split; [done|].
      split; [rewrite <- Hnx in Ist; cbn [map length]; rewrite Ist, Hs; reflexivity|].
      split.
      { rewrite Ilast, <- Hnx. cbn [map]. by rewrite last_cons_default. }
      split.
      { rewrite Idl, <- Hdn. cbn [map]. by rewrite last_cons_default. }
      split; [|congruence].
      intros [|k] Hk; simpl in Hk.
      * simpl. rewrite Hdn. f_equal.
        destruct ts1 as [|x ts1]; [simpl in Hk; lia|].
        by apply (Hlive x).
      * simpl. apply Ifalse. lia.
Qed.

End EpisodeFacts.

Section EpisodeProperties.

Import RlRoutines.
Context {Obs Act Pi EnvState PolicyState : Type}.
Variable env : Env Obs Act EnvState.
Variable policy : Policy Obs Act Pi PolicyState.

Lemma Episode_init_fresh st (h : heap EnvState PolicyState) ep0 h0 :
  Episode_init env st h = (ep0, h0) ->
  is_done ep0 = false /\ R ep0 = 0%Q /\ step_cnt ep0 = -1
  /\ state ep0 = match st with
                 | Some s => s
                 | None => (env_reset env (the_env h)).1
                 end
  /\ rlog h0 = rlog h /\ the_policy h0 = the_policy h
  /\ (st <> None -> h0 = h).
Proof.
  unfold Episode_init. destruct st as [s|].
  - intros [= <- <-]. simpl. tauto.
  - destruct (env_reset env (the_env h)) as [s e']. intros [= <- <-].
    simpl. tauto.
Qed.

Lemma next_n_app n m : forall (self : Episode) (h : heap EnvState PolicyState),
  next_n env policy (n + m) self h
  = let '(ts, self', h') := next_n env policy n self h in
    let '(ts', self'', h'') := next_n env policy m self' h' in
    (ts ++ ts', self'', h'').
Proof.
  induction n as [|n IH]; intros self h.
  - simpl. by destruct (next_n env policy m self h) as [[? ?] ?].
  - change (S n + m)%nat with (S (n + m)). cbn [next_n].
    destruct (next env policy self h) as [[[t|] s1] h1]; rewrite IH;
      destruct (next_n env policy n s1 h1) as [[ts s2] h2];
      by destruct (next_n env policy m s2 h2) as [[ts' s3] h3].
Qed.

(** X4.  The counters of an episode, after any number of [__next__] calls
    on a newly made one: [steps] is one less than the number of tuples
    returned (it starts at -1, so it reads 0 after the first step), and
    [Rt] is the plain, undiscounted sum of the rewards returned, added in
    order from 0.  The first call never raises StopIteration, and fewer
    tuples than calls means the episode is over. *)
Theorem episode_counters (st : option Obs) (h h0 h' : heap EnvState PolicyState)
    (ep0 ep : Episode) (n : nat) (ts : list transition) :
  Episode_init env st h = (ep0, h0) ->
  next_n env policy n ep0 h0 = (ts, ep, h') ->
  steps ep = Z.of_nat (length ts) - 1
  /\ Rt ep = fold_left Qplus (map t_reward ts) 0%Q
  /\ (length ts <= n)%nat
  /\ ((1 <= n)%nat -> ts <> [])
  /\ ((length ts < n)%nat -> is_done ep = true).
Proof.
  intros Hinit Hrun.
  destruct (Episode_init_fresh _ _ _ _ Hinit) as (Hd & HR & Hc & _).
  destruct (next_n_trace env policy _ _ _ _ _ _ Hrun)
    as (Ic & IR & Ile & Idone & Ine & _).
  unfold steps, Rt. rewrite Ic, IR, Hc, HR.
  split; [lia|]. split; [done|]. split; [done|]. split; [by apply Ine|done].
Qed.

(** X5.  The tuples of an episode chain: the first starts in the state the
    episode was given, or, when none was given, in the one [env.reset()]
    returned (a given state leaves the environment untouched); every later
    tuple starts in the state the previous one ended in; and only the last
    tuple returned can carry [done = True].  The episode's own state and
    done flag are those of the last tuple. *)
Theorem episode_chain (st : option Obs) (h h0 h' : heap EnvState PolicyState)
    (ep0 ep : Episode) (n : nat) (ts : list transition) :
  Episode_init env st h = (ep0, h0) ->
  next_n env policy n ep0 h0 = (ts, ep, h') ->
  let s0 := match st with
            | Some s => s
            | None => (env_reset env (the_env h)).1
            end in
  (st <> None -> h0 = h)
  /\ map t_state ts = take (length ts) (s0 :: map t_next ts)
  /\ (forall k, (S k < length ts)%nat -> map t_done ts !! k = Some false)
  /\ state ep = List.last (map t_next ts) s0
  /\ is_done ep = List.last (map t_done ts) false.
Proof.
  intros Hinit Hrun s0.
  destruct (Episode_init_fresh _ _ _ _ Hinit) as (Hd & _ & _ & Hs & _ & _ & Hh).
  destruct (next_n_trace env policy _ _ _ _ _ _ Hrun)
    as (_ & _ & _ & _ & _ & Ist & Ilast & Idl & Ifalse & _).
  rewrite Hs in Ist, Ilast. rewrite Hd in Idl. done.
Qed.

(** X6.  StopIteration is final.  Once a run of [__next__] calls has
    returned fewer tuples than calls, any number of further calls returns
    nothing more and changes neither the episode nor the environment, the
    policy or the log. *)
Theorem episode_exhausted (self ep : Episode) (h h' : heap EnvState PolicyState)
    (n m : nat) (ts : list transition) :
  next_n env policy n self h = (ts, ep, h') ->
  (length ts < n)%nat ->
  next_n env policy (n + m) self h = (ts, ep, h').
Proof.
  intros Hrun Hlt.
  destruct (next_n_trace env policy _ _ _ _ _ _ Hrun)
    as (_ & _ & _ & Idone & _).
  rewrite next_n_app, Hrun, (next_n_done env policy m _ _ (Idone Hlt)).
  by rewrite app_nil_r.
Qed.

(** *** validate *)

Lemma validate_for_gen n_steps : forall fuel (ep : Episode) cnt
    (h : heap EnvState PolicyState),
  cnt < n_steps -> (Z.to_nat (n_steps - cnt) <= fuel)%nat ->
  exists d cnt' h' es,
    validate_for env policy n_steps fuel ep cnt h = Some (d, cnt', h')
    /\ rlog h' = rlog h ++ es
    /\ Z.of_nat (length es) = cnt' - cnt
    /\ Forall (fun e => val_frames e = 1) es
    /\ (d = true -> cnt' = n_steps)
    /\ (d = false -> cnt' < n_steps)
    /\ (is_done ep = false -> cnt < cnt').
Proof.
  induction fuel as [|fuel IH]; intros ep cnt h Hlt Hfuel; [lia|].
  destruct (is_done ep) eqn:Hd.
  - exists false, cnt, h, []. cbn [validate_for]. rewrite (next_done _ _ _ _ Hd).
    rewrite app_nil_r. simpl. repeat split; try done; lia.
  - destruct (next_live env policy ep h Hd)
      as (t & ep1 & h1 & Hn & _ & _ & _ & _ & _ & Hl).
    cbn [validate_for]. rewrite Hn. destruct t as [[[[s p] r] s'] d0].
    set (h2 := rlog_put r d0 1 h1).
    assert (Hl2 : rlog h2
                  = rlog h ++ [{| reward := r; done := d0; val_frames := 1 |}])
      by (unfold h2, rlog_put; simpl; by rewrite Hl).
    rewrite Z.geb_leb. destruct (Z.leb_spec n_steps (cnt + 1)) as [Hge|Hnot].
    + exists true, (cnt + 1), h2, [{| reward := r; done := d0; val_frames := 1 |}].
      split; [done|]. split; [done|]. split; [simpl; lia|].
      split; [by repeat constructor|]. repeat split; intros; try done; lia.
    + destruct (IH ep1 (cnt + 1) h2) as (d & cnt' & h' & es & Hv & Hlog & Hlen
                                         & Hall & Ht & Hf & _); [lia|lia|].
      exists d, cnt', h',
        ({| reward := r; done := d0; val_frames := 1 |} :: es).
      split; [done|]. split; [by rewrite Hlog, Hl2, <- app_assoc|].
      split; [simpl length; lia|]. split; [by constructor|].
      split; [done|]. split; [done|]. intros _.
      assert (0 <= Z.of_nat (length es)) by lia. lia.
Qed.

Lemma validate_for_fresh n_steps fuel (ep : Episode) cnt
    (h : heap EnvState PolicyState) :
  is_done ep = false ->
  (Z.to_nat (Z.max (cnt + 1) n_steps - cnt) <= fuel)%nat ->
  exists d cnt' h' es,
    validate_for env policy n_steps fuel ep cnt h = Some (d, cnt', h')
    /\ rlog h' = rlog h ++ es
    /\ Z.of_nat (length es) = cnt' - cnt
    /\ Forall (fun e => val_frames e = 1) es
    /\ (d = true -> cnt' = Z.max (cnt + 1) n_steps)
    /\ (d = false -> cnt' < n_steps)
    /\ cnt < cnt'.
Proof.
  intros Hd Hfuel. destruct (Z.lt_ge_cases cnt n_steps) as [Hlt|Hge].
  - destruct (validate_for_gen n_steps fuel ep cnt h Hlt)
      as (d & cnt' & h' & es & Hv & Hlog & Hlen & Hall & Ht & Hf & Hp); [lia|].
    exists d, cnt', h', es. repeat split; try done; [|by apply Hp].
    intros Hdt. rewrite (Ht Hdt). lia.
  - destruct fuel as [|fuel]; [lia|].
    destruct (next_live env policy ep h Hd)
      as (t & ep1 & h1 & Hn & _ & _ & _ & _ & _ & Hl).
    cbn [validate_for]. rewrite Hn. destruct t as [[[[s p] r] s'] d0].
    rewrite Z.geb_leb. destruct (Z.leb_spec n_steps (cnt + 1)) as [_|Hnot]; [|lia].
    exists true, (cnt + 1), (rlog_put r d0 1 h1),
      [{| reward := r; done := d0; val_frames := 1 |}].
    split; [done|]. split; [unfold rlog_put; simpl; by rewrite Hl|].
    split; [simpl; lia|]. split; [by repeat constructor|].
    repeat split; intros; try done; lia.
Qed.

Lemma validate_while_done n_steps fuel inner cnt (h : heap EnvState PolicyState) :
  validate_while env policy n_steps fuel inner true cnt h = Some (cnt, h).
Proof. by destruct fuel. Qed.

Lemma validate_while_runs n_steps inner : forall fuel cnt
    (h : heap EnvState PolicyState),
  (Z.to_nat (Z.max (cnt + 1) n_steps - cnt) <= fuel)%nat ->
  (Z.to_nat (Z.max (cnt + 1) n_steps - cnt) <= inner)%nat ->
  exists h' es,
    validate_while env policy n_steps fuel inner false cnt h
    = Some (Z.max (cnt + 1) n_steps, h')
    /\ rlog h' = rlog h ++ es
    /\ Z.of_nat (length es) = Z.max (cnt + 1) n_steps - cnt
    /\ Forall (fun e => val_frames e = 1) es.
Proof.
  induction fuel as [|fuel IH]; intros cnt h Hfuel Hinner; [lia|].
  cbn [validate_while].
  destruct (Episode_init env None h) as [ep h1] eqn:Hinit.
  destruct (Episode_init_fresh _ _ _ _ Hinit) as (Hd & _ & _ & _ & Hl1 & _).
  destruct (validate_for_fresh n_steps inner ep cnt h1 Hd Hinner)
    as (d & cnt' & h2 & es & Hv & Hlog & Hlen & Hall & Ht & Hf & Hp).
  rewrite Hv. destruct d.
  - rewrite validate_while_done, (Ht eq_refl).
    exists h2, es. rewrite <- Hl1, <- (Ht eq_refl). done.
  - specialize (Hf eq_refl).
    assert (Hmax : Z.max (cnt' + 1) n_steps = Z.max (cnt + 1) n_steps) by lia.
    destruct (IH cnt' h2) as (h' & es' & Hw & Hlog' & Hlen' & Hall');
      [lia|lia|].
    rewrite Hw, Hmax. exists h', (es ++ es').
    split; [done|]. split; [by rewrite Hlog', Hlog, Hl1, <- app_assoc|].
    split; [rewrite length_app; lia|]. by apply Forall_app.
Qed.

Lemma validate_for_mono n_steps : forall fuel fuel' (ep : Episode) cnt
    (h : heap EnvState PolicyState) r,
  validate_for env policy n_steps fuel ep cnt h = Some r ->
  (fuel <= fuel')%nat ->
  validate_for env policy n_steps fuel' ep cnt h = Some r.
Proof.
  induction fuel as [|fuel IH]; intros fuel' ep cnt h r Hv Hle; [done|].
  destruct fuel' as [|fuel']; [lia|]. cbn [validate_for] in *.
  destruct (next env policy ep h) as [[[t|] ep1] h1]; [|done].
  destruct t as [[[[s p] rw] s'] d0].
  destruct (cnt + 1 >=? n_steps); [done|]. apply IH; [done|lia].
Qed.

Lemma validate_while_mono n_steps : forall fuel fuel' inner inner' d cnt
    (h : heap EnvState PolicyState) r,
  validate_while env policy n_steps fuel inner d cnt h = Some r ->
  (fuel <= fuel')%nat -> (inner <= inner')%nat ->
  validate_while env policy n_steps fuel' inner' d cnt h = Some r.
Proof.
  induction fuel as [|fuel IH]; intros fuel' inner inner' d cnt h r Hv Hle Hin.
  - destruct d; [|done]. by rewrite validate_while_done in *.
  - destruct d; [by rewrite validate_while_done in *|].
    destruct fuel' as [|fuel']; [lia|]. cbn [validate_while] in *.
    destruct (Episode_init env None h) as [ep h1].
    destruct (validate_for env policy n_steps inner ep cnt h1)
      as [[[d' cnt'] h2]|] eqn:Hv'; [|done].
    rewrite (validate_for_mono _ _ _ _ _ _ _ Hv' Hin).
    apply (IH fuel' inner inner'); [done|lia|done].
Qed.

(** X7.  [validate] always comes to an end, whatever the environment and
    the policy do (even if no episode ever ends): it logs exactly
    [max(1, steps)] environment steps, each with [val_frames = 1], across as
    many episodes as that takes, and closes the environment last.  A
    [steps] of zero or less still takes one step.  The bound on the number
    of loop rounds is only that of the model: any larger one gives the same
    result. *)
Theorem validate_terminates (n_steps : Z) (fuel : nat)
    (h : heap EnvState PolicyState) :
  (Z.to_nat (Z.max 1 n_steps) <= fuel)%nat ->
  exists h' es e,
    validate env policy n_steps fuel h = Some h'
    /\ rlog h' = rlog h ++ es
    /\ Z.of_nat (length es) = Z.max 1 n_steps
    /\ Forall (fun e => val_frames e = 1) es
    /\ the_env h' = env_close env e
    /\ (forall fuel', (fuel <= fuel')%nat ->
          validate env policy n_steps fuel' h = Some h').
Proof.
  intros Hfuel.
  destruct (validate_while_runs n_steps fuel fuel 0 h)
    as (h' & es & Hw & Hlog & Hlen & Hall);
    [simpl; lia|simpl; lia|].
  unfold validate. rewrite Hw.
  eexists _, es, (the_env h'). split; [reflexivity|]. simpl.
  split; [done|]. split; [simpl in Hlen; lia|]. split; [done|].
  split; [done|]. intros fuel' Hle.
  by rewrite (validate_while_mono _ _ _ _ _ _ _ _ _ Hw Hle Hle).
Qed.

End EpisodeProperties.

Lemma episode_counters_witness :
  RlRoutines.Episode_init RlRoutines.corridor None RlRoutines.corridor0
  = RlRoutines.corridor_start
  /\ RlRoutines.steps (RlRoutines.corridor_walk 5).1.2 = 2
  /\ RlRoutines.Rt (RlRoutines.corridor_walk 5).1.2 = (3 # 1)%Q
  /\ length (RlRoutines.corridor_walk 5).1.1 = 3%nat
  /\ RlRoutines.is_done (RlRoutines.corridor_walk 5).1.2 = true.
Proof.
  split; [reflexivity|].
  destruct (episode_counters RlRoutines.corridor RlRoutines.walker None
              RlRoutines.corridor0 RlRoutines.corridor_start.2
              (RlRoutines.corridor_walk 5).2 RlRoutines.corridor_start.1
              (RlRoutines.corridor_walk 5).1.2 5
              (RlRoutines.corridor_walk 5).1.1 eq_refl eq_refl)
    as (H1 & H2 & _ & _ & H5).
  split; [exact H1|]. split; [exact H2|]. split; [reflexivity|].
  apply H5. vm_compute. lia.
Defined.

Lemma episode_chain_witness :
  RlRoutines.Episode_init RlRoutines.corridor (Some 1) RlRoutines.corridor0
  = ({| RlRoutines.R := 0; RlRoutines.step_cnt := -1;
        RlRoutines.state := 1; RlRoutines.is_done := false |},
     RlRoutines.corridor0)
  /\ map RlRoutines.t_state
       (RlRoutines.next_n RlRoutines.corridor RlRoutines.walker 4
          {| RlRoutines.R := 0; RlRoutines.step_cnt := -1;
             RlRoutines.state := 1; RlRoutines.is_done := false |}
          RlRoutines.corridor0).1.1
     = [1; 1; 2]
  /\ map RlRoutines.t_next
       (RlRoutines.next_n RlRoutines.corridor RlRoutines.walker 4
          {| RlRoutines.R := 0; RlRoutines.step_cnt := -1;
             RlRoutines.state := 1; RlRoutines.is_done := false |}
          RlRoutines.corridor0).1.1
     = [1; 2; 3].
Proof.
  split; [reflexivity|].
  edestruct (episode_chain RlRoutines.corridor RlRoutines.walker (Some 1)
               RlRoutines.corridor0 _ _ _ _ 4 _ eq_refl eq_refl)
    as (_ & H & _).
  split; [exact H|reflexivity].
Defined.

Lemma episode_exhausted_witness :
  (length (RlRoutines.corridor_walk 4).1.1 < 4)%nat
  /\ RlRoutines.corridor_walk (4 + 3) = RlRoutines.corridor_walk 4.
Proof.
  split; [vm_compute; lia|].
  apply (episode_exhausted RlRoutines.corridor RlRoutines.walker
           RlRoutines.corridor_start.1 (RlRoutines.corridor_walk 4).1.2
           RlRoutines.corridor_start.2 (RlRoutines.corridor_walk 4).2 4 3
           (RlRoutines.corridor_walk 4).1.1).
  - reflexivity.
  - vm_compute. lia.
Defined.

Lemma validate_terminates_witness :
  (Z.to_nat (Z.max 1 5) <= 5)%nat
  /\ exists h',
      RlRoutines.validate RlRoutines.corridor RlRoutines.walker 5 5
        RlRoutines.corridor0 = Some h'
      /\ length (RlRoutines.rlog h') = 5%nat
      /\ RlRoutines.closed (RlRoutines.the_env h') = true
      /\ RlRoutines.resets (RlRoutines.the_env h') = 2.
Proof.
  split; [vm_compute; lia|].
  destruct (validate_terminates RlRoutines.corridor RlRoutines.walker 5 5
              RlRoutines.corridor0) as (h' & es & e & Hv & _);
    [vm_compute; lia|].
  exists h'. split; [exact Hv|].
  vm_compute in Hv. injection Hv as <-. repeat split.
Defined.

(** ** The ensemble beyond the claims (models.py) *)

Lemma range_nonpositive B : B <= 0 -> range B = [].
Proof. intros HB. unfold range. by replace (Z.to_nat B) with 0%nat by lia. Qed.

Lemma forward_some_no_priors e x mid g :
  priors e = [] ->
  forward x (Some mid) (State e g)
  = (m ← getitem (ensemble e) mid; call m x, State e g).
Proof.
  intros Hp. unfold forward.
  rewrite run_bind. unfold get_self at 1. cbv iota beta.
  rewrite run_bind. unfold lift at 1, self at 1.
  destruct (getitem (ensemble e) mid) as [m|err]; [|reflexivity].
  change (Ok m ≫= ?k) with (k m). cbv beta.
  rewrite run_bind. unfold lift at 1.
  destruct (call m x) as [y|err]; [|reflexivity].
  change (Ok y ≫= ?k) with (k y). cbv beta. unfold self at 1.
  by rewrite Hp.
Qed.

Lemma step_no_priors e g o : priors e = [] -> step (State e g) o = State e g.
Proof.
  intros Hp. destruct o as [x [mid|]|x action]; unfold step.
  - by rewrite forward_some_no_priors.
  - by rewrite forward_none_no_priors.
  - by rewrite var_run.
Qed.

(** X8.  A size [B <= 0] is accepted without complaint: [__init__] returns
    an ensemble with no members (for any prototype and any [beta], even one
    whose priors could not be built), allocating nothing and drawing no
    random number.  On that object [len] is 0 and there is no parameter
    group; [forward(x)] and [var(x)] raise RuntimeError (nothing to stack)
    and [forward(x, mid)] raises IndexError for every [mid]. *)
Theorem empty_ensemble (proto : module) (B : Z) (b : Q) (w : world)
    (x : input) (g : generator) :
  B <= 0 ->
  let e0 := {| ensemble := []; bno := B; beta := b;
               prior_fns := []; priors := [] |} in
  __init__ proto B b w = (Ok e0, w)
  /\ __len__ e0 = 0 /\ parameters e0 = [] /\ __iter__ e0 = []
  /\ forward x None (State e0 g) = (Raise RuntimeError, State e0 g)
  /\ (forall mid, forward x (Some mid) (State e0 g) = (Raise IndexError, State e0 g))
  /\ (forall action, var x action (State e0 g) = (Raise RuntimeError, State e0 g)).
Proof.
  intros HB e0. split.
  - unfold __init__. rewrite (range_nonpositive _ HB).
    destruct w as [r n]. by destruct (truthy b).
  - split; [reflexivity|]. split; [reflexivity|]. split; [reflexivity|].
    split; [reflexivity|]. split.
    + intros mid. apply forward_index_error.
      apply norm_index_outside. simpl. lia.
    + intros action. rewrite var_run. by destruct action.
Qed.

Lemma empty_ensemble_witness :
  -1 <= 0
  /\ Demo.construct Demo.nonlinear_estimator (-1) 1
     = (Ok {| ensemble := []; bno := -1; beta := 1;
              prior_fns := []; priors := [] |},
        Demo.nonlinear_estimator.2).
Proof.
  split; [discriminate|].
  exact (proj1 (empty_ensemble Demo.nonlinear_estimator.1 (-1) 1
                  Demo.nonlinear_estimator.2 Demo.x_byte Demo.tape
                  ltac:(discriminate))).
Defined.

(** X9.  An ensemble built without priors ([beta] zero) is never changed by
    its methods: whatever sequence of [forward] and [var] calls is made,
    with whatever arguments and whether they return or raise, the object
    stays as constructed and the random generator is not advanced. *)
Theorem no_priors_no_effects (proto : module) (B : Z) (b : Q) (w w' : world)
    (e : t) (ops : list op) (g : generator) :
  (b == 0)%Q ->
  __init__ proto B b w = (Ok e, w') ->
  run ops (State e g) = State e g.
Proof.
  intros Hb Hinit.
  assert (Hp : priors e = []).
  { destruct (init_ok _ _ _ _ _ _ Hinit) as (_ & _ & _ & [(_ & _ & Hp)|(Ht & _)]);
      [done|].
    apply truthy_false in Hb. congruence. }
  induction ops as [|o ops IH]; [reflexivity|].
  unfold run. simpl. rewrite (step_no_priors _ _ _ Hp). apply IH.
Qed.

Lemma no_priors_no_effects_witness :
  (0 == 0)%Q
  /\ __init__ Demo.linear_estimator.1 3 0 Demo.linear_estimator.2
     = (Ok (self Demo.plain), (Demo.construct Demo.linear_estimator 3 0).2)
  /\ run [Forward Demo.x_byte (Some 1); Forward Demo.x_float None;
          Var Demo.x_byte (Some 7)] (State (self Demo.plain) (gen Demo.plain))
     = State (self Demo.plain) (gen Demo.plain).
Proof.
  split; [reflexivity|]. split; [vm_compute; reflexivity|].
  apply (no_priors_no_effects Demo.linear_estimator.1 3 0
           Demo.linear_estimator.2 (Demo.construct Demo.linear_estimator 3 0).2
           (self Demo.plain)
           [Forward Demo.x_byte (Some 1); Forward Demo.x_float None;
            Var Demo.x_byte (Some 7)]
           (gen Demo.plain)); [reflexivity|vm_compute; reflexivity].
Defined.

Lemma forward_each_no_priors x e g : forall ms pre,
  priors e = [] ->
  ensemble e = pre ++ ms ->
  forward_each x (map Z.of_nat (seq (length pre) (length ms))) (State e g)
  = (map (fun m => call m x) ms, State e g).
Proof.
  induction ms as [|m ms IH]; intros pre Hp He; [reflexivity|].
  cbn [length seq map forward_each].
  rewrite (forward_some_no_priors _ _ _ _ Hp).
  rewrite (getitem_Some _ _ (length pre) m).
  - change (Ok m ≫= ?k) with (k m). cbv beta.
    specialize (IH (pre ++ [m]) Hp).
    rewrite length_app, Nat.add_1_r in IH.
    rewrite IH; [reflexivity|]. by rewrite <- app_assoc.
  - rewrite He, length_app. simpl length.
    rewrite norm_index_nonneg by lia. by rewrite Nat2Z.id.
  - rewrite He. by apply list_lookup_middle.
Qed.

Lemma forward_each_priors x : forall ms fs ds pre_m pre_f pre_d e g,
  well_formed e = true ->
  ensemble e = pre_m ++ ms -> prior_fns e = pre_f ++ fs ->
  priors e = pre_d ++ ds ->
  length pre_f = length pre_m -> length pre_d = length pre_m ->
  length fs = length ms -> length ds = length ms ->
  Forall (fun f => has_weight f = true) (prior_fns e) ->
  Forall (fun m => exists y, call m x = Ok y) ms ->
  forward_each x (map Z.of_nat (seq (length pre_m) (length ms))) (State e g)
  = (zip_with (fun m p => a ← call m x; b ← call p x; tensor_add a b)
       ms (resample ds fs g).1,
     State (with_prior_fns e (pre_f ++ (resample ds fs g).1))
           (resample ds fs g).2).
Proof.
  induction ms as [|m ms IH];
    intros fs ds pre_m pre_f pre_d e g Hwf He Hf Hd Hlf Hld Hfs Hds Hw Hok.
  - destruct fs; [|done]. destruct ds; [|done].
    cbn [length seq map forward_each resample fst snd].
    rewrite app_nil_r in Hf |- *. by rewrite <- Hf, with_prior_fns_id.
  - destruct fs as [|f fs]; [done|]. destruct ds as [|d ds]; [done|].
    cbn [length seq map forward_each].
    assert (Hi : norm_index (length (ensemble e)) (Z.of_nat (length pre_m))
                 = Some (length pre_m)).
    { rewrite He, length_app. simpl length.
      rewrite norm_index_nonneg by lia. by rewrite Nat2Z.id. }
    assert (Hm : ensemble e !! length pre_m = Some m)
      by (rewrite He; by apply list_lookup_middle).
    rewrite (forward_at _ _ _ _ _ _ Hwf Hi Hm).
    apply Forall_cons in Hok as [[y Hy] Hok]. rewrite Hy.
    rewrite Hd, Hf.
    rewrite (list_lookup_middle pre_d ds d (length pre_m)) by done.
    rewrite (list_lookup_middle pre_f fs f (length pre_m)) by done.
    cbv zeta.
    rewrite <- Hlf, insert_app_r_alt, Nat.sub_diag by lia. cbn [insert list_insert].
    set (f' := reweight f (Normal.sample d g).1).
    set (g1 := (Normal.sample d g).2).
    set (e1 := with_prior_fns e (pre_f ++ f' :: fs)).
    assert (Hw1 : Forall (fun f0 => has_weight f0 = true) (pre_f ++ f' :: fs)).
    { rewrite Hf in Hw. apply Forall_app in Hw as [Hw1 Hw2].
      apply Forall_cons in Hw2 as [Hwf0 Hw2].
      apply Forall_app. split; [done|]. constructor; [|done].
      unfold f'. by rewrite has_weight_reweight. }
    specialize (IH fs ds (pre_m ++ [m]) (pre_f ++ [f']) (pre_d ++ [d]) e1 g1).
    rewrite !length_app in IH. cbn [length] in IH.
    rewrite (Nat.add_1_r (length pre_m)) in IH.
    rewrite Hlf.
    rewrite IH.
    + cbn [resample]. fold g1.
      destruct (Normal.sample d g) as [w g1'] eqn:Hs. simpl in f', g1.
      subst g1. destruct (resample ds fs g1') as [fs'' g2] eqn:Hr. simpl.
      unfold e1. rewrite with_prior_fns_twice, <- app_assoc. simpl.
      rewrite Hy. reflexivity.
    + unfold e1. apply well_formed_with_prior_fns; [done| |done].
      rewrite Hf, !length_app. reflexivity.
    + unfold e1. simpl. by rewrite He, <- app_assoc.
    + unfold e1. simpl. by rewrite <- app_assoc.
    + unfold e1. simpl. by rewrite Hd, <- app_assoc.
    + lia.
    + lia.
    + simpl in Hfs. lia.
    + simpl in Hds. lia.
    + done.
    + done.
Qed.

Lemma all_ok_accepts x (ms : list module) : forall ys,
  all_ok (map (fun m => call m x) ms) = Ok ys ->
  Forall (fun m => exists y, call m x = Ok y) ms.
Proof.
  induction ms as [|m ms IH]; intros ys Hys; [constructor|].
  unfold all_ok in *. simpl in Hys.
  destruct (call m x) as [y|] eqn:Hy; [|discriminate].
  change (Ok y ≫= ?k) with (k y) in Hys. cbv beta in Hys.
  destruct (for_each_pure (fun r => r) (map (fun m => call m x) ms)) as [ys'|] eqn:Hr;
    [|discriminate].
  constructor; [by exists y|]. by apply (IH ys').
Qed.

(** X10.  Inference over the ensemble is the per-member calls composed:
    [forward(x)] returns the mean of what [forward(x, 0)], ...,
    [forward(x, B - 1)] return when made in that order, and leaves the
    object and the random generator exactly as those calls leave them (the
    prior functions resampled with the same draws).  With priors this needs
    every member to accept [x]: a per-member call whose member raises
    samples nothing, while [forward(x)] resamples every prior first. *)
Theorem forward_is_mean_of_member_calls (e : t) (x : input) (g : generator) :
  well_formed e = true ->
  priors e = [] \/ Forall (fun m => exists y, call m x = Ok y) (ensemble e) ->
  let calls :=
    forward_each x (map Z.of_nat (seq 0 (length (ensemble e)))) (State e g) in
  forward x None (State e g) = (mean_of_stacked calls.1, calls.2).
Proof.
  intros Hwf Hok calls.
  assert (Hnp : priors e = [] ->
                forward x None (State e g) = (mean_of_stacked calls.1, calls.2)).
  { intros Hp. unfold calls.
    pose proof (forward_each_no_priors x e g (ensemble e) [] Hp eq_refl) as H.
    change (length (@nil module)) with 0%nat in H. rewrite H.
    by apply forward_none_no_priors. }
  destruct (well_formed_cases _ Hwf) as [(_ & Hp & _)|(_ & Hlp & Hlf & Hw)];
    [by apply Hnp|].
  destruct Hok as [Hp|Hok]; [by apply Hnp|].
  assert (Hd : priors e = [] \/ priors e <> [])
    by (destruct (priors e); [by left|by right]).
  destruct Hd as [Hd|Hd]; [by apply Hnp|].
  rewrite forward_none_priors by done.
  unfold calls.
  pose proof (forward_each_priors x (ensemble e) (prior_fns e) (priors e)
                [] [] [] e g Hwf eq_refl eq_refl eq_refl eq_refl eq_refl)
    as H.
  change (length (@nil module)) with 0%nat in H.
  by rewrite H.
Qed.

Lemma forward_is_mean_of_member_calls_witness :
  well_formed (self Demo.with_priors) = true
  /\ Forall (fun m => exists y, call m Demo.x_float = Ok y)
       (ensemble (self Demo.with_priors))
  /\ forward Demo.x_float None
       (State (self Demo.with_priors) (gen Demo.with_priors))
     = (mean_of_stacked
          (forward_each Demo.x_float (map Z.of_nat (seq 0 3))
             (State (self Demo.with_priors) (gen Demo.with_priors))).1,
        (forward_each Demo.x_float (map Z.of_nat (seq 0 3))
           (State (self Demo.with_priors) (gen Demo.with_priors))).2).
Proof.
  assert (Hok : Forall (fun m => exists y, call m Demo.x_float = Ok y)
                  (ensemble (self Demo.with_priors))).
  { apply (all_ok_accepts _ _
             [[[Fin (15 # 2); Fin (37 # 4)]]; [[Fin (27 # 2); Fin (61 # 4)]];
              [[Fin (39 # 2); Fin (85 # 4)]]]).
    vm_compute; reflexivity. }
  assert (Hlen : length (ensemble (self Demo.with_priors)) = 3%nat)
    by (vm_compute; reflexivity).
  split; [vm_compute; reflexivity|]. split; [exact Hok|].
  pose proof (forward_is_mean_of_member_calls (self Demo.with_priors)
                Demo.x_float (gen Demo.with_priors)) as H.
  cbv zeta in H. rewrite Hlen in H.
  apply H; [vm_compute; reflexivity|right; exact Hok].
Defined.

Lemma var_action_row e x m0 ys :
  well_formed e = true ->
  ensemble e !! 0%nat = Some m0 ->
  x_values x <> [] ->
  all_ok (map (fun m => call m x) (ensemble e)) = Ok ys ->
  exists row,
    length row = out_features m0
    /\ forall a, var_of_members (ensemble e) x (Some a)
                 = (v ← getitem row a; Ok (VScalar v)).
Proof.
  intros Hwf Hm0 Hx Hys.
  destruct (member_outputs_uniform _ _ _ Hwf Hys) as (n & Hshape).
  pose proof (all_ok_length _ _ Hys) as Hlen. rewrite length_map in Hlen.
  destruct ys as [|y0 ys].
  { apply lookup_lt_Some in Hm0. simpl in Hlen. lia. }
  assert (Hy0 : call m0 x = Ok y0).
  { pose proof (all_ok_lookup _ _ 0%nat y0 Hys eq_refl) as H0.
    rewrite list_lookup_fmap, Hm0 in H0. by injection H0. }
  pose proof (call_shape _ _ _ Hy0) as Hs0.
  pose proof (stack_uniform _ _ _ _ Hshape) as Hst.
  pose proof (reduce0_shape svar y0 ys) as Hv. fold (var0 (y0 :: ys)) in Hv.
  rewrite Hs0 in Hv.
  destruct (x_values x) as [|r rs] eqn:Hxv; [done|].
  cbn [length replicate] in Hv.
  destruct (var0 (y0 :: ys)) as [|row rows] eqn:Hvar;
    [cbn [map] in Hv; discriminate|].
  cbn [map] in Hv. injection Hv as Hrow _. exists row. split; [done|].
  intros a. unfold var_of_members. rewrite Hys.
  change (Ok (y0 :: ys) ≫= ?k) with (k (y0 :: ys)). cbv beta.
  unfold stack. rewrite Hst.
  change (Ok (y0 :: ys) ≫= ?k) with (k (y0 :: ys)). cbv beta.
  rewrite Hvar. reflexivity.
Qed.

(** X11.  The [action] of [var(x, action)] is an ordinary index into the
    row of per-action variances, whose length is the members' output width:
    a negative [action] counts from the last action, so [var(x, -1)] is the
    variance of the last action, and an [action] outside [-width, width)
    raises IndexError.  (For a non-empty batch [x] that every member
    accepts.) *)
Theorem var_action_index (e : t) (x : input) (g : generator) (m0 : module)
    (ys : list tensor) (action : Z) :
  well_formed e = true ->
  ensemble e !! 0%nat = Some m0 ->
  x_values x <> [] ->
  all_ok (map (fun m => call m x) (ensemble e)) = Ok ys ->
  let width := Z.of_nat (out_features m0) in
  (- width <= action < 0 ->
   var x (Some action) (State e g) = var x (Some (width + action)) (State e g))
  /\ (action < - width \/ width <= action ->
      var x (Some action) (State e g) = (Raise IndexError, State e g))
  /\ (- width <= action < width ->
      exists v, var x (Some action) (State e g) = (Ok (VScalar v), State e g)).
Proof.
  intros Hwf Hm0 Hx Hys width.
  destruct (var_action_row _ _ _ _ Hwf Hm0 Hx Hys) as (row & Hrow & Hvar).
  rewrite !var_run, !Hvar. unfold width. rewrite <- Hrow.
  split; [|split].
  - intros Ha. unfold getitem.
    rewrite (norm_index_negative _ _ Ha), norm_index_nonneg by lia.
    reflexivity.
  - intros Ha. rewrite getitem_outside; [reflexivity|].
    by apply norm_index_outside.
  - intros Ha. unfold getitem.
    destruct (norm_index (length row) action) as [j|] eqn:Hj.
    + pose proof (norm_index_lt _ _ _ Hj) as Hlt.
      destruct (lookup_lt_is_Some_2 row j Hlt) as [v Hv].
      rewrite Hv. by exists v.
    + destruct (Z.lt_ge_cases action 0).
      * rewrite norm_index_negative in Hj by lia. done.
      * rewrite norm_index_nonneg in Hj by lia. done.
Qed.

Lemma var_action_index_witness :
  well_formed (self Demo.plain) = true
  /\ x_values Demo.x_byte <> []
  /\ var Demo.x_byte (Some (-1)) (State (self Demo.plain) (gen Demo.plain))
     = var Demo.x_byte (Some (Z.of_nat 2 + -1))
         (State (self Demo.plain) (gen Demo.plain))
  /\ var Demo.x_byte (Some 2) (State (self Demo.plain) (gen Demo.plain))
     = (Raise IndexError, State (self Demo.plain) (gen Demo.plain)).
Proof.
  assert (Hwf : well_formed (self Demo.plain) = true)
    by (vm_compute; reflexivity).
  split; [exact Hwf|]. split; [discriminate|].
  destruct (all_ok (map (fun m => call m Demo.x_byte) (ensemble (self Demo.plain))))
    as [ys|err] eqn:Hys; [|vm_compute in Hys; discriminate].
  destruct (ensemble (self Demo.plain) !! 0%nat) as [m0|] eqn:Hm0;
    [|vm_compute in Hm0; discriminate].
  assert (Hw : out_features m0 = 2%nat)
    by (vm_compute in Hm0; injection Hm0 as <-; reflexivity).
  split.
  - destruct (var_action_index (self Demo.plain) Demo.x_byte (gen Demo.plain)
                m0 ys (-1) Hwf Hm0 ltac:(discriminate) Hys) as (H & _).
    rewrite Hw in H. apply H. lia.
  - destruct (var_action_index (self Demo.plain) Demo.x_byte (gen Demo.plain)
                m0 ys 2 Hwf Hm0 ltac:(discriminate) Hys) as (_ & H & _).
    rewrite Hw in H. apply H. lia.
Defined.

(** ** The estimators and their factory (models.py) *)

Lemma draw_length d n g : length (draw d n g).1 = n.
Proof. unfold draw. simpl. by rewrite length_map, length_seq. Qed.

Lemma draw_like_shape d t : forall g, map length (draw_like d t g).1 = map length t.
Proof.
  induction t as [|row t IH]; intros g; [reflexivity|].
  cbn [draw_like].
  pose proof (draw_length d (length row) g) as Hr.
  destruct (draw d (length row) g) as [r g1]. specialize (IH g1).
  destruct (draw_like d t g1) as [rs g2]. simpl in *. by rewrite Hr, IH.
Qed.

Lemma zip_with_shape {A B C} (f : A -> B -> C) (a : list (list A)) :
  forall (b : list (list B)),
  map length a = map length b ->
  map length (zip_with (zip_with f) a b) = map length a.
Proof.
  induction a as [|r a IH]; intros [|r' b] Hs; try done.
  simpl in *. injection Hs as Hr Hs.
  rewrite length_zip_with, <- Hr, Nat.min_id. f_equal. by apply IH.
Qed.

Lemma torch_normal_shape mean std g :
  map length mean = map length std ->
  map length (torch_normal mean std g).1 = map length mean.
Proof.
  intros Hs. unfold torch_normal.
  pose proof (draw_like_shape StdNormal mean g) as Hd.
  destruct (draw_like StdNormal mean g) as [eps g']. simpl in *.
  assert (Hz : map length (zip_with zip mean std) = map length mean)
    by (by apply zip_with_shape).
  rewrite zip_with_shape; [done|]. by rewrite Hz, Hd.
Qed.

Lemma full_like_shape t v : map length (full_like t v) = map length t.
Proof.
  unfold full_like. rewrite map_map. apply map_ext. intros r. apply length_map.
Qed.

Lemma normal_shape t mean std g : map length (normal_ t mean std g).1 = map length t.
Proof.
  unfold normal_. rewrite torch_normal_shape; by rewrite !full_like_shape.
Qed.

Lemma linear_reset_shaped l w i o :
  linear_shaped l i o ->
  exists l' g',
    Linear.reset_parameters l w = (Ok l', {| rng := g'; next_id := next_id w |})
    /\ linear_shaped l' i o.
Proof.
  intros [Hw Hb]. unfold Linear.reset_parameters.
  rewrite run_bind, with_rng_run. cbv iota beta.
  rewrite run_bind, with_rng_run. cbv iota beta.
  eexists _, _. split; [reflexivity|].
  split; simpl; by rewrite draw_like_shape.
Qed.

Lemma replicate_shape {A} o i (v : A) :
  map length (replicate o (replicate i v)) = replicate o i.
Proof. induction o; simpl; [done|]. by rewrite length_replicate, IHo. Qed.

Lemma linear_new_shaped i o w :
  exists l w', Linear.new i o w = (Ok l, w') /\ linear_shaped l i o.
Proof.
  unfold Linear.new.
  rewrite run_bind. unfold fresh at 1. cbv iota beta.
  rewrite run_bind. unfold fresh at 1. cbv iota beta.
  rewrite run_bind. unfold fresh at 1. cbv iota beta.
  edestruct linear_reset_shaped as (l' & g' & Hr & Hs); [|rewrite Hr; eauto].
  split; simpl; [apply replicate_shape|by rewrite length_replicate].
Qed.

Lemma linear_estimator_reset_shaped e w i o :
  linear_shaped (LinearEstimator.linear e) i o ->
  exists e' g',
    LinearEstimator.reset_parameters e w
    = (Ok e', {| rng := g'; next_id := next_id w |})
    /\ linear_shaped (LinearEstimator.linear e') i o.
Proof.
  intros [Hw Hb]. unfold LinearEstimator.reset_parameters.
  rewrite run_bind, with_rng_run. cbv iota beta.
  rewrite run_bind, with_rng_run. cbv iota beta.
  eexists _, _. split; [reflexivity|].
  split; simpl; by rewrite normal_shape.
Qed.

Lemma nonlinear_estimator_reset_shaped e w i h o :
  linear_shaped (NonLinearEstimator.fc1 e) i h ->
  linear_shaped (NonLinearEstimator.fc2 e) h o ->
  exists e' g',
    NonLinearEstimator.reset_parameters e w
    = (Ok e', {| rng := g'; next_id := next_id w |})
    /\ linear_shaped (NonLinearEstimator.fc1 e') i h
    /\ linear_shaped (NonLinearEstimator.fc2 e') h o.
Proof.
  intros H1 H2. unfold NonLinearEstimator.reset_parameters.
  destruct (linear_reset_shaped _ w _ _ H1) as (l1 & g1 & Hr1 & Hs1).
  rewrite run_bind, Hr1.
  destruct (linear_reset_shaped _ {| rng := g1; next_id := next_id w |} _ _ H2)
    as (l2 & g2 & Hr2 & Hs2).
  rewrite run_bind, Hr2. eexists _, _. split; [reflexivity|]. by split.
Qed.

Lemma reset_parameters_shaped m w i o :
  shaped m i o ->
  exists m' g',
    reset_parameters m w = (Ok m', {| rng := g'; next_id := next_id w |})
    /\ shaped m' i o /\ kind_of m' = kind_of m.
Proof.
  destruct m as [l|e|e]; simpl; intros Hs; unfold fmap, M_fmap.
  - destruct (linear_reset_shaped l w _ _ Hs) as (l' & g' & Hr & Hs').
    rewrite Hr. by exists (OfLinear l'), g'.
  - destruct (linear_estimator_reset_shaped e w _ _ Hs) as (e' & g' & Hr & Hs').
    rewrite Hr. by exists (OfLinearEstimator e'), g'.
  - destruct Hs as [H1 H2].
    destruct (nonlinear_estimator_reset_shaped e w _ _ _ H1 H2)
      as (e' & g' & Hr & Hs').
    rewrite Hr. by exists (OfNonLinearEstimator e'), g'.
Qed.


Lemma linear_estimator_new_shaped i o w :
  exists e w',
    LinearEstimator.new i o w = (Ok e, w')
    /\ linear_shaped (LinearEstimator.linear e) i o.
Proof.
  unfold LinearEstimator.new.
  rewrite run_bind. unfold fresh at 1. cbv iota beta.
  edestruct (linear_new_shaped i o) as (l & w1 & Hl & Hs).
  rewrite run_bind, Hl.
  edestruct (linear_estimator_reset_shaped
               {| LinearEstimator.id := next_id w; LinearEstimator.linear := l |})
    as (e' & g' & Hr & Hs'); [exact Hs|].
  rewrite Hr. eauto.
Qed.

Lemma nonlinear_estimator_new_shaped i o w :
  exists e w',
    NonLinearEstimator.new i o w = (Ok e, w')
    /\ shaped (OfNonLinearEstimator e) i o.
Proof.
  unfold NonLinearEstimator.new. cbv zeta.
  rewrite run_bind. unfold fresh at 1. cbv iota beta.
  edestruct (linear_new_shaped i (Nat.max 2 ((i + 1) / 2))) as (l1 & w1 & Hl1 & Hs1).
  rewrite run_bind, Hl1.
  edestruct (linear_new_shaped (Nat.max 2 ((i + 1) / 2)) o) as (l2 & w2 & Hl2 & Hs2).
  rewrite run_bind, Hl2.
  edestruct (nonlinear_estimator_reset_shaped
               {| NonLinearEstimator.id := next_id w;
                  NonLinearEstimator.fc1 := l1; NonLinearEstimator.fc2 := l2 |})
    as (e' & g' & Hr & Hs'); [exact Hs1|exact Hs2|].
  rewrite Hr. eexists _, _. split; [reflexivity|]. exact Hs'.
Qed.

Lemma kind_of_erase m m' : erase m' = erase m -> kind_of m' = kind_of m.
Proof. by destruct m, m'. Qed.

Lemma shaped_erase m m' i o : erase m' = erase m -> shaped m i o -> shaped m' i o.
Proof.
  destruct m as [l|e|e], m' as [l'|e'|e']; try done; simpl; unfold linear_shaped.
  - intros [= Hw _ Hb _]. by rewrite Hw, Hb.
  - intros [= Hw _ Hb _]. by rewrite Hw, Hb.
  - intros [= Hw1 _ Hb1 _ Hw2 _ Hb2 _]. by rewrite Hw1, Hb1, Hw2, Hb2.
Qed.

Lemma forallb_row_length (x : tensor) i : forall rows,
  map length x = replicate rows i ->
  forallb (fun r => Nat.eqb (length r) i) x = true.
Proof.
  induction x as [|r x IH]; intros [|rows] Hs; try done.
  simpl in *. injection Hs as Hr Hs. rewrite Hr, Nat.eqb_refl. by apply (IH rows).
Qed.

Lemma linear_forward_shaped l i o (x : tensor) rows :
  linear_shaped l i o -> (1 <= o)%nat ->
  map length x = replicate rows i ->
  exists y, Linear.forward l x = Ok y /\ map length y = replicate rows o.
Proof.
  intros [Hw Hb] Ho Hx. unfold Linear.forward.
  assert (Hlw : length (data (Linear.weight l)) = o)
    by (rewrite <- (length_map length), Hw; apply length_replicate).
  assert (Hlx : length x = rows)
    by (rewrite <- (length_map length), Hx; apply length_replicate).
  assert (Hlb : length (concat (data (Linear.bias l))) = o).
  { destruct (data (Linear.bias l)) as [|r [|? ?]]; try done.
    simpl in *. rewrite app_nil_r. by injection Hb. }
  destruct (F_linear x (data (Linear.weight l)) (concat (data (Linear.bias l))))
    as [y|err] eqn:Hf.
  - exists y. split; [done|]. by rewrite (F_linear_shape _ _ _ _ Hf), Hlx, Hlw.
  - exfalso. unfold F_linear in Hf.
    destruct (data (Linear.weight l)) as [|wr ws] eqn:Hd; [simpl in Hlw; lia|].
    destruct o as [|o']; [lia|]. simpl in Hw. injection Hw as Hwr Hws.
    rewrite (forallb_row_length x _ rows) in Hf by (by rewrite Hwr).
    rewrite (forallb_row_length (wr :: ws) _ (S o')) in Hf
      by (simpl; by rewrite Hwr, Hws).
    rewrite Hlb, Hlw, Nat.eqb_refl in Hf. done.
Qed.

Lemma linear_forward_mismatch l i o (x : tensor) rows j :
  linear_shaped l i o -> (1 <= o)%nat -> (1 <= rows)%nat ->
  map length x = replicate rows j -> j <> i ->
  Linear.forward l x = Raise RuntimeError.
Proof.
  intros [Hw Hb] Ho Hrows Hx Hj. unfold Linear.forward, F_linear.
  destruct (data (Linear.weight l)) as [|wr ws] eqn:Hd.
  { destruct o; [lia|done]. }
  destruct o as [|o']; [lia|]. simpl in Hw. injection Hw as Hwr Hws.
  destruct rows as [|rows']; [lia|]. destruct x as [|r x]; [done|].
  simpl in Hx. injection Hx as Hr Hx.
  cbn [forallb]. rewrite Hr, Hwr.
  by destruct (Nat.eqb_spec j i).
Qed.

Lemma F_relu_shape t : map length (F_relu t) = map length t.
Proof.
  unfold F_relu. rewrite map_map. apply map_ext. intros r. apply length_map.
Qed.

Lemma call_shaped m i o x rows :
  shaped m i o -> kind_of m <> KLinear -> (1 <= o)%nat ->
  (1 <= rows)%nat -> (1 <= i)%nat ->
  byte_batch x rows i ->
  exists y, call m x = Ok y /\ map length y = replicate rows o.
Proof.
  intros Hs Hk Ho Hrows Hi [Hd Hx]. destruct m as [l|e|e]; [done| |]; simpl.
  - unfold LinearEstimator.forward.
    rewrite Hd, (view_rows_batch x rows i Hrows Hi Hx).
    change (Ok (x_values x) ≫= ?k) with (k (x_values x)). cbv beta.
    by apply (linear_forward_shaped _ i).
  - unfold NonLinearEstimator.forward.
    rewrite Hd, (view_rows_batch x rows i Hrows Hi Hx).
    change (Ok (x_values x) ≫= ?k) with (k (x_values x)). cbv beta.
    destruct Hs as [H1 H2].
    destruct (linear_forward_shaped _ _ _ (x_values x) rows H1)
      as (h & Hh & Hsh); [lia|done|].
    rewrite Hh. change (Ok h ≫= ?k) with (k h). cbv beta.
    apply (linear_forward_shaped _ _ _ (F_relu h) rows H2); [done|].
    by rewrite F_relu_shape.
Qed.

Lemma call_wrong_dtype m x :
  kind_of m <> KLinear -> x_dtype x = Float32 -> call m x = Raise AssertionError.
Proof.
  intros Hk Hd. destruct m as [l|e|e]; [done| |]; simpl.
  - unfold LinearEstimator.forward. by rewrite Hd.
  - unfold NonLinearEstimator.forward. by rewrite Hd.
Qed.

Lemma call_mismatch m i o x rows j :
  shaped m i o -> kind_of m <> KLinear -> (1 <= o)%nat -> (1 <= rows)%nat ->
  byte_batch x rows j -> j <> i ->
  call m x = Raise RuntimeError.
Proof.
  intros Hs Hk Ho Hrows [Hd Hx] Hj.
  assert (Hv : view_rows x = Raise RuntimeError
               \/ view_rows x = Ok (x_values x)).
  { destruct j as [|j]; [left; by apply (view_rows_no_features x rows)|].
    right. apply (view_rows_batch x rows (S j)); [done|lia|done]. }
  destruct m as [l|e|e]; [done| |]; simpl.
  - unfold LinearEstimator.forward. rewrite Hd.
    destruct Hv as [->| ->]; [reflexivity|].
    change (Ok (x_values x) ≫= ?k) with (k (x_values x)). cbv beta.
    by apply (linear_forward_mismatch _ i o _ rows j).
  - unfold NonLinearEstimator.forward. rewrite Hd. destruct Hs as [H1 H2].
    destruct Hv as [->| ->]; [reflexivity|].
    change (Ok (x_values x) ≫= ?k) with (k (x_values x)). cbv beta.
    rewrite (linear_forward_mismatch _ _ _ (x_values x) rows j H1);
      [done|lia|done|done|done].
Qed.

Lemma new_estimator_run (linear : bool) i o w :
  exists m w',
    (if linear
     then OfLinearEstimator <$> LinearEstimator.new i o
     else OfNonLinearEstimator <$> NonLinearEstimator.new i o) w = (Ok m, w')
    /\ shaped m i o
    /\ kind_of m = (if linear then KLinearEstimator else KNonLinearEstimator).
Proof.
  destruct linear; unfold fmap, M_fmap.
  - destruct (linear_estimator_new_shaped i o w) as (e & w' & He & Hs).
    rewrite He. by exists (OfLinearEstimator e), w'.
  - destruct (nonlinear_estimator_new_shaped i o w) as (e & w' & He & Hs).
    rewrite He. by exists (OfNonLinearEstimator e), w'.
Qed.

Lemma for_each_reset_shaped i o k (ms : list module) :
  forall w,
  Forall (fun m => shaped m i o /\ kind_of m = k) ms ->
  exists ms' g',
    for_each reset_parameters ms w = (Ok ms', {| rng := g'; next_id := next_id w |})
    /\ Forall (fun m => shaped m i o /\ kind_of m = k) ms'.
Proof.
  induction ms as [|m ms IH]; intros w Hall.
  { exists [], (rng w). destruct w. by split. }
  apply Forall_cons in Hall as [[Hs Hk] Hall].
  destruct (reset_parameters_shaped m w _ _ Hs) as (m' & g1 & Hm & Hs' & Hk').
  destruct (IH {| rng := g1; next_id := next_id w |} Hall) as (ms' & g2 & Hms & Hall').
  exists (m' :: ms'), g2. rewrite for_each_cons, Hm, Hms. simpl.
  split; [reflexivity|]. constructor; [|done]. split; [done|congruence].
Qed.

Lemma init_shaped proto B w e w' i o :
  __init__ proto B 0 w = (Ok e, w') ->
  shaped proto i o ->
  Forall (fun m => shaped m i o /\ kind_of m = kind_of proto) (ensemble e).
Proof.
  intros Hinit Hs. unfold __init__ in Hinit.
  destruct (for_each_deepcopy (fun _ : nat => proto) (range B) w)
    as (cs & Hcs & Hall & _).
  rewrite run_bind, Hcs in Hinit. cbv iota beta in Hinit.
  assert (Hcs' : Forall (fun m => shaped m i o /\ kind_of m = kind_of proto) cs).
  { clear -Hall Hs. induction Hall as [|a c l cs He _ IH]; constructor; [|done].
    split; [by eapply shaped_erase|by apply kind_of_erase]. }
  destruct (for_each_reset_shaped i o _ cs
              {| rng := rng w; next_id := total_identities cs + next_id w |} Hcs')
    as (ms & g1 & Hms & Hall').
  rewrite run_bind, Hms in Hinit. cbv iota beta in Hinit.
  change (truthy 0) with false in Hinit. cbv iota in Hinit.
  injection Hinit as <- _. exact Hall'.
Qed.

Lemma get_estimator_unfold opt w :
  0 <= opt_N opt * er_hist_len opt ->
  exists proto w1,
    built_for opt proto
    /\ get_estimator opt w
       = (if negb (estimator_ensemble opt =? 0)
          then Ensemble <$> __init__ proto (estimator_ensemble opt) 0
          else mret (Single proto)) w1.
Proof.
  intros Hin. unfold get_estimator. cbv zeta.
  destruct (Z.ltb_spec (opt_N opt * er_hist_len opt) 0) as [|_]; [lia|].
  destruct (new_estimator_run (estimator_linear opt)
              (Z.to_nat (opt_N opt * er_hist_len opt)) 2 w)
    as (proto & w1 & Hp & Hs & Hk).
  exists proto, w1. split; [by split|]. by rewrite run_bind, Hp.
Qed.

Lemma shaped_out_features m i o : shaped m i o -> out_features m = o.
Proof.
  destruct m as [l|e|e]; simpl; unfold linear_shaped.
  - intros [Hw _]. rewrite <- (length_map length), Hw. apply length_replicate.
  - intros [Hw _]. rewrite <- (length_map length), Hw. apply length_replicate.
  - intros [_ [Hw _]]. rewrite <- (length_map length), Hw. apply length_replicate.
Qed.

Lemma all_ok_calls (P : tensor -> Prop) x (ms : list module) :
  Forall (fun m => exists y, call m x = Ok y /\ P y) ms ->
  exists ys,
    all_ok (map (fun m => call m x) ms) = Ok ys
    /\ Forall P ys /\ length ys = length ms.
Proof.
  induction 1 as [|m ms (y & Hy & HP) _ (ys & Hys & HPs & Hlen)].
  - by exists [].
  - exists (y :: ys). unfold all_ok in *. simpl. rewrite Hy.
    change (Ok y ≫= ?k) with (k y). cbv beta. rewrite Hys.
    split; [reflexivity|]. split; [by constructor|]. simpl. by rewrite Hlen.
Qed.

(** X12.  A newly built [LinearEstimator] or [NonLinearEstimator] with
    [in_size] inputs and [out_size] outputs accepts exactly the byte batches
    of [in_size] features: on such a batch of [rows >= 1] states it returns
    a [rows] by [out_size] tensor; on a float batch it fails its assertion;
    on a byte batch with another number of features the first layer raises
    RuntimeError.  ([in_size >= 1]: a view of a batch without features is
    outside the model.) *)
Theorem estimators_accept_byte_batches (linear : bool) (in_size out_size : nat)
    (w : world) :
  (1 <= in_size)%nat -> (1 <= out_size)%nat ->
  exists m w',
    (if linear
     then OfLinearEstimator <$> LinearEstimator.new in_size out_size
     else OfNonLinearEstimator <$> NonLinearEstimator.new in_size out_size) w
    = (Ok m, w')
    /\ forall x rows, (1 <= rows)%nat ->
         (byte_batch x rows in_size ->
          exists y, call m x = Ok y /\ map length y = replicate rows out_size)
         /\ (x_dtype x = Float32 -> call m x = Raise AssertionError)
         /\ (forall j, j <> in_size -> byte_batch x rows j ->
             call m x = Raise RuntimeError).
Proof.
  intros Hin Ho.
  destruct (new_estimator_run linear in_size out_size w) as (m & w' & Hm & Hs & Hk).
  exists m, w'. split; [done|]. intros x rows Hrows.
  assert (Hnl : kind_of m <> KLinear) by (rewrite Hk; by destruct linear).
  split; [|split].
  - intros Hx. by apply (call_shaped m in_size out_size x rows).
  - intros Hd. by apply call_wrong_dtype.
  - intros j Hj Hx. by apply (call_mismatch m in_size out_size x rows j).
Qed.

(** X13.  [get_estimator] raises RuntimeError when [opt.N * opt.er.hist_len]
    is negative, and otherwise returns: the prototype itself when
    [opt.estimator.ensemble] is 0; for any other value, negative ones
    included, an ensemble without priors ([beta] 0) of
    [max(0, opt.estimator.ensemble)] members.  Prototype and members are of
    the class [opt.estimator.linear] selects, with [N * hist_len] inputs and
    two outputs. *)
Theorem get_estimator_builds (opt : options) (w : world) :
  (opt_N opt * er_hist_len opt < 0 ->
   get_estimator opt w = (Raise RuntimeError, w))
  /\ (0 <= opt_N opt * er_hist_len opt ->
      exists r w',
        get_estimator opt w = (Ok r, w')
        /\ match r with
           | Single m => estimator_ensemble opt = 0 /\ built_for opt m
           | Ensemble e =>
               estimator_ensemble opt <> 0
               /\ __len__ e = Z.max 0 (estimator_ensemble opt)
               /\ beta e = 0%Q /\ priors e = [] /\ prior_fns e = []
               /\ well_formed e = true
               /\ Forall (built_for opt) (ensemble e)
           end).
Proof.
  split.
  - intros Hneg. unfold get_estimator. cbv zeta.
    destruct (Z.ltb_spec (opt_N opt * er_hist_len opt) 0) as [_|]; [|lia].
    reflexivity.
  - intros Hin.
    destruct (get_estimator_unfold opt w Hin) as (proto & w1 & [Hs Hk] & Hrun).
    rewrite Hrun. destruct (Z.eqb_spec (estimator_ensemble opt) 0) as [H0|H0].
    + exists (Single proto), w1. by repeat split.
    + cbn [negb]. unfold fmap, M_fmap.
      destruct (init_without_priors proto (estimator_ensemble opt) 0 w1 eq_refl)
        as (ms & g1 & Hinit & Hms).
      rewrite Hinit. eexists (Ensemble _), _. split; [reflexivity|].
      pose proof (init_shaped _ _ _ _ _ _ _ Hinit Hs) as Hsh.
      pose proof (init_well_formed _ _ _ _ _ _ Hinit) as Hwf.
      destruct Hms as (Hlen & _). simpl in *.
      split; [done|]. split; [unfold __len__; simpl; lia|].
      split; [done|]. split; [done|]. split; [done|]. split; [done|].
      eapply Forall_impl; [exact Hsh|]. intros m [Hm Hkm]. split; congruence.
Qed.

(** X14.  An ensemble made by [get_estimator] never fails on a well-formed
    query.  For [B >= 1] members over [N * hist_len >= 1] features and a
    byte batch of [rows >= 1] such states: [forward(x)] and [forward(x, mid)]
    for [-B <= mid < B] return a [rows] by 2 tensor, [var(x)] returns a
    [rows] by 2 tensor and [var(x, action)] a scalar for
    [-2 <= action < 2]; none of them changes the object or draws a random
    number. *)
Theorem factory_ensemble_predicts (opt : options) (w w' : world) (e : t)
    (x : input) (rows : nat) (g : generator) :
  get_estimator opt w = (Ok (Ensemble e), w') ->
  1 <= estimator_ensemble opt ->
  1 <= opt_N opt * er_hist_len opt ->
  (1 <= rows)%nat ->
  byte_batch x rows (Z.to_nat (opt_N opt * er_hist_len opt)) ->
  (exists y, forward x None (State e g) = (Ok y, State e g)
             /\ map length y = replicate rows 2%nat)
  /\ (forall mid,
        - estimator_ensemble opt <= mid < estimator_ensemble opt ->
        exists y, forward x (Some mid) (State e g) = (Ok y, State e g)
                  /\ map length y = replicate rows 2%nat)
  /\ (exists v, var x None (State e g) = (Ok (VTensor v), State e g)
                /\ map length v = replicate rows 2%nat)
  /\ (forall action, -2 <= action < 2 ->
        exists v, var x (Some action) (State e g) = (Ok (VScalar v), State e g)).
Proof.
  intros Hrun HB Hin Hrows Hx.
  destruct (get_estimator_unfold opt w ltac:(lia)) as (proto & w1 & [Hs Hk] & Hrun').
  rewrite Hrun' in Hrun.
  destruct (Z.eqb_spec (estimator_ensemble opt) 0) as [|_]; [lia|].
  cbn [negb] in Hrun. unfold fmap, M_fmap in Hrun.
  destruct (__init__ proto (estimator_ensemble opt) 0 w1) as [[e1|err] w2] eqn:Hinit;
    [|done].
  injection Hrun as -> ->.
  pose proof (init_shaped _ _ _ _ _ _ _ Hinit Hs) as Hsh.
  pose proof (init_well_formed _ _ _ _ _ _ Hinit) as Hwf.
  destruct (init_ok _ _ _ _ _ _ Hinit) as (_ & _ & (Hlen & _) & Hpri).
  assert (Hp : priors e = []).
  { destruct Hpri as [(_ & _ & Hp)|(Ht & _)]; [done|done]. }
  assert (Hcalls : Forall (fun m => exists y, call m x = Ok y
                     /\ map length y = replicate rows 2%nat) (ensemble e)).
  { eapply Forall_impl; [exact Hsh|]. intros m [Hm Hkm].
    eapply call_shaped; [exact Hm| |lia|exact Hrows|lia|exact Hx].
    rewrite Hkm, Hk. by destruct (estimator_linear opt). }
  destruct (all_ok_calls _ _ _ Hcalls) as (ys & Hys & Hshape & Hlys).
  assert (Hne : ys <> []).
  { intros ->. simpl in Hlys. lia. }
  split; [|split; [|split]].
  - rewrite (forward_none_no_priors _ _ _ Hp).
    rewrite (mean_of_stacked_uniform rows 2 _ ys Hys Hne Hshape).
    eexists. split; [reflexivity|].
    destruct ys as [|y0 ys]; [done|]. unfold mean0. rewrite reduce0_shape.
    by apply Forall_cons in Hshape as [? _].
  - intros mid Hmid. rewrite (forward_some_no_priors _ _ _ _ Hp).
    assert (exists j, norm_index (length (ensemble e)) mid = Some j) as [j Hj].
    { destruct (Z.lt_ge_cases mid 0).
      - eexists. apply norm_index_negative. lia.
      - eexists. apply norm_index_nonneg. lia. }
    destruct (lookup_lt_is_Some_2 (ensemble e) j (norm_index_lt _ _ _ Hj)) as [m Hm].
    rewrite (getitem_Some _ _ _ _ Hj Hm).
    change (Ok m ≫= ?k) with (k m). cbv beta.
    destruct (proj1 (Forall_lookup _ _) Hcalls j m Hm) as (y & Hy & Hsy).
    rewrite Hy. by exists y.
  - rewrite var_run. destruct ys as [|y0 ys]; [done|].
    rewrite (var_of_members_tensor _ _ _ _ Hys (stack_uniform _ _ _ _ Hshape)).
    eexists. split; [reflexivity|]. unfold var0. rewrite reduce0_shape.
    by apply Forall_cons in Hshape as [? _].
  - intros action Ha.
    destruct (lookup_lt_is_Some_2 (ensemble e) 0%nat ltac:(lia)) as [m0 Hm0].
    assert (Hxne : x_values x <> []).
    { destruct Hx as [_ Hx]. destruct (x_values x); [|done].
      destruct rows; [lia|done]. }
    destruct (var_action_row _ _ _ _ Hwf Hm0 Hxne Hys) as (row & Hrow & Hvar).
    rewrite var_run, Hvar.
    assert (Hw : out_features m0 = 2%nat).
    { destruct (proj1 (Forall_lookup _ _) Hsh 0%nat m0 Hm0) as [Hm _].
      by eapply shaped_out_features. }
    rewrite Hw in Hrow. unfold getitem.
    assert (exists j, norm_index (length row) action = Some j) as [j Hj].
    { destruct (Z.lt_ge_cases action 0).
      - eexists. apply norm_index_negative. lia.
      - eexists. apply norm_index_nonneg. lia. }
    rewrite Hj.
    destruct (lookup_lt_is_Some_2 row j (norm_index_lt _ _ _ Hj)) as [v Hv].
    rewrite Hv. by exists v.
Qed.

Lemma estimators_accept_byte_batches_witness :
  (1 <= 2)%nat
  /\ exists m w',
      (OfNonLinearEstimator <$> NonLinearEstimator.new 2 2) Demo.world0 = (Ok m, w')
      /\ exists y, call m Demo.x_byte = Ok y /\ map length y = [2%nat].
Proof.
  split; [lia|].
  destruct (estimators_accept_byte_batches false 2 2 Demo.world0)
    as (m & w' & Hm & H); [lia|lia|].
  exists m, w'. split; [exact Hm|].
  apply (H Demo.x_byte 1%nat); [lia|]. split; reflexivity.
Defined.

Lemma factory_ensemble_predicts_witness :
  1 <= estimator_ensemble Demo.opt
  /\ 1 <= opt_N Demo.opt * er_hist_len Demo.opt
  /\ byte_batch Demo.x_byte 1 (Z.to_nat (opt_N Demo.opt * er_hist_len Demo.opt))
  /\ exists e w',
      get_estimator Demo.opt Demo.world0 = (Ok (Ensemble e), w')
      /\ exists y,
          forward Demo.x_byte None (State e Demo.tape) = (Ok y, State e Demo.tape)
          /\ map length y = [2%nat].
Proof.
  assert (Hx : byte_batch Demo.x_byte 1
                 (Z.to_nat (opt_N Demo.opt * er_hist_len Demo.opt)))
    by (split; reflexivity).
  split; [vm_compute; discriminate|]. split; [vm_compute; discriminate|].
  split; [exact Hx|].
  destruct (get_estimator Demo.opt Demo.world0) as [[[m|e]|err] w'] eqn:Hrun;
    [vm_compute in Hrun; discriminate Hrun| |vm_compute in Hrun; discriminate Hrun].
  exists e, w'. split; [reflexivity|].
  apply (factory_ensemble_predicts Demo.opt Demo.world0 w' e Demo.x_byte 1
           Demo.tape Hrun);
    [vm_compute; discriminate|vm_compute; discriminate|lia|exact Hx].
Defined.
